(** * BellumBoard: a shallow embedding of [bellumboard.py]

    The development follows the Python source class by class:
    - the part of Python's data model the program relies on (dynamically
      typed values, insertion-ordered dictionaries, list indexing with
      its exceptions, a few [str] methods);
    - [Track] and [Playlist];
    - the [RPGSoundboard] controller, as computations in a state and
      exception monad over the application state.  [Playlist] objects
      live in a store and are named by references, because the
      controller keeps an alias ([current_playlist]) to an object that
      is also reachable from [folders].

    What is left out: the VLC player, the worker threads (a worker's body
    and the callbacks it schedules run one after the other), the status
    bar and the other write-only labels, the text of list-box rows (kept
    as the pieces the f-string is built from), and the failures of the
    file system.  The [json], [re], [requests], [yt_dlp] and [random]
    modules are external: the JSON document is kept as the value tree
    [json.dump] receives and [json.load] returns, the network and the
    regular-expression engine are parameters of the development, and
    [random.shuffle] is CPython's loop driven by an arbitrary source of
    draws.  Floating-point values are not part of the value type. *)

From Stdlib Require Import ZArith Lia List Permutation Ascii.
From stdpp Require Import base tactics option list strings pretty gmap.

Local Open Scope string_scope.
Local Open Scope list_scope.
Local Open Scope Z_scope.

Set Warnings "-register-all".

(** ** Python values, exceptions and results *)

Module Py.

Inductive value : Type :=
| VNone
| VBool (b : bool)
| VInt (z : Z)
| VStr (s : string)
| VList (l : list value)
| VDict (d : list (string * value)).

Inductive exn : Type :=
| KeyError
| TypeError
| AttributeError
| IndexError
| ZeroDivisionError
| LibraryError.   (* an exception raised inside an external library *)

Inductive result (A : Type) : Type :=
| Ok (a : A)
| Raise (e : exn).
Arguments Ok {A} a.
Arguments Raise {A} e.

Definition rbind {A B} (r : result A) (k : A -> result B) : result B :=
  match r with
  | Ok a => k a
  | Raise e => Raise e
  end.

Fixpoint rmap_list {A B} (f : A -> result B) (l : list A) : result (list B) :=
  match l with
  | [] => Ok []
  | x :: l' =>
      rbind (f x) (fun y => rbind (rmap_list f l') (fun ys => Ok (y :: ys)))
  end.

(** *** Dictionaries

    A [dict] keeps its items in insertion order; assigning to a key that
    is present replaces the value where it stands. *)

Definition dict (V : Type) : Type := list (string * V).

Fixpoint dict_get {V} (k : string) (d : dict V) : option V :=
  match d with
  | [] => None
  | (k', v) :: d' => if String.eqb k k' then Some v else dict_get k d'
  end.

Definition dict_mem {V} (k : string) (d : dict V) : bool :=
  match dict_get k d with Some _ => true | None => false end.

Fixpoint dict_set {V} (k : string) (v : V) (d : dict V) : dict V :=
  match d with
  | [] => [(k, v)]
  | (k', v') :: d' =>
      if String.eqb k k' then (k, v) :: d' else (k', v') :: dict_set k v d'
  end.

Definition dict_keys {V} (d : dict V) : list string := map fst d.

(** The invariant of a Python dictionary: no key occurs twice. *)
Definition dict_wf {V} (d : dict V) : Prop := NoDup (dict_keys d).

(** *** Lists: [l[i]], [l[i] = x], [l.pop(i)], with negative indices *)

Definition norm_index {A} (l : list A) (i : Z) : option nat :=
  let n := Z.of_nat (length l) in
  if (0 <=? i) && (i <? n) then Some (Z.to_nat i)
  else if (- n <=? i) && (i <? 0) then Some (Z.to_nat (i + n))
  else None.

Definition getitem {A} (l : list A) (i : Z) : result A :=
  match norm_index l i with
  | Some k => match l !! k with Some x => Ok x | None => Raise IndexError end
  | None => Raise IndexError
  end.

Definition setitem {A} (l : list A) (i : Z) (x : A) : result (list A) :=
  match norm_index l i with
  | Some k => Ok (<[k:=x]> l)
  | None => Raise IndexError
  end.

Definition pop {A} (l : list A) (i : Z) : result (A * list A) :=
  match norm_index l i with
  | Some k =>
      match l !! k with
      | Some x => Ok (x, take k l ++ drop (S k) l)
      | None => Raise IndexError
      end
  | None => Raise IndexError
  end.

(** [l[i], l[j] = l[j], l[i]]: both items are read, then [l[i]] and
    [l[j]] are assigned in this order. *)
Definition swap {A} (l : list A) (i j : Z) : result (list A) :=
  rbind (getitem l j) (fun b =>
  rbind (getitem l i) (fun a =>
  rbind (setitem l i b) (fun l1 =>
  setitem l1 j a))).

(** [a % b] *)
Definition mod_ (a b : Z) : result Z :=
  if b =? 0 then Raise ZeroDivisionError else Ok (a mod b).

(** [{k: v for k, v in items}] *)
Definition dict_of_items {V} (l : list (string * V)) : dict V :=
  fold_left (fun d '(k, v) => dict_set k v d) l [].

(** [list(range(n))] *)
Definition range (n : nat) : list Z := map Z.of_nat (seq 0 n).

(** *** Operations on values *)

(** [data[key]] for a string key *)
Definition subscript (data : value) (key : string) : result value :=
  match data with
  | VDict d => match dict_get key d with Some v => Ok v | None => Raise KeyError end
  | _ => Raise TypeError
  end.

(** [data.get(key, default)] *)
Definition get (data : value) (key : string) (default : value) : result value :=
  match data with
  | VDict d => Ok (match dict_get key d with Some v => v | None => default end)
  | _ => Raise AttributeError
  end.

Fixpoint chars (s : string) : list value :=
  match s with
  | EmptyString => []
  | String c s' => VStr (String c EmptyString) :: chars s'
  end.

(** [for x in v]: the elements of a list, the characters of a string,
    the keys of a dictionary. *)
Definition iter (v : value) : result (list value) :=
  match v with
  | VList l => Ok l
  | VStr s => Ok (chars s)
  | VDict d => Ok (map VStr (dict_keys d))
  | _ => Raise TypeError
  end.

(** [data.items()] *)
Definition items (data : value) : result (list (string * value)) :=
  match data with
  | VDict d => Ok d
  | _ => Raise AttributeError
  end.

(** [v > 0] *)
Definition gt0 (v : value) : result bool :=
  match v with
  | VInt z => Ok (0 <? z)
  | VBool b => Ok b
  | _ => Raise TypeError
  end.

(** [s == v] for a string [s] *)
Definition str_eq (s : string) (v : value) : bool :=
  match v with
  | VStr s' => String.eqb s s'
  | _ => false
  end.

(** *** Strings *)

Fixpoint starts_with (p s : string) : bool :=
  match p, s with
  | EmptyString, _ => true
  | String a p', String b s' => if Ascii.eqb a b then starts_with p' s' else false
  | String _ _, EmptyString => false
  end.

(** [sub in s] *)
Fixpoint contains (sub s : string) : bool :=
  starts_with sub s ||
  match s with
  | EmptyString => false
  | String _ s' => contains sub s'
  end.

(** [s.split(sep)] for a separator of one character: the first piece and
    the pieces after it. *)
Fixpoint split (sep : ascii) (s : string) : string * list string :=
  match s with
  | EmptyString => (EmptyString, [])
  | String c s' =>
      let '(h, t) := split sep s' in
      if Ascii.eqb c sep then (EmptyString, h :: t) else (String c h, t)
  end.

(** White space as [str.strip] sees it, in UTF-8: the ASCII characters
    09-0D, 1C-1F and 20, and the encodings of U+0085, U+00A0, U+1680,
    U+2000-U+200A, U+2028, U+2029, U+202F, U+205F and U+3000. *)
Definition space1 (a : ascii) : bool :=
  let n := nat_of_ascii a in
  ((9 <=? n) && (n <=? 13) || (28 <=? n) && (n <=? 32))%nat.

Definition space2 (a b : ascii) : bool :=
  let m := nat_of_ascii a in
  let n := nat_of_ascii b in
  ((m =? 194) && ((n =? 133) || (n =? 160)))%nat.

Definition space3 (a b c : ascii) : bool :=
  let l := nat_of_ascii a in
  let m := nat_of_ascii b in
  let n := nat_of_ascii c in
  ((l =? 225) && (m =? 154) && (n =? 128)
   || (l =? 226) && (m =? 128)
      && ((128 <=? n) && (n <=? 138) || (n =? 168) || (n =? 169) || (n =? 175))
   || (l =? 226) && (m =? 129) && (n =? 159)
   || (l =? 227) && (m =? 128) && (n =? 128))%nat.

Fixpoint lstrip_bytes (l : list ascii) : list ascii :=
  match l with
  | a :: l1 =>
      if space1 a then lstrip_bytes l1
      else
        match l1 with
        | b :: l2 =>
            if space2 a b then lstrip_bytes l2
            else
              match l2 with
              | c :: l3 => if space3 a b c then lstrip_bytes l3 else l
              | [] => l
              end
        | [] => l
        end
  | [] => []
  end.

(** The same from the right end, on the reversed byte sequence. *)
Fixpoint rstrip_rev (l : list ascii) : list ascii :=
  match l with
  | c :: l1 =>
      if space1 c then rstrip_rev l1
      else
        match l1 with
        | b :: l2 =>
            if space2 b c then rstrip_rev l2
            else
              match l2 with
              | a :: l3 => if space3 a b c then rstrip_rev l3 else l
              | [] => l
              end
        | [] => l
        end
  | [] => []
  end.

(** [s.strip()] *)
Definition strip (s : string) : string :=
  String.string_of_list_ascii
    (rev (rstrip_rev (rev (lstrip_bytes (String.list_ascii_of_string s))))).

End Py.

Import Py.

(** ** [class Track] *)

Record Track : Type := mkTrack {
  title : value;
  url : value;
  video_id : value;
  start_time : value;   (* in seconds *)
}.

Definition Track_to_dict (self : Track) : value :=
  VDict [("title", title self);
         ("url", url self);
         ("video_id", video_id self);
         ("start_time", start_time self)].

Definition Track_from_dict (data : value) : result Track :=
  rbind (subscript data "title") (fun t =>
  rbind (subscript data "url") (fun u =>
  rbind (get data "video_id" (VStr "")) (fun v =>
  rbind (get data "start_time" (VInt 0)) (fun st =>
  Ok (mkTrack t u v st))))).

(** ** [class Playlist] *)

Record Playlist : Type := mkPlaylist {
  name : value;
  tracks : list Track;
}.

(** [Playlist(name, tracks)], with [self.tracks = tracks or []] *)
Definition Playlist_init (nm : value) (trs : option (list Track)) : Playlist :=
  mkPlaylist nm
    match trs with
    | None => []
    | Some [] => []
    | Some l => l
    end.

Definition Playlist_add_track (self : Playlist) (track : Track) : Playlist :=
  mkPlaylist (name self) (tracks self ++ [track]).

Definition Playlist_remove_track (self : Playlist) (index : Z) : result Playlist :=
  if (0 <=? index) && (index <? Z.of_nat (length (tracks self))) then
    rbind (pop (tracks self) index) (fun '(_, rest) =>
    Ok (mkPlaylist (name self) rest))
  else Ok self.

Definition Playlist_to_dict (self : Playlist) : value :=
  VDict [("name", name self);
         ("tracks", VList (map Track_to_dict (tracks self)))].

Definition Playlist_from_dict (data : value) : result Playlist :=
  rbind (get data "tracks" (VList [])) (fun ts =>
  rbind (iter ts) (fun ts =>
  rbind (rmap_list Track_from_dict ts) (fun trs =>
  rbind (subscript data "name") (fun nm =>
  Ok (Playlist_init nm (Some trs)))))).

(** ** The application state *)

(** A reference to a [Playlist] object. *)
Definition ref : Type := nat.

(** A row of the track list box: the title and, when the start time is
    positive, the start time shown after it. *)
Record row : Type := mkRow {
  row_title : value;
  row_start : option value;
}.

(** The texts of the message boxes (written here without diacritics). *)
Inductive message : Type :=
| SelectPlaylistFirst   (* Selecione uma playlist primeiro! *)
| TypeAUrl              (* Digite uma URL! *)
| UrlNotYouTube         (* URL deve ser do YouTube! *)
| YtDlpMissing          (* yt-dlp nao instalado! *)
| AddUrlFailed (e : exn) (* Erro ao adicionar URL: ... *)
| SaveFailed (e : exn)  (* Erro ao salvar dados: ... *)
| NoTracks              (* Nenhuma musica na playlist! *)
| SelectATrack          (* Selecione uma musica! *)
| InvalidFolderName     (* Digite um nome valido! *)
| FolderExists          (* Pasta ja existe! *)
| CreateFolderFirst     (* Crie uma pasta primeiro! *)
| TypePlaylistName      (* Digite um nome para a playlist! *)
| PlaylistExists.       (* Ja existe uma playlist com esse nome nesta pasta! *)

Inductive dialog : Type :=
| showwarning (m : message)
| showerror (m : message).

(** The file [soundboard_data.json]. *)
Inductive file : Type :=
| Absent
| Garbage               (* content that [json.load] rejects *)
| Json (doc : value).

Record App : Type := mkApp {
  (* the object store and the random generator *)
  heap : ref -> Playlist;
  next_ref : ref;
  rng : nat -> nat;
  (* the file system *)
  data_file : file;
  (* the attributes of RPGSoundboard *)
  folders : dict (list ref);
  current_playlist : option ref;
  current_track_index : Z;
  shuffle_mode : bool;
  shuffle_queue : list Z;
  (* the widgets *)
  tracks_list : list (row * bool);       (* rows, each selected or not *)
  tree : list (string * list (value * nat));
  shuffle_var : bool;
  url_entry : string;
  dialogs : list dialog;                 (* message boxes shown so far *)
}.

Definition set_heap (f : (ref -> Playlist) -> ref -> Playlist) (s : App) : App :=
  mkApp (f (heap s)) (next_ref s) (rng s) (data_file s) (folders s)
    (current_playlist s) (current_track_index s) (shuffle_mode s)
    (shuffle_queue s) (tracks_list s) (tree s) (shuffle_var s) (url_entry s)
    (dialogs s).

Definition set_next_ref (n : ref) (s : App) : App :=
  mkApp (heap s) n (rng s) (data_file s) (folders s)
    (current_playlist s) (current_track_index s) (shuffle_mode s)
    (shuffle_queue s) (tracks_list s) (tree s) (shuffle_var s) (url_entry s)
    (dialogs s).

Definition set_rng (g : nat -> nat) (s : App) : App :=
  mkApp (heap s) (next_ref s) g (data_file s) (folders s)
    (current_playlist s) (current_track_index s) (shuffle_mode s)
    (shuffle_queue s) (tracks_list s) (tree s) (shuffle_var s) (url_entry s)
    (dialogs s).

Definition set_data_file (f : file) (s : App) : App :=
  mkApp (heap s) (next_ref s) (rng s) f (folders s)
    (current_playlist s) (current_track_index s) (shuffle_mode s)
    (shuffle_queue s) (tracks_list s) (tree s) (shuffle_var s) (url_entry s)
    (dialogs s).

Definition set_folders (d : dict (list ref)) (s : App) : App :=
  mkApp (heap s) (next_ref s) (rng s) (data_file s) d
    (current_playlist s) (current_track_index s) (shuffle_mode s)
    (shuffle_queue s) (tracks_list s) (tree s) (shuffle_var s) (url_entry s)
    (dialogs s).

Definition set_current_playlist (p : option ref) (s : App) : App :=
  mkApp (heap s) (next_ref s) (rng s) (data_file s) (folders s)
    p (current_track_index s) (shuffle_mode s)
    (shuffle_queue s) (tracks_list s) (tree s) (shuffle_var s) (url_entry s)
    (dialogs s).

Definition set_current_track_index (i : Z) (s : App) : App :=
  mkApp (heap s) (next_ref s) (rng s) (data_file s) (folders s)
    (current_playlist s) i (shuffle_mode s)
    (shuffle_queue s) (tracks_list s) (tree s) (shuffle_var s) (url_entry s)
    (dialogs s).

Definition set_shuffle_mode (b : bool) (s : App) : App :=
  mkApp (heap s) (next_ref s) (rng s) (data_file s) (folders s)
    (current_playlist s) (current_track_index s) b
    (shuffle_queue s) (tracks_list s) (tree s) (shuffle_var s) (url_entry s)
    (dialogs s).

Definition set_shuffle_queue (q : list Z) (s : App) : App :=
  mkApp (heap s) (next_ref s) (rng s) (data_file s) (folders s)
    (current_playlist s) (current_track_index s) (shuffle_mode s)
    q (tracks_list s) (tree s) (shuffle_var s) (url_entry s)
    (dialogs s).

Definition set_tracks_list (l : list (row * bool)) (s : App) : App :=
  mkApp (heap s) (next_ref s) (rng s) (data_file s) (folders s)
    (current_playlist s) (current_track_index s) (shuffle_mode s)
    (shuffle_queue s) l (tree s) (shuffle_var s) (url_entry s)
    (dialogs s).

Definition set_tree (t : list (string * list (value * nat))) (s : App) : App :=
  mkApp (heap s) (next_ref s) (rng s) (data_file s) (folders s)
    (current_playlist s) (current_track_index s) (shuffle_mode s)
    (shuffle_queue s) (tracks_list s) t (shuffle_var s) (url_entry s)
    (dialogs s).

Definition set_shuffle_var (b : bool) (s : App) : App :=
  mkApp (heap s) (next_ref s) (rng s) (data_file s) (folders s)
    (current_playlist s) (current_track_index s) (shuffle_mode s)
    (shuffle_queue s) (tracks_list s) (tree s) b (url_entry s)
    (dialogs s).

Definition set_url_entry (u : string) (s : App) : App :=
  mkApp (heap s) (next_ref s) (rng s) (data_file s) (folders s)
    (current_playlist s) (current_track_index s) (shuffle_mode s)
    (shuffle_queue s) (tracks_list s) (tree s) (shuffle_var s) u
    (dialogs s).

Definition set_dialogs (d : list dialog) (s : App) : App :=
  mkApp (heap s) (next_ref s) (rng s) (data_file s) (folders s)
    (current_playlist s) (current_track_index s) (shuffle_mode s)
    (shuffle_queue s) (tracks_list s) (tree s) (shuffle_var s) (url_entry s)
    d.

(** ** Methods as computations

    A method takes the state and returns its result, or the exception it
    raised, together with the state as it stands at that point: what was
    mutated before an exception stays mutated. *)

Definition M (A : Type) : Type := App -> result A * App.

Definition bind {A B} (m : M A) (k : A -> M B) : M B := fun s =>
  match m s with
  | (Ok a, s') => k a s'
  | (Raise e, s') => (Raise e, s')
  end.

Declare Scope py_scope.
Delimit Scope py_scope with py.
Notation "x ← y ; z" := (bind y (fun x => z))
  (at level 20, y at level 100, z at level 200, only parsing) : py_scope.
Notation "x ;; z" := (bind x (fun _ => z))
  (at level 100, z at level 200, only parsing, right associativity) : py_scope.
Local Open Scope py_scope.

Definition ret {A} (a : A) : M A := fun s => (Ok a, s).
Definition pass : M unit := ret tt.
Definition lift {A} (r : result A) : M A := fun s => (r, s).
Definition raise {A} (e : exn) : M A := fun s => (Raise e, s).
Definition gets {A} (f : App -> A) : M A := fun s => (Ok (f s), s).
Definition modify (f : App -> App) : M unit := fun s => (Ok tt, f s).

(** [try: m / except Exception as e: h e] *)
Definition try_except {A} (m : M A) (h : exn -> M A) : M A := fun s =>
  match m s with
  | (Ok a, s') => (Ok a, s')
  | (Raise e, s') => h e s'
  end.

(** A callback run by the Tk main loop ([root.after(0, f)]): an exception
    that escapes it is reported on the console and dropped. *)
Definition tk_callback (m : M unit) : M unit :=
  try_except m (fun _ => pass).

Fixpoint for_each {A} (l : list A) (body : A -> M unit) : M unit :=
  match l with
  | [] => pass
  | x :: l' => body x ;; for_each l' body
  end.

Fixpoint map_m {A B} (f : A -> M B) (l : list A) : M (list B) :=
  match l with
  | [] => ret []
  | x :: l' => y ← f x; ys ← map_m f l'; ret (y :: ys)
  end.

(** [{k: f(v) for k, v in items}], built item by item *)
Fixpoint dict_comp {V} (l : list (string * value)) (f : value -> M V)
    (acc : dict V) : M (dict V) :=
  match l with
  | [] => ret acc
  | (k, v) :: l' => x ← f v; dict_comp l' f (dict_set k x acc)
  end.

(** *** The object store *)

Definition upd {A} (r : ref) (x : A) (h : ref -> A) : ref -> A :=
  fun r' => if Nat.eqb r' r then x else h r'.

Definition alloc (p : Playlist) : M ref := fun s =>
  (Ok (next_ref s), set_next_ref (S (next_ref s)) (set_heap (upd (next_ref s) p) s)).

Definition deref (r : ref) : M Playlist := gets (fun s => heap s r).

Definition store (r : ref) (p : Playlist) : M unit := modify (set_heap (upd r p)).

(** [self.current_playlist.<attribute>]: fails on [None]. *)
Definition the_current_playlist : M ref := fun s =>
  match current_playlist s with
  | Some r => (Ok r, s)
  | None => (Raise AttributeError, s)
  end.

(** *** Widgets *)

Definition show (d : dialog) : M unit :=
  modify (fun s => set_dialogs (dialogs s ++ [d]) s).

Fixpoint selected_from (i : nat) (lb : list (row * bool)) : list Z :=
  match lb with
  | [] => []
  | (_, b) :: lb' => (if b then [Z.of_nat i] else []) ++ selected_from (S i) lb'
  end.

(** [tracks_list.curselection()] *)
Definition curselection : M (list Z) := gets (fun s => selected_from 0 (tracks_list s)).

(** [tracks_list.selection_set(i)]: an index outside the list selects nothing. *)
Definition selection_set (i : Z) : M unit :=
  modify (fun s =>
    if 0 <=? i
    then set_tracks_list (alter (fun '(r, _) => (r, true)) (Z.to_nat i) (tracks_list s)) s
    else s).

(** [tracks_list.selection_clear(0, tk.END)] *)
Definition selection_clear_all : M unit :=
  modify (fun s => set_tracks_list (map (fun '(r, _) => (r, false)) (tracks_list s)) s).

(** *** [random.shuffle]

    [for i in reversed(range(1, len(x))): j = randbelow(i + 1);
     x[i], x[j] = x[j], x[i]].  A draw is the next number of the source,
    reduced into the range asked for. *)

Definition randbelow (n : Z) : M Z := fun s =>
  (Ok (Z.of_nat (rng s O) mod n), set_rng (fun k => rng s (S k)) s).

Fixpoint shuffle_loop (i : nat) (x : list Z) : M (list Z) :=
  match i with
  | O => ret x
  | S i' =>
      j ← randbelow (Z.of_nat i + 1);
      x' ← lift (swap x (Z.of_nat i) j);
      shuffle_loop i' x'
  end.

Definition random_shuffle (x : list Z) : M (list Z) :=
  shuffle_loop (length x - 1) x.

(** ** [class RPGSoundboard] *)

Definition generate_shuffle_queue : M unit :=
  cp ← gets current_playlist;
  match cp with
  | Some r =>
      p ← deref r;
      modify (set_shuffle_queue (range (length (tracks p))));;
      q ← gets shuffle_queue;
      q' ← random_shuffle q;
      modify (set_shuffle_queue q');;
      modify (set_current_track_index 0)
  | None => pass
  end.

(** The body of the loop of [load_playlist]: [tracks_list.insert(tk.END, ...)]
    with the title and, for a positive start time, the start time. *)
Definition insert_row (track : Track) : M unit :=
  positive ← lift (gt0 (start_time track));
  let start_info := if positive then Some (start_time track) else None in
  modify (fun s =>
    set_tracks_list (tracks_list s ++ [(mkRow (title track) start_info, false)]) s).

Definition load_playlist (playlist : ref) : M unit :=
  modify (set_current_playlist (Some playlist));;
  modify (set_tracks_list []);;
  p ← deref playlist;
  for_each (tracks p) insert_row;;
  sm ← gets shuffle_mode;
  if sm then generate_shuffle_queue else pass.

(** [save_data]: nothing in the [try] block can raise here, since the
    failures of the file system are not modelled; the handler is kept as
    the source has it. *)
Definition save_data : M unit :=
  try_except
    (fs ← gets folders;
     h ← gets heap;
     let data :=
       dict_of_items
         (map (fun '(folder, playlists) =>
                 (folder, VList (map (fun p => Playlist_to_dict (h p)) playlists)))
              fs) in
     modify (set_data_file (Json (VDict data))))
    (fun e => show (showerror (SaveFailed e))).

(** [[Playlist.from_dict(p) for p in playlists]]: each playlist read is
    a new object. *)
Definition load_playlists (playlists : value) : M (list ref) :=
  ps ← lift (iter playlists);
  map_m (fun p => pl ← lift (Playlist_from_dict p); alloc pl) ps.

Definition load_data : M unit :=
  f ← gets data_file;
  match f with
  | Absent => pass
  | _ =>
      try_except
        (data ← match f with
                 | Json doc => ret doc
                 | _ => raise LibraryError
                 end;
         its ← lift (items data);
         fs ← dict_comp its load_playlists [];
         modify (set_folders fs))
        (fun _ => modify (set_folders []))
  end.

Definition update_tree : M unit :=
  fs ← gets folders;
  h ← gets heap;
  modify (set_tree
    (map (fun '(folder_name, playlists) =>
            (folder_name,
             map (fun p => (name (h p), length (tracks (h p)))) playlists))
         fs)).

(** The index [_play_track_thread] plays from, in a given state. *)
Definition actual_index (s : App) : result Z :=
  if shuffle_mode s && negb (bool_decide (shuffle_queue s = []))
  then getitem (shuffle_queue s) (current_track_index s)
  else Ok (current_track_index s).

(** [not self.current_playlist or not self.current_playlist.tracks] *)
Definition nothing_to_play (s : App) : bool :=
  match current_playlist s with
  | None => true
  | Some r => bool_decide (tracks (heap s r) = [])
  end.

(** [play_track], up to the start of the worker thread. *)
Definition play_track : M unit :=
  none ← gets nothing_to_play;
  if none then show (showwarning NoTracks)
  else
    selection ← curselection;
    match selection with
    | i :: _ => modify (set_current_track_index i)
    | [] => pass
    end.

Definition next_track : M unit :=
  none ← gets nothing_to_play;
  if none then pass
  else
    r ← the_current_playlist;
    p ← deref r;
    sm ← gets shuffle_mode;
    cti ← gets current_track_index;
    q ← gets shuffle_queue;
    i ← lift (if sm then mod_ (cti + 1) (Z.of_nat (length q))
              else mod_ (cti + 1) (Z.of_nat (length (tracks p))));
    modify (set_current_track_index i);;
    selection_clear_all;;
    actual ← lift (if sm then getitem q i else Ok i);
    selection_set actual;;
    play_track.

Definition toggle_shuffle : M unit :=
  v ← gets shuffle_var;
  modify (set_shuffle_mode v);;
  cp ← gets current_playlist;
  if v && bool_decide (cp <> None) then generate_shuffle_queue else pass.

(** A click on the shuffle check box: Tk flips the variable, then runs
    the command. *)
Definition click_shuffle : M unit :=
  modify (fun s => set_shuffle_var (negb (shuffle_var s)) s);;
  toggle_shuffle.

Definition move_track_up : M unit :=
  selection ← curselection;
  match selection with
  | [] => show (showwarning SelectATrack)
  | idx :: _ =>
      if idx =? 0 then pass
      else
        r ← the_current_playlist;
        p ← deref r;
        trs ← lift (swap (tracks p) idx (idx - 1));
        store r (mkPlaylist (name p) trs);;
        load_playlist r;;
        selection_set (idx - 1);;
        save_data
  end.

Definition move_track_down : M unit :=
  selection ← curselection;
  match selection with
  | [] => show (showwarning SelectATrack)
  | idx :: _ =>
      r ← the_current_playlist;
      p ← deref r;
      if Z.of_nat (length (tracks p)) - 1 <=? idx then pass
      else
        trs ← lift (swap (tracks p) idx (idx + 1));
        store r (mkPlaylist (name p) trs);;
        load_playlist r;;
        selection_set (idx + 1);;
        save_data
  end.

(** [create_folder], given the answer of the dialog ([None] when it is
    cancelled). *)
Definition create_folder (answer : option string) : M unit :=
  match answer with
  | None => pass
  | Some nm =>
      if String.eqb nm "" then pass
      else
        let nm := strip nm in
        if String.eqb nm "" then show (showwarning InvalidFolderName)
        else
          fs ← gets folders;
          if negb (dict_mem nm fs) then
            modify (set_folders (dict_set nm [] fs));;
            update_tree;;
            save_data
          else show (showwarning FolderExists)
  end.

(** The inner function [create] of [create_playlist]: one press of the
    button, with [folder] chosen in the combo box and [text] typed in the
    entry.  It returns whether the playlist was created. *)
Definition create (folder text : string) : M bool :=
  let nm := strip text in
  if String.eqb nm "" then
    show (showwarning TypePlaylistName);; ret false
  else
    fs ← gets folders;
    if negb (String.eqb folder "") && dict_mem folder fs then
      h ← gets heap;
      let playlists := default [] (dict_get folder fs) in
      let existing_names := map (fun p => name (h p)) playlists in
      if existsb (str_eq nm) existing_names then
        show (showwarning PlaylistExists);; ret false
      else
        playlist ← alloc (Playlist_init (VStr nm) None);
        modify (set_folders (dict_set folder (playlists ++ [playlist]) fs));;
        ret true
    else ret false.

(** [create_playlist], for a dialog in which the button is pressed once
    and, when nothing was created, the dialog is closed. *)
Definition create_playlist (folder text : string) : M unit :=
  fs ← gets folders;
  match fs with
  | [] => show (showwarning CreateFolderFirst)
  | _ =>
      created ← create folder text;
      if created then update_tree;; save_data else pass
  end.

(** ** The external libraries *)

Record Env : Type := mkEnv {
  (* whether [import yt_dlp] succeeded *)
  yt_dlp : bool;
  (* [YoutubeDL(opts).extract_info(url, download=False)] *)
  extract_info : string -> result value;
  (* whether [import requests] succeeded *)
  requests : bool;
  (* [requests.get(url, headers=..., timeout=10).text] *)
  requests_get : string -> result string;
  (* [re.finditer(pattern, text)]: groups 1 and 2 of each match, in order *)
  re_finditer : string -> string -> list (string * string);
}.

Definition dq : string := String (Ascii.ascii_of_nat 34) EmptyString.

(** The pattern of the embed-page scrape: a quoted [name] field, then the
    first quoted [name] field after [artists]. *)
Definition embed_pattern : string :=
  dq +:+ "name" +:+ dq +:+ ":" +:+ dq +:+ "([^" +:+ dq +:+ "]+)" +:+ dq
  +:+ ".*?" +:+ dq +:+ "artists" +:+ dq +:+ ":\[.*?"
  +:+ dq +:+ "name" +:+ dq +:+ ":" +:+ dq +:+ "([^" +:+ dq +:+ "]+)" +:+ dq.

(** The loop that removes duplicates: [seen] holds the keys met so far. *)
Fixpoint unique_from (seen : gset string) (tracks : list (string * string))
    : list (string * string) :=
  match tracks with
  | [] => []
  | (nm, artist) :: rest =>
      let key := nm +:+ "|" +:+ artist in
      if decide (key ∈ seen) then unique_from seen rest
      else (nm, artist) :: unique_from ({[key]} ∪ seen) rest
  end.

Section WithEnv.

Variable env : Env.

Definition _add_url_thread (u : string) : M unit :=
  try_except
    (if negb (yt_dlp env) then show (showerror YtDlpMissing)
     else
       (* remove the parameters of the URL *)
       let u := if contains "?" u then fst (split "?"%char u) else u in
       info ← lift (extract_info env u);
       t ← lift (get info "title" (VStr "Sem título"));
       i ← lift (get info "id" (VStr ""));
       let track := mkTrack t (VStr u) i (VInt 0) in
       r ← the_current_playlist;
       p ← deref r;
       store r (Playlist_add_track p track);;
       tk_callback (load_playlist r);;
       tk_callback save_data;;
       tk_callback (modify (set_url_entry "")))
    (fun e => show (showerror (AddUrlFailed e))).

Definition add_from_url : M unit :=
  cp ← gets current_playlist;
  match cp with
  | None => show (showwarning SelectPlaylistFirst)
  | Some _ =>
      u ← gets (fun s => strip (url_entry s));
      if String.eqb u "" then show (showwarning TypeAUrl)
      else if negb (contains "youtube.com" u) && negb (contains "youtu.be" u)
      then show (showerror UrlNotYouTube)
      else _add_url_thread u
  end.

Definition _get_spotify_tracks_embed (playlist_id : string) : list (string * string) :=
  let u := "https://open.spotify.com/embed/playlist/" +:+ playlist_id in
  match (if requests env then requests_get env u else Raise AttributeError) with
  | Ok text =>
      let tracks := re_finditer env embed_pattern text in
      let unique_tracks := unique_from ∅ tracks in
      take 50 unique_tracks
  | Raise _ => []
  end.

End WithEnv.

(** [remove_track], given the answer to the confirmation box. *)
Definition remove_track (confirm : bool) : M unit :=
  selection ← curselection;
  match selection with
  | [] => show (showwarning SelectATrack)
  | idx :: _ =>
      r ← the_current_playlist;
      p ← deref r;
      (* track_name = self.current_playlist.tracks[idx].title *)
      _ ← lift (getitem (tracks p) idx);
      if confirm then
        p' ← lift (Playlist_remove_track p idx);
        store r p';;
        load_playlist r;;
        save_data
      else pass
  end.

(** ** State and exceptions, for any state

    The same monad as [M], over a state of any type; it carries the
    player and the desk below. *)

Definition ST (S A : Type) : Type := S -> result A * S.

Definition sbind {S A B} (m : ST S A) (k : A -> ST S B) : ST S B := fun s =>
  match m s with
  | (Ok a, s') => k a s'
  | (Raise e, s') => (Raise e, s')
  end.

Declare Scope st_scope.
Delimit Scope st_scope with st.
Notation "x ← y ; z" := (sbind y (fun x => z))
  (at level 20, y at level 100, z at level 200, only parsing) : st_scope.
Notation "x ;; z" := (sbind x (fun _ => z))
  (at level 100, z at level 200, only parsing, right associativity) : st_scope.
Local Open Scope st_scope.

Definition sret {S A} (a : A) : ST S A := fun s => (Ok a, s).
Definition slift {S A} (r : result A) : ST S A := fun s => (r, s).
Definition sgets {S A} (f : S -> A) : ST S A := fun s => (Ok (f s), s).
Definition smodify {S} (f : S -> S) : ST S unit := fun s => (Ok tt, f s).

(** [try: m / except Exception as e: h e] *)
Definition stry {S A} (m : ST S A) (h : exn -> ST S A) : ST S A := fun s =>
  match m s with
  | (Ok a, s') => (Ok a, s')
  | (Raise e, s') => h e s'
  end.

(** ** [class MusicPlayer] *)

(** The calls made to VLC. *)
Inductive vlc_call : Type :=
| media_new (u : value)      (* instance.media_new(url) *)
| set_media                  (* player.set_media(media) *)
| vlc_play                   (* player.play() *)
| set_time (ms : Z)          (* player.set_time(ms) *)
| vlc_pause                  (* player.pause() *)
| vlc_stop                   (* player.stop() *)
| audio_set_volume (v : Z).  (* player.audio_set_volume(v) *)

(** What the player reports through [status_callback] (texts without
    diacritics). *)
Inductive player_status : Type :=
| VlcNotInstalled            (* ERRO: VLC nao instalado! *)
| PlayerUnavailable          (* Player nao disponivel *)
| PlayFailed (e : exn).      (* Erro ao tocar: ... *)

Record MusicPlayer : Type := mkPlayer {
  has_player : bool;                 (* self.player is not None *)
  current_url : option value;
  is_playing : bool;
  volume : Z;
  vlc_calls : list vlc_call;         (* calls VLC has carried out, oldest first *)
  reported : list player_status;     (* calls of status_callback, oldest first *)
}.

Definition set_has_player (b : bool) (p : MusicPlayer) : MusicPlayer :=
  mkPlayer b (current_url p) (is_playing p) (volume p) (vlc_calls p) (reported p).

Definition set_current_url (u : option value) (p : MusicPlayer) : MusicPlayer :=
  mkPlayer (has_player p) u (is_playing p) (volume p) (vlc_calls p) (reported p).

Definition set_is_playing (b : bool) (p : MusicPlayer) : MusicPlayer :=
  mkPlayer (has_player p) (current_url p) b (volume p) (vlc_calls p) (reported p).

Definition set_volume_field (v : Z) (p : MusicPlayer) : MusicPlayer :=
  mkPlayer (has_player p) (current_url p) (is_playing p) v (vlc_calls p) (reported p).

Definition set_vlc_calls (l : list vlc_call) (p : MusicPlayer) : MusicPlayer :=
  mkPlayer (has_player p) (current_url p) (is_playing p) (volume p) l (reported p).

Definition set_reported (l : list player_status) (p : MusicPlayer) : MusicPlayer :=
  mkPlayer (has_player p) (current_url p) (is_playing p) (volume p) (vlc_calls p) l.

(** [start_time * 1000], once [start_time > 0] has been evaluated. *)
Definition to_ms (start : value) : result Z :=
  match start with
  | VInt z => Ok (z * 1000)
  | VBool b => Ok (if b then 1000 else 0)
  | _ => Raise TypeError
  end.

Section WithVlc.

(** The backend: for each call, the exception it raises, if any. *)
Variable vlc_raises : vlc_call -> option exn.

Definition vlc (c : vlc_call) : ST MusicPlayer unit := fun p =>
  match vlc_raises c with
  | Some e => (Raise e, p)
  | None => (Ok tt, set_vlc_calls (vlc_calls p ++ [c]) p)
  end.

Definition status_callback (m : player_status) : ST MusicPlayer unit :=
  smodify (fun p => set_reported (reported p ++ [m]) p).

(** [MusicPlayer.__init__], given whether [import vlc] succeeded. *)
Definition MusicPlayer_init (vlc_installed : bool)
    : result unit * MusicPlayer :=
  (if vlc_installed then
     smodify (set_has_player true);;
     v ← sgets volume;
     vlc (audio_set_volume v)
   else status_callback VlcNotInstalled)
  (mkPlayer false None false 70 [] []).

Definition MusicPlayer_play (u start : value) : ST MusicPlayer bool :=
  hp ← sgets has_player;
  if negb hp then
    status_callback PlayerUnavailable;; sret false
  else
    stry
      (smodify (set_current_url (Some u));;
       vlc (media_new u);;
       vlc set_media;;
       vlc vlc_play;;
       (* wait for the player to start before setting the time *)
       positive ← slift (gt0 start);
       (if positive then ms ← slift (to_ms start); vlc (set_time ms)
        else sret tt);;
       smodify (set_is_playing true);;
       sret true)
      (fun e => status_callback (PlayFailed e);; sret false).

Definition MusicPlayer_pause : ST MusicPlayer unit :=
  hp ← sgets has_player;
  if hp then
    vlc vlc_pause;;
    smodify (fun p => set_is_playing (negb (is_playing p)) p)
  else sret tt.

Definition MusicPlayer_stop : ST MusicPlayer unit :=
  hp ← sgets has_player;
  if hp then
    vlc vlc_stop;;
    smodify (set_is_playing false);;
    smodify (set_current_url None)
  else sret tt.

Definition MusicPlayer_set_volume (v : Z) : ST MusicPlayer unit :=
  smodify (set_volume_field (Z.max 0 (Z.min 100 v)));;
  hp ← sgets has_player;
  if hp then v' ← sgets volume; vlc (audio_set_volume v') else sret tt.

(** [is_finished], given whether VLC reports the state [Ended]. *)
Definition MusicPlayer_is_finished (ended : bool) (p : MusicPlayer) : bool :=
  if has_player p then ended else false.

(** The calls a client makes on a player, and the state they leave,
    whether the call returns or raises. *)
Inductive player_op : Type :=
| op_play (u start : value)
| op_pause
| op_stop
| op_set_volume (v : Z).

Definition player_step (p : MusicPlayer) (o : player_op) : MusicPlayer :=
  match o with
  | op_play u start => snd (MusicPlayer_play u start p)
  | op_pause => snd (MusicPlayer_pause p)
  | op_stop => snd (MusicPlayer_stop p)
  | op_set_volume v => snd (MusicPlayer_set_volume v p)
  end.

Definition player_after (vlc_installed : bool) (ops : list player_op)
    : MusicPlayer :=
  fold_left player_step ops (snd (MusicPlayer_init vlc_installed)).

End WithVlc.

Local Close Scope st_scope.

(** ** More built-ins *)

(** [bool(v)] *)
Definition truthy (v : value) : bool :=
  match v with
  | VNone => false
  | VBool b => b
  | VInt z => negb (z =? 0)
  | VStr s => negb (String.eqb s "")
  | VList l => negb (bool_decide (l = []))
  | VDict d => negb (bool_decide (d = []))
  end.

(** [a or b] *)
Definition or_ (a b : value) : value := if truthy a then a else b.

(** [v == 0] *)
Definition eq0 (v : value) : bool :=
  match v with
  | VInt z => z =? 0
  | VBool b => negb b
  | _ => false
  end.

(** [v is None] *)
Definition is_None (v : value) : bool :=
  match v with
  | VNone => true
  | _ => false
  end.

(** [f"{z:02d}"] *)
Definition fmt_02d (z : Z) : string :=
  let s := pretty z in
  if (String.length s <? 2)%nat then "0" +:+ s else s.

Section Builtins.

(** [str] of a list or a dictionary, and [int] of a string. *)
Variable repr : value -> string.
Variable int_of_str : string -> result Z.

(** [str(v)], which is what [f"{v}"] shows *)
Definition str_ (v : value) : string :=
  match v with
  | VNone => "None"
  | VBool true => "True"
  | VBool false => "False"
  | VInt z => pretty z
  | VStr s => s
  | _ => repr v
  end.

(** [int(v)] *)
Definition int_ (v : value) : result Z :=
  match v with
  | VInt z => Ok z
  | VBool b => Ok (if b then 1 else 0)
  | VStr s => int_of_str s
  | _ => Raise TypeError
  end.

Definition format_duration (seconds : value) : string :=
  if eq0 seconds || is_None seconds then "?"
  else
    match int_ seconds with
    | Ok seconds =>
        let mins := seconds / 60 in
        let secs := seconds mod 60 in
        pretty mins +:+ ":" +:+ fmt_02d secs
    | Raise _ => "?"
    end.

Definition watch_url (video_id : value) : string :=
  "https://www.youtube.com/watch?v=" +:+ str_ video_id.

(** ** Search and streams *)

(** [yt_dlp] with the options of the search and with those of the stream
    lookup: [YoutubeDL(ydl_opts).extract_info(url, download=False)]. *)
Variable env : Env.
Variable extract_flat : string -> result value.
Variable extract_stream : string -> result value.

(** One element of the list [search_youtube] returns. *)
Definition search_result (entry : value) : result value :=
  rbind (get entry "title" (VStr "Sem título")) (fun t =>
  rbind (get entry "id" (VStr "")) (fun i =>
  rbind (get entry "id" (VStr "")) (fun video_id =>
  rbind (get entry "duration" (VInt 0)) (fun d =>
  rbind (int_ (or_ d (VInt 0))) (fun duration =>
  Ok (VDict [("title", t);
             ("url", VStr (watch_url i));
             ("video_id", video_id);
             ("duration", VInt duration)])))))).

(** [entries[:15]], as the list it is iterated as *)
Definition first_15 (entries : value) : result (list value) :=
  match entries with
  | VList l => Ok (take 15 l)
  | VStr s => Ok (take 15 (chars s))
  | _ => Raise TypeError
  end.

Definition search_youtube (query : string) : list value :=
  match
    (if yt_dlp env then
       rbind (extract_flat ("ytsearch15:" +:+ query)) (fun result =>
       rbind (get result "entries" (VList [])) (fun entries =>
       rbind (first_15 entries) (fun entries =>
       rmap_list search_result entries)))
     else Raise AttributeError)
  with
  | Ok results => results
  | Raise _ => []
  end.

Definition get_youtube_stream_url (video_id : value) : value :=
  if negb (yt_dlp env) then VStr (watch_url video_id)
  else
    match rbind (extract_stream (watch_url video_id))
                (fun info => get info "url" (VStr "")) with
    | Ok u => u
    | Raise _ => VStr ""
    end.

End Builtins.

(** ** The soundboard with its player *)

(** The texts shown in the status bar by the playback commands. *)
Inductive status_text : Type :=
| Loading (title : value)        (* Carregando: ... *)
| LoadFailed (title : value)     (* Erro ao carregar: ... *)
| NowPlaying (title : value)     (* Tocando: ... *)
| PlayError (title : value).     (* Erro ao tocar: ... *)

Record Soundboard : Type := mkSoundboard {
  app : App;
  player : MusicPlayer;
  status_label : list status_text;   (* calls of update_status, oldest first *)
}.

Definition on_app {A} (m : M A) : ST Soundboard A := fun d =>
  let '(r, s) := m (app d) in (r, mkSoundboard s (player d) (status_label d)).

Definition on_player {A} (m : ST MusicPlayer A) : ST Soundboard A := fun d =>
  let '(r, p) := m (player d) in (r, mkSoundboard (app d) p (status_label d)).

Definition update_status (t : status_text) : ST Soundboard unit :=
  smodify (fun d => mkSoundboard (app d) (player d) (status_label d ++ [t])).

Section Playback.

Variable repr : value -> string.
Variable env : Env.
Variable extract_stream : string -> result value.
Variable vlc_raises : vlc_call -> option exn.

Local Open Scope st_scope.

(** The worker thread of [play_track], run to its end. *)
Definition _play_track_thread : ST Soundboard unit :=
  s ← sgets app;
  actual_index ← slift (actual_index s);
  r ← on_app the_current_playlist;
  track ← slift (getitem (tracks (heap s r)) actual_index);
  update_status (Loading (title track));;
  (* get the streaming URL *)
  let stream_url := get_youtube_stream_url repr env extract_stream (video_id track) in
  if negb (truthy stream_url) then update_status (LoadFailed (title track))
  else
    update_status (NowPlaying (title track));;
    success ← on_player (MusicPlayer_play vlc_raises stream_url (start_time track));
    if negb success then update_status (PlayError (title track)) else sret tt.

(** [play_track] with its worker thread. *)
Definition play_track_thread : ST Soundboard unit :=
  none ← sgets (fun d => nothing_to_play (app d));
  on_app play_track;;
  if none then sret tt else _play_track_thread.

End Playback.

(** ** The tracks of a Spotify playlist *)

(** [', '.join(l)] *)
Fixpoint join_comma (l : list value) : result string :=
  match l with
  | [] => Ok ""
  | VStr s :: l' =>
      match l' with
      | [] => Ok s
      | _ => rbind (join_comma l') (fun rest => Ok (s +:+ ", " +:+ rest))
      end
  | _ => Raise TypeError
  end.

(** The body of the loop over the items: the track to append, if any, as
    the pair of its [name] and its [artist]. *)
Definition spotify_item (item : value) : result (option (value * string)) :=
  rbind (get item "track" (VDict [])) (fun track =>
  if truthy track then
    rbind (get track "name" VNone) (fun nm =>
    if truthy nm then
      rbind (get track "artists" (VList [])) (fun artists =>
      rbind (iter artists) (fun artists =>
      rbind (rmap_list (fun artist => get artist "name" (VStr "")) artists) (fun names =>
      rbind (join_comma names) (fun artists =>
      rbind (get track "name" (VStr "")) (fun nm =>
      Ok (Some (nm, artists)))))))
    else Ok None)
  else Ok None).

(** [data['props']['pageProps']['state']['data']['entity']] *)
Definition playlist_entity (data : value) : result value :=
  rbind (subscript data "props") (fun d =>
  rbind (subscript d "pageProps") (fun d =>
  rbind (subscript d "state") (fun d =>
  rbind (subscript d "data") (fun d =>
  subscript d "entity")))).

(** [playlist_data.get('tracks', {}).get('items', [])], as the list the
    loop goes through *)
Definition playlist_items (playlist_data : value) : result (list value) :=
  rbind (get playlist_data "tracks" (VDict [])) (fun ts =>
  rbind (get ts "items" (VList [])) (fun items =>
  iter items)).

Section Spotify.

Variable env : Env.
(** [requests.get(url, ...).status_code], the first group of the search
    for the [__NEXT_DATA__] script in a page, and [json.loads]. *)
Variable status_code : string -> Z.
Variable next_data : string -> option string.
Variable json_loads : string -> result value.

Definition get_spotify_tracks (playlist_id : string) : list (value * string) :=
  let u := "https://open.spotify.com/playlist/" +:+ playlist_id in
  match (if requests env then requests_get env u else Raise AttributeError) with
  | Raise _ => []
  | Ok text =>
      if negb (status_code u =? 200) then []
      else
        match next_data text with
        | None =>
            (* alternative method: the Spotify Embed API *)
            map (fun '(nm, artist) => (VStr nm, artist))
                (_get_spotify_tracks_embed env playlist_id)
        | Some js =>
            match json_loads js with
            | Raise _ => []
            | Ok data =>
                match
                  rbind (playlist_entity data) (fun playlist_data =>
                  rbind (playlist_items playlist_data) (fun items =>
                  rbind (rmap_list spotify_item items) (fun tracks =>
                  Ok (omap id tracks))))
                with
                | Ok tracks => tracks
                | Raise _ => []
                end
            end
        end
  end.

End Spotify.

(** ** Scenarios used in examples *)

(** The state [__init__] starts from, before [load_data]: no folders, no
    playlist selected, index 0, shuffle off. *)
Definition init (g : nat -> nat) (f : file) : App :=
  mkApp (fun _ => mkPlaylist VNone []) O g f [] None 0 false [] [] [] false "" [].

Definition track_a : Track := mkTrack (VStr "a") (VStr "ua") (VStr "ia") (VInt 0).
Definition track_b : Track := mkTrack (VStr "b") (VStr "ub") (VStr "ib") (VInt 5).
Definition track_c : Track := mkTrack (VStr "c") (VStr "uc") (VStr "ic") (VInt 0).

(** The state right after the playlist ["P"] of folder ["F"], holding
    the tracks [ts], was opened in a fresh application whose random
    source is [g]. *)
Definition loaded (ts : list Track) (g : nat -> nat) : App :=
  snd (load_playlist O
         (mkApp (upd O (mkPlaylist (VStr "P") ts) (fun _ => mkPlaylist VNone []))
            1%nat g Absent [("F", [O])] None 0 false [] [] [] false "" [])).

(** The URL of the example, and a world in which every lookup succeeds. *)
Definition example_url : string := "https://youtube.com/watch?v=abc123?extra=1".

Definition env_ok : Env :=
  mkEnv true (fun _ => Ok (VDict [("title", VStr "Song"); ("id", VStr "abc123")]))
    true (fun _ => Ok "") (fun _ _ => []).

(** A world in which the lookup of a watch address succeeds only when the
    address names a video. *)
Definition env_needs_id : Env :=
  mkEnv true
    (fun u => if contains "v=" u
              then Ok (VDict [("title", VStr "Song"); ("id", VStr "abc123")])
              else Raise LibraryError)
    true (fun _ => Ok "") (fun _ _ => []).

(** Draws that turn [[0; 1; 2]] into [[2; 0; 1]]: the first one picks
    position 1 for the last element, the second one position 0. *)
Definition draws_201 : nat -> nat :=
  fun k => match k with O => 1%nat | _ => O end.

(** Shuffle switched on, with those draws, on a playlist of three tracks. *)
Definition shuffled : App :=
  snd (click_shuffle (loaded [track_a; track_b; track_c] draws_201)).

(** The same playlist, in sequential mode, with the first row selected,
    and with the last row selected. *)
Definition first_selected : App :=
  snd (selection_set 0 (loaded [track_a; track_b; track_c] draws_201)).

Definition last_selected : App :=
  snd (selection_set 2 (loaded [track_a; track_b; track_c] draws_201)).

(** A fresh application in which the folder ["A"] was created. *)
Definition one_folder : App :=
  snd (create_folder (Some "A") (init (fun _ => O) Absent)).

(** ... and then the playlist ["x"] in it. *)
Definition one_playlist : App :=
  snd (create_playlist "A" "x" one_folder).

(** A world whose embed page yields 60 different tracks. *)
Definition sixty_matches : list (string * string) :=
  map (fun n => (String (Ascii.ascii_of_nat (48 + n)) EmptyString, "artist"))
    (seq 0 60).

Definition env_many : Env :=
  mkEnv true (fun _ => Raise LibraryError) true (fun _ => Ok "")
    (fun _ _ => sixty_matches).

(** ** Predicates used in the statements *)

(** The start time of the track is an integer, as the data model has it. *)
Definition int_start (t : Track) : Prop := exists z, start_time t = VInt z.

(** No row of the list box is selected. *)
Definition unselected (lb : list (row * bool)) : Prop :=
  Forall (fun rb => snd rb = false) lb.

(** What the library holds: for each folder, in order, its playlists, in
    order, each with its name and its tracks. *)
Definition library (s : App) : list (string * list Playlist) :=
  map (fun '(folder, playlists) => (folder, map (heap s) playlists)) (folders s).

(** The state after a message box with the warning [m]. *)
Definition warned (m : message) (s : App) : App :=
  set_dialogs (dialogs s ++ [showwarning m]) s.

(** [m] leaves the component [f] of the state as it was, whether it
    returns or raises. *)
Definition preserves {X A} (f : App -> X) (m : M A) : Prop :=
  forall s, f (snd (m s)) = f s.

(** Unfolding of the monad's operations in a goal. *)
Ltac run :=
  cbv beta iota zeta delta
    [bind ret pass lift raise gets modify deref store show curselection
     selection_set selection_clear_all the_current_playlist].

(** The state after a message box with the error [m]. *)
Definition failed (m : message) (s : App) : App :=
  set_dialogs (dialogs s ++ [showerror m]) s.

(** The document [save_data] writes for the state [s]. *)
Definition document (s : App) : value :=
  VDict (dict_of_items
    (map (fun '(folder, playlists) =>
            (folder, VList (map (fun p => Playlist_to_dict (heap s p)) playlists)))
         (folders s))).

(** Every playlist reachable from a folder is an object that was
    allocated. *)
Definition store_ok (s : App) : Prop :=
  Forall (fun kv => Forall (fun r => (r < next_ref s)%nat) (snd kv)) (folders s).

(** Inside each folder no two playlists have the same name. *)
Definition names_unique (s : App) : Prop :=
  Forall (fun kv => NoDup (map (fun r => name (heap s r)) (snd kv))) (folders s).

(** All the playlists of one folder of the document can be read. *)
Definition readable (playlists : value) : bool :=
  match rbind (iter playlists) (rmap_list Playlist_from_dict) with
  | Ok _ => true
  | Raise _ => false
  end.

(** Documents that cannot be read: a playlist without a name, and a
    track without a title. *)
Definition doc_no_name : value :=
  VDict [("F", VList [VDict [("tracks", VList [])]])].

Definition doc_no_title : value :=
  VDict [("F", VList [VDict [("name", VStr "P");
                             ("tracks", VList [VDict [("url", VStr "u")]])]])].

(** A track whose start time is not a number, as a hand-edited file can
    hold it. *)
Definition track_bad : Track :=
  mkTrack (VStr "z") (VStr "uz") (VStr "iz") (VStr "soon").

(** An application with the folder ["F"] and its playlist ["P"] of
    tracks [ts], nothing opened yet. *)
Definition unopened (ts : list Track) : App :=
  mkApp (upd O (mkPlaylist (VStr "P") ts) (fun _ => mkPlaylist VNone []))
    1%nat draws_201 Absent [("F", [O])] None 0 false [] [] [] false "" [].


(** The list box still shows three rows, the last one selected, but the
    playlist has been cut to one track behind its back. *)
Definition stale_selection : App :=
  set_heap (upd O (mkPlaylist (VStr "P") [track_a])) last_selected.

(** The URL as [_add_url_thread] cleans it: what precedes the first
    question mark. *)
Definition cleaned (u : string) : string :=
  if contains "?" u then fst (split "?"%char u) else u.

(** The key by which the embed scrape recognises a duplicate. *)
Definition track_key (t : string * string) : string :=
  fst t +:+ "|" +:+ snd t.

(** A world without yt_dlp and without requests. *)
Definition env_bare : Env :=
  mkEnv false (fun _ => Raise LibraryError) false (fun _ => Raise LibraryError)
    (fun _ _ => []).

(** An empty playlist opened, and the text [u] typed in the URL entry. *)
Definition typed (u : string) : App :=
  set_url_entry u (loaded [] draws_201).

(** A volume sent to VLC is within its range. *)
Definition volume_call_ok (c : vlc_call) : Prop :=
  match c with
  | audio_set_volume v => 0 <= v <= 100
  | _ => True
  end.

(** What holds of a player all along, given whether VLC was there when it
    was made. *)
Definition player_ok (vlc_installed : bool) (p : MusicPlayer) : Prop :=
  has_player p = vlc_installed /\
  0 <= volume p <= 100 /\
  Forall volume_call_ok (vlc_calls p) /\
  (vlc_installed = false ->
   vlc_calls p = [] /\ is_playing p = false /\ current_url p = None).

(** The calls [play] makes to seek to the start time. *)
Definition seek_calls (start : value) : list vlc_call :=
  match start with
  | VInt z => if 0 <? z then [set_time (z * 1000)] else []
  | VBool true => [set_time 1000]
  | _ => []
  end.

(** A backend that carries out every call. *)
Definition vlc_fine (c : vlc_call) : option exn := None.

(** A player with VLC, as [__init__] leaves it. *)
Definition fresh_player : MusicPlayer :=
  mkPlayer true None false 70 [audio_set_volume 70] [].

Ltac run_player :=
  cbv [MusicPlayer_init MusicPlayer_play MusicPlayer_pause MusicPlayer_stop
       MusicPlayer_set_volume status_callback vlc stry sbind sret slift sgets
       smodify set_has_player set_current_url set_is_playing set_volume_field
       set_vlc_calls set_reported
       has_player current_url is_playing volume vlc_calls reported].

Ltac player_ok_split :=
  unfold player_ok;
  cbn [has_player current_url is_playing volume vlc_calls reported snd];
  split; [done|]; split; [done || lia|]; split; [|done || tauto].

(** An entry of a search that [search_youtube] can turn into a result
    whatever [int] does on strings: a dictionary whose duration is absent,
    [None] or an integer. *)
Definition plain_entry (x : value) : bool :=
  match x with
  | VDict d =>
      match dict_get "duration" d with
      | None | Some VNone | Some (VInt _) => true
      | _ => false
      end
  | _ => false
  end.

Definition entry_duration (d : dict value) : Z :=
  match dict_get "duration" d with
  | Some (VInt n) => n
  | _ => 0
  end.

Definition no_int (s : string) : result Z := Raise LibraryError.

Definition no_repr (v : value) : string := "".

Definition no_info (u : string) : result value := Raise LibraryError.

(** A search with two hits, the second without a duration. *)
Definition two_hits (q : string) : result value :=
  Ok (VDict [("entries",
              VList [VDict [("title", VStr "a"); ("id", VStr "ia");
                            ("duration", VInt 61)];
                     VDict [("id", VStr "ib")]])]).

(** A search one of whose hits is not a dictionary. *)
Definition odd_hit (q : string) : result value :=
  Ok (VDict [("entries", VList [VDict [("id", VStr "ia")]; VNone])]).

(** The soundboard with the playlist [ts] opened, a fresh player and an
    empty status bar. *)
Definition desk (ts : list Track) : Soundboard :=
  mkSoundboard (loaded ts draws_201) fresh_player [].

(** Shuffle on with the queue [[2; 0; 1]], the first row selected. *)
Definition shuffled_first : Soundboard :=
  mkSoundboard (snd (selection_set 0 shuffled)) fresh_player [].

(** The data of a playlist page whose entity holds the items [its]. *)
Definition page_data (its : list value) : value :=
  VDict [("props",
    VDict [("pageProps",
      VDict [("state",
        VDict [("data",
          VDict [("entity",
            VDict [("tracks", VDict [("items", VList its)])])])])])])].

(** An item with a track by two artists, an item with a track without a
    name, and an item that is not a dictionary. *)
Definition item_song : value :=
  VDict [("track",
    VDict [("name", VStr "Song");
           ("artists", VList [VDict [("name", VStr "A")];
                              VDict [("name", VStr "B")]])])].

Definition item_nameless : value := VDict [("track", VDict [("artists", VList [])])].

Definition item_odd : value := VInt 7.

(** A world in which the playlist page is served and holds [its]. *)
Definition env_page : Env :=
  mkEnv false (fun _ => Raise LibraryError) true (fun _ => Ok "page")
    (fun _ _ => []).

Definition is_200 (u : string) : Z := 200.

Definition found (js : string) (text : string) : option string := Some js.

Definition loads (its : list value) (js : string) : result value :=
  Ok (page_data its).

(** * Properties *)

(** ** Tracks and playlists *)

Lemma Track_round_trip (t : Track) : Track_from_dict (Track_to_dict t) = Ok t.
Proof. by destruct t. Qed.

(** C8: when a track is read from its dictionary, a missing [video_id]
    becomes the empty string and a missing [start_time] becomes 0, and
    the title and url are the ones stored in the dictionary. *)
Theorem Track_from_dict_defaults (d : dict value) (t u : value) :
  dict_get "title" d = Some t ->
  dict_get "url" d = Some u ->
  exists tr,
    Track_from_dict (VDict d) = Ok tr /\
    title tr = t /\ url tr = u /\
    (dict_get "video_id" d = None -> video_id tr = VStr "") /\
    (dict_get "start_time" d = None -> start_time tr = VInt 0).
Proof.
  intros Ht Hu. unfold Track_from_dict. cbn [subscript get rbind].
  rewrite Ht, Hu. cbn [rbind]. eexists. split; [reflexivity|].
  cbn [title url video_id start_time].
  repeat split; intros ->; reflexivity.
Qed.

Lemma Track_from_dict_defaults_witness :
  exists tr,
    Track_from_dict (VDict [("title", VStr "a"); ("url", VStr "ua")]) = Ok tr /\
    title tr = VStr "a" /\ url tr = VStr "ua" /\
    (dict_get "video_id" [("title", VStr "a"); ("url", VStr "ua")] = None ->
     video_id tr = VStr "") /\
    (dict_get "start_time" [("title", VStr "a"); ("url", VStr "ua")] = None ->
     start_time tr = VInt 0).
Proof.
  apply (Track_from_dict_defaults
           [("title", VStr "a"); ("url", VStr "ua")] (VStr "a") (VStr "ua"));
    reflexivity.
Defined.

Lemma norm_index_in_range {A} (l : list A) (i : Z) :
  0 <= i < Z.of_nat (length l) -> norm_index l i = Some (Z.to_nat i).
Proof.
  intros H. unfold norm_index.
  destruct (Z.leb_spec 0 i); [|lia].
  destruct (Z.ltb_spec i (Z.of_nat (length l))); [|lia].
  reflexivity.
Qed.

Lemma pop_in_range {A} (l : list A) (i : Z) :
  0 <= i < Z.of_nat (length l) ->
  exists x, l !! Z.to_nat i = Some x /\
    pop l i = Ok (x, take (Z.to_nat i) l ++ drop (S (Z.to_nat i)) l).
Proof.
  intros H. unfold pop. rewrite norm_index_in_range by done.
  destruct (lookup_lt_is_Some_2 l (Z.to_nat i)) as [x Hx]; [lia|].
  exists x. by rewrite Hx.
Qed.

(** C9: [remove_track] never raises; for an index inside the list it
    removes the track at that position and keeps the others in order,
    and for any other index, negative ones included, it changes
    nothing. *)
Theorem Playlist_remove_track_spec (self : Playlist) (index : Z) :
  (0 <= index < Z.of_nat (length (tracks self)) ->
   Playlist_remove_track self index =
     Ok (mkPlaylist (name self)
           (take (Z.to_nat index) (tracks self)
            ++ drop (S (Z.to_nat index)) (tracks self)))) /\
  (~ (0 <= index < Z.of_nat (length (tracks self))) ->
   Playlist_remove_track self index = Ok self).
Proof.
  unfold Playlist_remove_track. split; intros H.
  - destruct (Z.leb_spec 0 index); [|lia].
    destruct (Z.ltb_spec index (Z.of_nat (length (tracks self)))); [|lia].
    cbn [andb]. destruct (pop_in_range (tracks self) index H) as (x & _ & ->).
    reflexivity.
  - destruct (Z.leb_spec 0 index); [|reflexivity].
    destruct (Z.ltb_spec index (Z.of_nat (length (tracks self)))); [lia|].
    reflexivity.
Qed.

Lemma Playlist_remove_track_spec_witness :
  Playlist_remove_track (mkPlaylist (VStr "p") [track_a; track_b; track_c]) 1
    = Ok (mkPlaylist (VStr "p") [track_a; track_c]) /\
  Playlist_remove_track (mkPlaylist (VStr "p") [track_a; track_b; track_c]) (-1)
    = Ok (mkPlaylist (VStr "p") [track_a; track_b; track_c]).
Proof.
  split.
  - apply (proj1 (Playlist_remove_track_spec
                    (mkPlaylist (VStr "p") [track_a; track_b; track_c]) 1)).
    simpl. lia.
  - apply (proj2 (Playlist_remove_track_spec
                    (mkPlaylist (VStr "p") [track_a; track_b; track_c]) (-1))).
    simpl. lia.
Defined.

(** ** The embed-page scrape *)

(** C10: whatever the page contains, and whether or not the request
    succeeds, the fallback scrape returns at most 50 entries. *)
Theorem embed_scrape_at_most_50 (env : Env) (playlist_id : string) :
  (length (_get_spotify_tracks_embed env playlist_id) <= 50)%nat.
Proof.
  unfold _get_spotify_tracks_embed.
  destruct (if requests env then _ else _) as [text|e]; simpl.
  - rewrite length_take. lia.
  - lia.
Qed.
(** With 60 different matches on the page, all 60 survive the removal of
    duplicates and exactly the first 50 are returned. *)
Lemma embed_scrape_truncates :
  length (unique_from ∅ sixty_matches) = 60%nat /\
  _get_spotify_tracks_embed env_many "p" = take 50 sixty_matches.
Proof. split; vm_compute; reflexivity. Qed.

(** ** Reasoning about computations *)

Lemma preserves_ret {X A} (f : App -> X) (a : A) : preserves f (ret a).
Proof. by intros s. Qed.

Lemma preserves_lift {X A} (f : App -> X) (r : result A) : preserves f (lift r).
Proof. by intros s. Qed.

Lemma preserves_gets {X A} (f : App -> X) (g : App -> A) : preserves f (gets g).
Proof. by intros s. Qed.

Lemma preserves_modify {X} (f : App -> X) (g : App -> App) :
  (forall s, f (g s) = f s) -> preserves f (modify g).
Proof. intros H s. apply H. Qed.

Lemma preserves_bind {X A B} (f : App -> X) (m : M A) (k : A -> M B) :
  preserves f m -> (forall a, preserves f (k a)) -> preserves f (bind m k).
Proof.
  intros Hm Hk s. unfold bind. specialize (Hm s).
  destruct (m s) as [[a|e] s']; simpl in *.
  - by rewrite Hk.
  - done.
Qed.

Lemma preserves_try_except {X A} (f : App -> X) (m : M A) (h : exn -> M A) :
  preserves f m -> (forall e, preserves f (h e)) -> preserves f (try_except m h).
Proof.
  intros Hm Hh s. unfold try_except. specialize (Hm s).
  destruct (m s) as [[a|e] s']; simpl in *.
  - done.
  - by rewrite Hh.
Qed.

Lemma preserves_for_each {X A} (f : App -> X) (l : list A) (body : A -> M unit) :
  (forall x, preserves f (body x)) -> preserves f (for_each l body).
Proof.
  intros H. induction l as [|x l IH]; simpl.
  - apply preserves_ret.
  - apply preserves_bind; auto.
Qed.

Create HintDb preserves.
#[local] Hint Resolve preserves_ret preserves_lift preserves_gets preserves_bind
  preserves_try_except preserves_for_each : preserves.
#[local] Hint Extern 1 (preserves _ pass) => apply preserves_ret : preserves.
#[local] Hint Extern 1 (preserves _ (modify _)) =>
  apply preserves_modify; intros ?; reflexivity : preserves.
#[local] Hint Extern 2 (preserves _ (if ?b then _ else _)) => destruct b : preserves.
#[local] Hint Extern 2 (preserves _ (match ?x with _ => _ end)) => destruct x : preserves.

Lemma randbelow_preserves {X} (f : App -> X) (n : Z) :
  (forall g s, f (set_rng g s) = f s) -> preserves f (randbelow n).
Proof. intros H s. apply H. Qed.

Lemma shuffle_loop_preserves {X} (f : App -> X) (i : nat) (x : list Z) :
  (forall g s, f (set_rng g s) = f s) -> preserves f (shuffle_loop i x).
Proof.
  intros H. revert x. induction i as [|i IH]; intros x; simpl.
  - apply preserves_ret.
  - apply preserves_bind; [by apply randbelow_preserves|intros j].
    apply preserves_bind; [apply preserves_lift|intros x']. apply IH.
Qed.

Lemma generate_shuffle_queue_preserves_heap : preserves heap generate_shuffle_queue.
Proof.
  unfold generate_shuffle_queue, deref, random_shuffle.
  apply preserves_bind; [apply preserves_gets|intros [r|]]; [|apply preserves_ret].
  eauto 20 using shuffle_loop_preserves with preserves.
Qed.

Lemma load_playlist_preserves_heap (r : ref) : preserves heap (load_playlist r).
Proof.
  unfold load_playlist, deref, insert_row.
  eauto 20 using generate_shuffle_queue_preserves_heap with preserves.
Qed.

Lemma save_data_preserves_heap : preserves heap save_data.
Proof. unfold save_data, show. eauto 10 with preserves. Qed.

(** ** Adding a track by URL *)

Lemma tk_callback_ok (m : M unit) (s : App) : fst (tk_callback m s) = Ok tt.
Proof.
  unfold tk_callback, try_except. by destruct (m s) as [[[]|e] s'].
Qed.

Lemma tk_callback_run (m : M unit) (s : App) :
  tk_callback m s = (Ok tt, snd (tk_callback m s)).
Proof.
  pose proof (tk_callback_ok m s) as H.
  destruct (tk_callback m s) as [r s']; simpl in *. by subst.
Qed.

Lemma tk_callback_preserves {X} (f : App -> X) (m : M unit) :
  preserves f m -> preserves f (tk_callback m).
Proof. intros H. unfold tk_callback. eauto with preserves. Qed.

Lemma example_url_stripped : strip example_url = example_url.
Proof. reflexivity. Qed.

Lemma example_url_host : contains "youtube.com" example_url = true.
Proof. reflexivity. Qed.

Lemma example_url_has_query : contains "?" example_url = true.
Proof. reflexivity. Qed.

Lemma example_url_cut :
  fst (split "?"%char example_url) = "https://youtube.com/watch".
Proof. reflexivity. Qed.

(** The URL of the example is cut at its first question mark before the
    lookup.  When the lookup of the cut URL succeeds, the track appended
    to the current playlist has that cut URL, without the video id; the
    title and id come from the lookup and the start time is 0. *)
Lemma add_from_url_lookup_ok (env : Env) (s : App) (r : ref) (info : dict value) :
  yt_dlp env = true ->
  extract_info env "https://youtube.com/watch" = Ok (VDict info) ->
  current_playlist s = Some r ->
  url_entry s = example_url ->
  exists s',
    add_from_url env s = (Ok tt, s') /\
    tracks (heap s' r) =
      tracks (heap s r)
      ++ [mkTrack (default (VStr "Sem título") (dict_get "title" info))
            (VStr "https://youtube.com/watch")
            (default (VStr "") (dict_get "id" info))
            (VInt 0)].
Proof.
  intros Hyt Hinfo Hcp Hurl.
  unfold add_from_url, bind, gets. rewrite Hcp, Hurl, example_url_stripped.
  change (String.eqb example_url "") with false. cbv iota.
  rewrite example_url_host. cbn [negb andb].
  unfold _add_url_thread, try_except, bind.
  rewrite Hyt, example_url_has_query, example_url_cut. cbn [negb].
  unfold lift. rewrite Hinfo. cbn [get].
  unfold the_current_playlist. rewrite Hcp.
  unfold deref, gets, store, modify.
  set (tr := mkTrack _ _ _ _).
  set (s1 := set_heap _ s).
  rewrite (tk_callback_run (load_playlist r) s1).
  set (s2 := snd (tk_callback (load_playlist r) s1)).
  rewrite (tk_callback_run save_data s2).
  set (s3 := snd (tk_callback save_data s2)).
  rewrite (tk_callback_run _ s3).
  eexists. split; [reflexivity|].
  rewrite (tk_callback_preserves heap) by (apply preserves_modify; reflexivity).
  subst s3. rewrite (tk_callback_preserves heap) by apply save_data_preserves_heap.
  subst s2. rewrite (tk_callback_preserves heap) by apply load_playlist_preserves_heap.
  subst s1. simpl. unfold upd. rewrite Nat.eqb_refl. reflexivity.
Qed.

(** When the lookup of the cleaned URL raises, nothing is stored and the
    error is shown. *)
Lemma add_from_url_lookup_fails (env : Env) (s : App) (r : ref) (e : exn) :
  yt_dlp env = true ->
  extract_info env "https://youtube.com/watch" = Raise e ->
  current_playlist s = Some r ->
  url_entry s = example_url ->
  add_from_url env s
  = (Ok tt, set_dialogs (dialogs s ++ [showerror (AddUrlFailed e)]) s).
Proof.
  intros Hyt Hinfo Hcp Hurl.
  unfold add_from_url, bind, gets. rewrite Hcp, Hurl, example_url_stripped.
  change (String.eqb example_url "") with false. cbv iota.
  rewrite example_url_host. cbn [negb andb].
  unfold _add_url_thread, try_except, bind.
  rewrite Hyt, example_url_has_query, example_url_cut. cbn [negb].
  unfold lift. rewrite Hinfo. reflexivity.
Qed.

(** When the lookup answers something that is not a dictionary, or
    [yt_dlp] is missing, nothing is stored either. *)
Lemma add_from_url_lookup_odd (env : Env) (s : App) (r : ref) (v : value) :
  yt_dlp env = true ->
  extract_info env "https://youtube.com/watch" = Ok v ->
  (forall d, v <> VDict d) ->
  current_playlist s = Some r ->
  url_entry s = example_url ->
  add_from_url env s
  = (Ok tt, set_dialogs (dialogs s ++ [showerror (AddUrlFailed AttributeError)]) s).
Proof.
  intros Hyt Hinfo Hv Hcp Hurl.
  unfold add_from_url, bind, gets. rewrite Hcp, Hurl, example_url_stripped.
  change (String.eqb example_url "") with false. cbv iota.
  rewrite example_url_host. cbn [negb andb].
  unfold _add_url_thread, try_except, bind.
  rewrite Hyt, example_url_has_query, example_url_cut. cbn [negb].
  unfold lift. rewrite Hinfo.
  destruct v as [ | b | z | t | l | d]; try reflexivity. by destruct (Hv d).
Qed.

Lemma add_from_url_no_yt_dlp (env : Env) (s : App) (r : ref) :
  yt_dlp env = false ->
  current_playlist s = Some r ->
  url_entry s = example_url ->
  add_from_url env s
  = (Ok tt, set_dialogs (dialogs s ++ [showerror YtDlpMissing]) s).
Proof.
  intros Hyt Hcp Hurl.
  unfold add_from_url, bind, gets. rewrite Hcp, Hurl, example_url_stripped.
  change (String.eqb example_url "") with false. cbv iota.
  rewrite example_url_host. cbn [negb andb].
  unfold _add_url_thread, try_except. rewrite Hyt. reflexivity.
Qed.

(** C1: the code does not do what the claim says.  Given the URL of the
    example, with a playlist selected, [add_from_url] cuts the text at its
    first question mark, so what it looks up and stores is
    [https://youtube.com/watch]: the video id [v=abc123] is removed with
    the rest.  When the lookup of that address raises, nothing is stored
    and the error is shown; when it succeeds, the track stored has the
    address without the id.  Whatever the lookup answers, every track of
    the playlist afterwards was there before or has the url
    [https://youtube.com/watch]: none is added with the url
    [https://youtube.com/watch?v=abc123]. *)
Theorem add_from_url_example_drops_id (env : Env) (s : App) (r : ref) :
  current_playlist s = Some r ->
  url_entry s = example_url ->
  (forall e,
     yt_dlp env = true ->
     extract_info env "https://youtube.com/watch" = Raise e ->
     add_from_url env s
     = (Ok tt, set_dialogs (dialogs s ++ [showerror (AddUrlFailed e)]) s)) /\
  (forall info,
     yt_dlp env = true ->
     extract_info env "https://youtube.com/watch" = Ok (VDict info) ->
     tracks (heap (snd (add_from_url env s)) r) =
       tracks (heap s r)
       ++ [mkTrack (default (VStr "Sem título") (dict_get "title" info))
             (VStr "https://youtube.com/watch")
             (default (VStr "") (dict_get "id" info))
             (VInt 0)]) /\
  (forall tr,
     tr ∈ tracks (heap (snd (add_from_url env s)) r) ->
     tr ∈ tracks (heap s r) \/ url tr = VStr "https://youtube.com/watch").
Proof.
  intros Hcp Hurl.
  assert (Hok : forall info,
            yt_dlp env = true ->
            extract_info env "https://youtube.com/watch" = Ok (VDict info) ->
            tracks (heap (snd (add_from_url env s)) r) =
              tracks (heap s r)
              ++ [mkTrack (default (VStr "Sem título") (dict_get "title" info))
                    (VStr "https://youtube.com/watch")
                    (default (VStr "") (dict_get "id" info))
                    (VInt 0)]).
  { intros info Hyt Hinfo.
    destruct (add_from_url_lookup_ok env s r info Hyt Hinfo Hcp Hurl)
      as (s' & -> & Htr). exact Htr. }
  split; [|split; [exact Hok|]].
  - intros e Hyt He. by apply (add_from_url_lookup_fails env s r e).
  - intros tr Hin. destruct (yt_dlp env) eqn:Hyt.
    2:{ rewrite (add_from_url_no_yt_dlp env s r Hyt Hcp Hurl) in Hin. by left. }
    destruct (extract_info env "https://youtube.com/watch") as [v|e] eqn:Hinfo.
    2:{ rewrite (add_from_url_lookup_fails env s r e Hyt Hinfo Hcp Hurl) in Hin.
        by left. }
    destruct v as [ | b | z | t | l | info].
    6:{ rewrite (Hok info eq_refl eq_refl) in Hin.
        apply elem_of_app in Hin as [Hin|Hin]; [by left|].
        apply list_elem_of_singleton in Hin. subst tr. by right. }
    all: rewrite (add_from_url_lookup_odd env s r _ Hyt Hinfo ltac:(done) Hcp Hurl)
           in Hin; by left.
Qed.

Lemma add_from_url_example_drops_id_witness :
  add_from_url env_needs_id (set_url_entry example_url (loaded [] (fun _ => O)))
  = (Ok tt,
     set_dialogs
       (dialogs (set_url_entry example_url (loaded [] (fun _ => O)))
        ++ [showerror (AddUrlFailed LibraryError)])
       (set_url_entry example_url (loaded [] (fun _ => O)))) /\
  tracks (heap (snd (add_from_url env_ok
                       (set_url_entry example_url (loaded [] (fun _ => O))))) O)
  = tracks (heap (set_url_entry example_url (loaded [] (fun _ => O))) O)
    ++ [mkTrack (VStr "Song") (VStr "https://youtube.com/watch")
          (VStr "abc123") (VInt 0)].
Proof.
  split.
  - apply (proj1 (add_from_url_example_drops_id env_needs_id
                    (set_url_entry example_url (loaded [] (fun _ => O))) O
                    eq_refl eq_refl) LibraryError); reflexivity.
  - apply (proj1 (proj2 (add_from_url_example_drops_id env_ok
                    (set_url_entry example_url (loaded [] (fun _ => O))) O
                    eq_refl eq_refl))
             [("title", VStr "Song"); ("id", VStr "abc123")]); reflexivity.
Defined.

(** ** Shuffle *)

Lemma getitem_in_range {A} (l : list A) (i : Z) :
  0 <= i < Z.of_nat (length l) ->
  exists x, l !! Z.to_nat i = Some x /\ getitem l i = Ok x.
Proof.
  intros H. unfold getitem. rewrite norm_index_in_range by done.
  destruct (lookup_lt_is_Some_2 l (Z.to_nat i)) as [x Hx]; [lia|].
  exists x. by rewrite Hx.
Qed.

Lemma setitem_in_range {A} (l : list A) (i : Z) (x : A) :
  0 <= i < Z.of_nat (length l) -> setitem l i x = Ok (<[Z.to_nat i:=x]> l).
Proof. intros H. unfold setitem. by rewrite norm_index_in_range. Qed.

(** Exchanging two positions of a list, read through list lookup. *)
Lemma swap_in_range {A} (l : list A) (i j : Z) :
  0 <= i < Z.of_nat (length l) ->
  0 <= j < Z.of_nat (length l) ->
  exists a b,
    l !! Z.to_nat i = Some a /\ l !! Z.to_nat j = Some b /\
    swap l i j = Ok (<[Z.to_nat j:=a]> (<[Z.to_nat i:=b]> l)).
Proof.
  intros Hi Hj. unfold swap.
  destruct (getitem_in_range l i Hi) as (a & Ha & ->).
  destruct (getitem_in_range l j Hj) as (b & Hb & ->).
  exists a, b. repeat split; try done. cbn [rbind].
  rewrite setitem_in_range by done. cbn [rbind].
  rewrite setitem_in_range by (rewrite length_insert; done). done.
Qed.

Lemma insert_insert_swap_perm {A} (l : list A) (i j : nat) (a b : A) :
  l !! i = Some a -> l !! j = Some b ->
  <[j:=a]> (<[i:=b]> l) ≡ₚ l.
Proof.
  intros Ha Hb.
  pose proof (lookup_lt_Some _ _ _ Ha) as Hi.
  pose proof (lookup_lt_Some _ _ _ Hb) as Hj.
  apply Permutation_inj. split; [by rewrite !length_insert|].
  exists (fun k => if decide (k = i) then j else if decide (k = j) then i else k).
  split.
  - intros k1 k2. repeat destruct (decide _); lia.
  - intros k. rewrite !list_lookup_insert, !length_insert.
    repeat destruct (decide _); try done; try lia; destruct_and?; congruence.
Qed.

Lemma swap_perm {A} (l : list A) (i j : Z) :
  0 <= i < Z.of_nat (length l) ->
  0 <= j < Z.of_nat (length l) ->
  exists l', swap l i j = Ok l' /\ l' ≡ₚ l.
Proof.
  intros Hi Hj. destruct (swap_in_range l i j Hi Hj) as (a & b & Ha & Hb & ->).
  eexists. split; [done|]. by apply insert_insert_swap_perm.
Qed.

Lemma set_rng_id (s : App) : set_rng (rng s) s = s.
Proof. by destruct s. Qed.

(** The loop of [random.shuffle] never raises, only consumes draws, and
    returns a rearrangement of its argument. *)
Lemma shuffle_loop_ok (i : nat) (x : list Z) (s : App) :
  (i < length x)%nat ->
  exists x' g, shuffle_loop i x s = (Ok x', set_rng g s) /\ x' ≡ₚ x.
Proof.
  revert x s. induction i as [|i IH]; intros x s Hi.
  - exists x, (rng s). by rewrite set_rng_id.
  - cbn [shuffle_loop]. unfold bind at 1. unfold randbelow at 1.
    set (j := Z.of_nat (rng s O) mod (Z.of_nat (S i) + 1)).
    assert (0 <= j < Z.of_nat (S i) + 1) as Hj by (apply Z.mod_pos_bound; lia).
    destruct (swap_perm x (Z.of_nat (S i)) j) as (x1 & Hswap & Hperm); [lia..|].
    unfold bind at 1. unfold lift at 1. rewrite Hswap.
    destruct (IH x1 (set_rng (fun k => rng s (S k)) s)) as (x' & g & Hrun & Hperm').
    { rewrite (Permutation_length Hperm). lia. }
    exists x', g. split; [exact Hrun|]. by rewrite Hperm'.
Qed.

Lemma random_shuffle_ok (x : list Z) (s : App) :
  exists x' g, random_shuffle x s = (Ok x', set_rng g s) /\ x' ≡ₚ x.
Proof.
  unfold random_shuffle. destruct x as [|z x].
  - exists [], (rng s). by rewrite set_rng_id.
  - apply shuffle_loop_ok. simpl. lia.
Qed.

Lemma generate_shuffle_queue_ok (s : App) (r : ref) :
  current_playlist s = Some r ->
  exists q g,
    generate_shuffle_queue s
      = (Ok tt, set_current_track_index 0 (set_shuffle_queue q (set_rng g s))) /\
    q ≡ₚ range (length (tracks (heap s r))).
Proof.
  intros Hcp. unfold generate_shuffle_queue. run. rewrite Hcp.
  set (s1 := set_shuffle_queue _ s).
  destruct (random_shuffle_ok (shuffle_queue s1) s1) as (q & g & -> & Hq).
  exists q, g. split; [reflexivity|exact Hq].
Qed.

Lemma NoDup_range (n : nat) : NoDup (range n).
Proof. unfold range. apply (NoDup_fmap_2 _), NoDup_seq. Qed.

Lemma elem_of_range (n : nat) (i : Z) : i ∈ range n <-> 0 <= i < Z.of_nat n.
Proof.
  unfold range. rewrite list_elem_of_fmap. split.
  - intros (k & -> & Hk%elem_of_seq). lia.
  - intros H. exists (Z.to_nat i). split; [lia|]. apply elem_of_seq. lia.
Qed.

(** C4: whenever shuffle is turned on with a playlist loaded, the new
    shuffle queue is a permutation of the indices [0 .. n-1] of its
    tracks, so every index occurs in it exactly once, and the play
    cursor is back at position 0. *)
Theorem toggle_shuffle_on (s : App) (r : ref) :
  shuffle_var s = true ->
  current_playlist s = Some r ->
  exists s',
    toggle_shuffle s = (Ok tt, s') /\
    shuffle_mode s' = true /\
    heap s' = heap s /\
    current_playlist s' = Some r /\
    shuffle_queue s' ≡ₚ range (length (tracks (heap s r))) /\
    NoDup (shuffle_queue s') /\
    (forall i, i ∈ shuffle_queue s' <-> 0 <= i < Z.of_nat (length (tracks (heap s r)))) /\
    current_track_index s' = 0.
Proof.
  intros Hvar Hcp. unfold toggle_shuffle. run.
  rewrite Hvar. cbn [current_playlist set_shuffle_mode]. rewrite Hcp.
  rewrite bool_decide_eq_true_2 by done. cbn [andb].
  destruct (generate_shuffle_queue_ok (set_shuffle_mode true s) r Hcp)
    as (q & g & -> & Hq).
  cbn [heap set_shuffle_mode] in Hq.
  eexists. split; [reflexivity|]. cbn.
  split; [done|]. split; [done|]. split; [done|]. split; [done|].
  split; [rewrite Hq; apply NoDup_range|].
  split; [|done].
  intros i. rewrite Hq. apply elem_of_range.
Qed.

Lemma toggle_shuffle_on_witness :
  exists s',
    toggle_shuffle (set_shuffle_var true (loaded [track_a; track_b; track_c] draws_201))
      = (Ok tt, s') /\
    shuffle_mode s' = true /\
    heap s' = heap (set_shuffle_var true (loaded [track_a; track_b; track_c] draws_201)) /\
    current_playlist s' = Some O /\
    shuffle_queue s' ≡ₚ [0; 1; 2] /\
    NoDup (shuffle_queue s') /\
    (forall i, i ∈ shuffle_queue s' <-> 0 <= i < 3) /\
    current_track_index s' = 0.
Proof.
  apply (toggle_shuffle_on
           (set_shuffle_var true (loaded [track_a; track_b; track_c] draws_201)) O);
    reflexivity.
Defined.

(** C3, amended: turning shuffle off only clears the shuffle flag.  The
    queue and [current_track_index] keep their values, and the index,
    which was a position in the queue, is from then on the playlist
    index that is played; nothing replaces it by the real index of the
    track that was playing. *)
Theorem toggle_shuffle_off (s : App) :
  shuffle_var s = false ->
  exists s',
    toggle_shuffle s = (Ok tt, s') /\
    s' = set_shuffle_mode false s /\
    current_track_index s' = current_track_index s /\
    shuffle_queue s' = shuffle_queue s /\
    actual_index s' = Ok (current_track_index s).
Proof.
  intros Hvar. unfold toggle_shuffle. run. rewrite Hvar. cbn [andb].
  eexists. split; [reflexivity|]. done.
Qed.

Lemma toggle_shuffle_off_witness :
  exists s',
    toggle_shuffle (set_shuffle_var false shuffled) = (Ok tt, s') /\
    s' = set_shuffle_mode false (set_shuffle_var false shuffled) /\
    current_track_index s' = current_track_index (set_shuffle_var false shuffled) /\
    shuffle_queue s' = shuffle_queue (set_shuffle_var false shuffled) /\
    actual_index s' = Ok (current_track_index (set_shuffle_var false shuffled)).
Proof. apply (toggle_shuffle_off (set_shuffle_var false shuffled)). reflexivity. Defined.

(** C3 as stated fails: with three tracks and the queue [2; 0; 1], the
    cursor at position 0 plays the track of real index 2; after shuffle
    is switched off [current_track_index] is still 0, not 2. *)
Lemma shuffle_off_keeps_cursor :
  shuffle_mode shuffled = true /\
  shuffle_queue shuffled = [2; 0; 1] /\
  current_track_index shuffled = 0 /\
  actual_index shuffled = Ok 2 /\
  fst (click_shuffle shuffled) = Ok tt /\
  shuffle_mode (snd (click_shuffle shuffled)) = false /\
  current_track_index (snd (click_shuffle shuffled)) = 0 /\
  current_track_index (snd (click_shuffle shuffled)) <> 2.
Proof. vm_compute. repeat split; discriminate. Qed.

(** ** Next track *)

Lemma unselected_fresh (rows : list row) : unselected (map (fun x => (x, false)) rows).
Proof. unfold unselected. rewrite Forall_fmap. by apply Forall_true. Qed.

Lemma unselected_cleared (lb : list (row * bool)) :
  unselected (map (fun '(r, _) => (r, false)) lb).
Proof. unfold unselected. rewrite Forall_fmap. apply Forall_true. by intros [r b]. Qed.

Lemma selected_from_unselected (i : nat) (lb : list (row * bool)) :
  unselected lb -> selected_from i lb = [].
Proof.
  intros H. revert i. induction H as [|[r b] lb Hb _ IH]; intros i; [done|].
  simpl in *. subst b. apply IH.
Qed.

Lemma selected_from_alter (i k : nat) (lb : list (row * bool)) :
  unselected lb ->
  selected_from i (alter (fun '(r, _) => (r, true)) k lb)
  = if decide (k < length lb)%nat then [Z.of_nat (i + k)] else [].
Proof.
  intros H. revert i k. induction H as [|[r b] lb Hb Hlb IH]; intros i k.
  - rewrite decide_False by (simpl; lia). by destruct k.
  - simpl in Hb. subst b. destruct k as [|k].
    + rewrite decide_True by (simpl; lia). cbn.
      by rewrite selected_from_unselected, Nat.add_0_r.
    + cbn. change (list_alter ?f k ?l) with (alter f k l). rewrite IH.
      destruct (decide (k < length lb)%nat).
      * rewrite decide_True by lia. do 2 f_equal. lia.
      * rewrite decide_False by lia. done.
Qed.

(** In sequential mode [next_track] moves the index one step forward,
    modulo the length of the playlist. *)
Lemma next_track_sequential (s : App) (r : ref) :
  shuffle_mode s = false ->
  current_playlist s = Some r ->
  tracks (heap s r) <> [] ->
  exists s',
    next_track s = (Ok tt, s') /\
    heap s' = heap s /\
    current_track_index s' =
      (current_track_index s + 1) mod Z.of_nat (length (tracks (heap s r))).
Proof.
  intros Hsm Hcp Hne. unfold next_track, play_track, nothing_to_play. run.
  rewrite Hcp, bool_decide_eq_false_2 by done. cbv beta iota.
  rewrite Hcp, Hsm. unfold mod_.
  destruct (Z.eqb_spec (Z.of_nat (length (tracks (heap s r)))) 0) as [E|E].
  { destruct (tracks (heap s r)); [done|simpl in E; lia]. }
  set (i := (current_track_index s + 1) mod _).
  assert (0 <= i) as Hi by (apply Z.mod_pos_bound; lia).
  destruct (Z.leb_spec 0 i); [|lia]. cbn.
  rewrite Hcp, bool_decide_eq_false_2 by done.
  cbn [tracks_list set_tracks_list].
  rewrite selected_from_alter by apply unselected_cleared.
  destruct (decide _); eexists; (split; [reflexivity|]); cbn; split; try done.
  lia.
Qed.

Lemma next_track_sequential_wraps :
  fst (next_track (set_current_track_index 2
                     (loaded [track_a; track_b; track_c] draws_201))) = Ok tt /\
  current_track_index
    (snd (next_track (set_current_track_index 2
                        (loaded [track_a; track_b; track_c] draws_201)))) = 0.
Proof. by vm_compute. Qed.

(** In shuffle mode, with the list box showing the playlist,
    [next_track] leaves in [current_track_index] the real index found
    in the queue at the advanced position, not that position. *)
Lemma next_track_shuffle (s : App) (r : ref) (a : Z) :
  shuffle_mode s = true ->
  current_playlist s = Some r ->
  tracks (heap s r) <> [] ->
  shuffle_queue s <> [] ->
  getitem (shuffle_queue s)
    ((current_track_index s + 1) mod Z.of_nat (length (shuffle_queue s))) = Ok a ->
  0 <= a < Z.of_nat (length (tracks_list s)) ->
  exists s',
    next_track s = (Ok tt, s') /\
    heap s' = heap s /\
    shuffle_queue s' = shuffle_queue s /\
    current_track_index s' = a.
Proof.
  intros Hsm Hcp Hne Hq Hget Ha. unfold next_track, play_track, nothing_to_play. run.
  rewrite Hcp, bool_decide_eq_false_2 by done. cbv beta iota.
  rewrite Hcp, Hsm. unfold mod_.
  destruct (Z.eqb_spec (Z.of_nat (length (shuffle_queue s))) 0) as [E|E].
  { destruct (shuffle_queue s); [done|simpl in E; lia]. }
  rewrite Hget.
  destruct (Z.leb_spec 0 a); [|lia]. cbn.
  rewrite Hcp, bool_decide_eq_false_2 by done.
  cbn [tracks_list set_tracks_list].
  rewrite selected_from_alter by apply unselected_cleared.
  rewrite length_map, decide_True by lia.
  eexists. split; [reflexivity|]. cbn. split; [done|]. split; [done|]. lia.
Qed.

(** C5 fails on the code when shuffle is on.  With three tracks, the
    queue [2; 0; 1] and the cursor at position 0, [next_track] first
    sets the index to (0 + 1) mod 3 = 1 and selects the row of the real
    index, queue[1] = 0; [play_track] then reads the index back from
    the selection, so the index ends at 0 instead of 1, and the track
    played is queue[0] = 2 again. *)
Theorem next_track_shuffle_example :
  shuffle_mode shuffled = true /\
  shuffle_queue shuffled = [2; 0; 1] /\
  current_track_index shuffled = 0 /\
  fst (next_track shuffled) = Ok tt /\
  current_track_index (snd (next_track shuffled)) = 0 /\
  (current_track_index shuffled + 1) mod Z.of_nat (length (shuffle_queue shuffled)) = 1 /\
  actual_index (snd (next_track shuffled)) = Ok 2.
Proof. by vm_compute. Qed.

(** ** Loading a playlist into the list box *)

Lemma set_tracks_list_id (s : App) : set_tracks_list (tracks_list s) s = s.
Proof. by destruct s. Qed.

(** The loop of [load_playlist] appends one unselected row per track,
    when every start time can be compared with 0. *)
Lemma load_rows (ts : list Track) (s : App) :
  Forall int_start ts ->
  exists rows,
    for_each ts insert_row s
    = (Ok tt, set_tracks_list (tracks_list s ++ map (fun x => (x, false)) rows) s) /\
    length rows = length ts.
Proof.
  intros H. revert s. induction H as [|t ts [z Hz] _ IH]; intros s.
  - exists []. simpl. by rewrite app_nil_r, set_tracks_list_id.
  - cbn [for_each]. unfold bind at 1. unfold insert_row at 1.
    unfold bind at 1. unfold lift at 1.
    rewrite Hz. cbn [gt0]. unfold modify at 1.
    set (rw := mkRow _ _).
    destruct (IH (set_tracks_list (tracks_list s ++ [(rw, false)]) s))
      as (rows & -> & Hlen).
    exists (rw :: rows). split; [|simpl; lia].
    cbn [tracks_list set_tracks_list]. rewrite <- app_assoc. reflexivity.
Qed.

Lemma load_playlist_ok (r : ref) (s : App) :
  Forall int_start (tracks (heap s r)) ->
  exists rows q g i,
    load_playlist r s
    = (Ok tt,
       set_current_track_index i (set_shuffle_queue q (set_rng g
         (set_tracks_list (map (fun x => (x, false)) rows)
            (set_current_playlist (Some r) s))))) /\
    length rows = length (tracks (heap s r)).
Proof.
  intros H. unfold load_playlist.
  unfold bind at 1. unfold modify at 1.
  unfold bind at 1. unfold modify at 1.
  unfold bind at 1. unfold deref at 1. unfold gets at 1.
  cbn [heap set_tracks_list set_current_playlist].
  unfold bind at 1.
  match goal with |- context [for_each _ _ ?s0] => set (s1 := s0) end.
  destruct (load_rows (tracks (heap s r)) s1 H) as (rows & -> & Hlen).
  subst s1. unfold bind at 1. unfold gets at 1.
  cbn [tracks_list shuffle_mode set_tracks_list set_current_playlist app].
  destruct (shuffle_mode s) eqn:Hsm.
  - match goal with |- context [generate_shuffle_queue ?s0] => set (s2 := s0) end.
    destruct (generate_shuffle_queue_ok s2 r eq_refl) as (q & g & -> & _).
    exists rows, q, g, 0. split; [reflexivity|done].
  - exists rows, (shuffle_queue s), (rng s), (current_track_index s).
    split; [|done]. unfold pass, ret. by destruct s.
Qed.

(** ** Moving a track *)

Lemma save_data_run (s : App) :
  exists f, save_data s = (Ok tt, set_data_file f s).
Proof. unfold save_data. run. eexists. reflexivity. Qed.

(** A swap of two neighbours inside the current playlist, followed by
    what [move_track_up] and [move_track_down] do after it: the list box
    is reloaded, the row [k] is selected and the library is saved. *)
Lemma reload_select_save (s : App) (r : ref) (k : Z) :
  Forall int_start (tracks (heap s r)) ->
  0 <= k < Z.of_nat (length (tracks (heap s r))) ->
  exists s',
    (load_playlist r;; selection_set k;; save_data) s = (Ok tt, s') /\
    heap s' = heap s /\
    current_playlist s' = Some r /\
    selected_from 0 (tracks_list s') = [k].
Proof.
  intros Hty Hk.
  destruct (load_playlist_ok r s Hty) as (rows & q & g & i & Hload & Hlen).
  unfold bind at 1. rewrite Hload.
  unfold bind at 1. unfold selection_set, modify.
  destruct (Z.leb_spec 0 k); [|lia].
  match goal with |- context [save_data ?s0] => destruct (save_data_run s0) as [f ->] end.
  eexists. split; [reflexivity|]. cbn.
  split; [done|]. split; [done|].
  rewrite selected_from_alter by apply unselected_fresh.
  rewrite length_map, decide_True by lia. f_equal. lia.
Qed.

Lemma move_track_down_first (s : App) (r : ref) (a b : Track) (ts : list Track)
    (sel : list Z) :
  current_playlist s = Some r ->
  tracks (heap s r) = a :: b :: ts ->
  Forall int_start (a :: b :: ts) ->
  selected_from 0 (tracks_list s) = 0 :: sel ->
  exists s1,
    move_track_down s = (Ok tt, s1) /\
    current_playlist s1 = Some r /\
    name (heap s1 r) = name (heap s r) /\
    tracks (heap s1 r) = b :: a :: ts /\
    selected_from 0 (tracks_list s1) = [1].
Proof.
  intros Hcp Htr Hty Hsel. unfold move_track_down.
  unfold bind at 1. unfold curselection at 1. unfold gets at 1. rewrite Hsel.
  unfold bind at 1. unfold the_current_playlist at 1. rewrite Hcp.
  unfold bind at 1. unfold deref at 1. unfold gets at 1. rewrite Htr.
  destruct (Z.leb_spec (Z.of_nat (length (a :: b :: ts)) - 1) 0) as [Hle|_].
  { cbn [length] in Hle. lia. }
  unfold bind at 1. unfold lift at 1.
  destruct (swap_in_range (a :: b :: ts) 0 (0 + 1)) as (x & y & Hx & Hy & ->);
    [cbn [length]; lia..|].
  simpl in Hx, Hy. simplify_eq.
  change (<[Z.to_nat (0 + 1):=?u]> (<[Z.to_nat 0:=?v]> (_ :: _ :: ts)))
    with (v :: u :: ts).
  unfold bind at 1. unfold store at 1. unfold modify at 1.
  set (s0 := set_heap _ s).
  destruct (reload_select_save s0 r (0 + 1)) as (s1 & Hrun & Hheap & Hcp1 & Hsel1).
  { subst s0. cbn. unfold upd. rewrite Nat.eqb_refl. cbn.
    inversion Hty as [|? ? Ha Hty']; inversion Hty'; subst. by repeat constructor. }
  { subst s0. cbn [heap set_heap]. unfold upd. rewrite Nat.eqb_refl.
    cbn [tracks length]. lia. }
  exists s1. split; [exact Hrun|]. rewrite Hheap. subst s0. cbn. unfold upd.
  rewrite Nat.eqb_refl. done.
Qed.

Lemma move_track_up_second (s : App) (r : ref) (a b : Track) (ts : list Track)
    (sel : list Z) :
  current_playlist s = Some r ->
  tracks (heap s r) = b :: a :: ts ->
  Forall int_start (b :: a :: ts) ->
  selected_from 0 (tracks_list s) = 1 :: sel ->
  exists s2,
    move_track_up s = (Ok tt, s2) /\
    current_playlist s2 = Some r /\
    name (heap s2 r) = name (heap s r) /\
    tracks (heap s2 r) = a :: b :: ts /\
    selected_from 0 (tracks_list s2) = [0].
Proof.
  intros Hcp Htr Hty Hsel. unfold move_track_up.
  unfold bind at 1. unfold curselection at 1. unfold gets at 1. rewrite Hsel.
  change (1 =? 0) with false. cbv iota.
  unfold bind at 1. unfold the_current_playlist at 1. rewrite Hcp.
  unfold bind at 1. unfold deref at 1. unfold gets at 1. rewrite Htr.
  unfold bind at 1. unfold lift at 1.
  destruct (swap_in_range (b :: a :: ts) 1 (1 - 1)) as (x & y & Hx & Hy & ->);
    [cbn [length]; lia..|].
  simpl in Hx, Hy. simplify_eq.
  change (<[Z.to_nat (1 - 1):=?u]> (<[Z.to_nat 1:=?v]> (_ :: _ :: ts)))
    with (u :: v :: ts).
  unfold bind at 1. unfold store at 1. unfold modify at 1.
  set (s0 := set_heap _ s).
  destruct (reload_select_save s0 r (1 - 1)) as (s1 & Hrun & Hheap & Hcp1 & Hsel1).
  { subst s0. cbn. unfold upd. rewrite Nat.eqb_refl. cbn.
    inversion Hty as [|? ? Ha Hty']; inversion Hty'; subst. by repeat constructor. }
  { subst s0. cbn [heap set_heap]. unfold upd. rewrite Nat.eqb_refl.
    cbn [tracks length]. lia. }
  exists s1. split; [exact Hrun|]. rewrite Hheap. subst s0. cbn. unfold upd.
  rewrite Nat.eqb_refl. done.
Qed.

(** C6: in a playlist of at least two tracks, with the first row
    selected, moving the track down exchanges it with the second track,
    the others staying in place and the selection following it; moving it
    up again then gives back the original order, with the first row
    selected.  And moving the last track down does nothing at all. *)
Theorem move_down_up_and_last_down (s : App) (r : ref) (sel : list Z) :
  current_playlist s = Some r ->
  (forall a b ts,
     tracks (heap s r) = a :: b :: ts ->
     Forall int_start (tracks (heap s r)) ->
     selected_from 0 (tracks_list s) = 0 :: sel ->
     exists s1 s2,
       move_track_down s = (Ok tt, s1) /\
       tracks (heap s1 r) = b :: a :: ts /\
       name (heap s1 r) = name (heap s r) /\
       selected_from 0 (tracks_list s1) = [1] /\
       move_track_up s1 = (Ok tt, s2) /\
       tracks (heap s2 r) = a :: b :: ts /\
       name (heap s2 r) = name (heap s r) /\
       selected_from 0 (tracks_list s2) = [0]) /\
  (selected_from 0 (tracks_list s)
     = (Z.of_nat (length (tracks (heap s r))) - 1) :: sel ->
   move_track_down s = (Ok tt, s)).
Proof.
  intros Hcp. split.
  - intros a b ts Htr Hty Hsel. rewrite Htr in Hty.
    destruct (move_track_down_first s r a b ts sel Hcp Htr Hty Hsel)
      as (s1 & Hdown & Hcp1 & Hname1 & Htr1 & Hsel1).
    destruct (move_track_up_second s1 r a b ts [] Hcp1 Htr1) as
      (s2 & Hup & _ & Hname2 & Htr2 & Hsel2); [|done|].
    { inversion Hty as [|? ? Ha Hty']; inversion Hty'; subst. by repeat constructor. }
    exists s1, s2. repeat (split; [done|]). split; [congruence|done].
  - intros Hsel. unfold move_track_down.
    unfold bind at 1. unfold curselection at 1. unfold gets at 1. rewrite Hsel.
    unfold bind at 1. unfold the_current_playlist at 1. rewrite Hcp.
    unfold bind at 1. unfold deref at 1. unfold gets at 1.
    rewrite Z.leb_refl. reflexivity.
Qed.

Lemma move_down_up_and_last_down_witness :
  (exists s1 s2,
     move_track_down first_selected = (Ok tt, s1) /\
     tracks (heap s1 O) = [track_b; track_a; track_c] /\
     name (heap s1 O) = name (heap first_selected O) /\
     selected_from 0 (tracks_list s1) = [1] /\
     move_track_up s1 = (Ok tt, s2) /\
     tracks (heap s2 O) = [track_a; track_b; track_c] /\
     name (heap s2 O) = name (heap first_selected O) /\
     selected_from 0 (tracks_list s2) = [0]) /\
  move_track_down last_selected = (Ok tt, last_selected).
Proof.
  split.
  - apply (proj1 (move_down_up_and_last_down first_selected O [] eq_refl)
             track_a track_b [track_c]).
    + reflexivity.
    + repeat constructor; eexists; reflexivity.
    + reflexivity.
  - apply (proj2 (move_down_up_and_last_down last_selected O [] eq_refl)).
    reflexivity.
Defined.

(** ** Creating a playlist *)

Lemma str_eq_true (s : string) (v : value) : str_eq s v = true <-> v = VStr s.
Proof.
  destruct v; simpl; try (split; [discriminate|congruence]).
  rewrite String.eqb_eq. split; congruence.
Qed.

Lemma name_taken_true (nm : string) (h : ref -> Playlist) (playlists : list ref) :
  existsb (str_eq nm) (map (fun p => name (h p)) playlists) = true
  <-> exists p, p ∈ playlists /\ name (h p) = VStr nm.
Proof.
  rewrite existsb_exists. split.
  - intros (v & Hin & Hv). apply in_map_iff in Hin as (p & <- & Hp).
    exists p. split; [by apply list_elem_of_In|by apply str_eq_true].
  - intros (p & Hp & Hn). exists (name (h p)). split.
    + apply in_map_iff. exists p. split; [done|by apply list_elem_of_In].
    + by apply str_eq_true.
Qed.

Lemma dict_get_set_eq {V} (k : string) (v : V) (d : dict V) :
  dict_get k (dict_set k v d) = Some v.
Proof.
  induction d as [|[k' v'] d IH]; simpl.
  - by rewrite String.eqb_refl.
  - destruct (String.eqb k k') eqn:E; simpl; rewrite ?String.eqb_refl, ?E; done.
Qed.

Lemma dict_get_map {V W} (f : V -> W) (k : string) (d : dict V) :
  dict_get k (map (fun '(k', v) => (k', f v)) d) = f <$> dict_get k d.
Proof.
  induction d as [|[k' v'] d IH]; simpl; [done|].
  by destruct (String.eqb k k').
Qed.

Lemma create_playlist_some_folder (s : App) (folder text : string) :
  folders s <> [] ->
  create_playlist folder text s
  = (created ← create folder text;
     if created then update_tree;; save_data else pass) s.
Proof.
  intros H. unfold create_playlist. unfold bind at 1. unfold gets at 1.
  by destruct (folders s).
Qed.

(** C7, amended: [create_playlist] works on the name with the white space
    around it removed.  It shows a warning and changes nothing when the
    library has no folder at all, when that name is empty, or when the
    folder already holds a playlist of that name.  When other folders
    exist and the folder is unknown, or is the empty string, it changes
    nothing and shows no warning.  Otherwise it appends a new empty
    playlist of that name to the folder, shows no warning, and the tree
    shows the new playlist, with 0 tracks, as the last one of the
    folder. *)
Theorem create_playlist_spec (s : App) (folder text : string) :
  (folders s = [] ->
   create_playlist folder text s = (Ok tt, warned CreateFolderFirst s)) /\
  (folders s <> [] -> strip text = "" ->
   create_playlist folder text s = (Ok tt, warned TypePlaylistName s)) /\
  (folders s <> [] -> strip text <> "" ->
   folder = "" \/ dict_get folder (folders s) = None ->
   create_playlist folder text s = (Ok tt, s)) /\
  (forall playlists,
     folders s <> [] -> strip text <> "" -> folder <> "" ->
     dict_get folder (folders s) = Some playlists ->
     (exists p, p ∈ playlists /\ name (heap s p) = VStr (strip text)) ->
     create_playlist folder text s = (Ok tt, warned PlaylistExists s)) /\
  (forall playlists,
     folders s <> [] -> strip text <> "" -> folder <> "" ->
     dict_get folder (folders s) = Some playlists ->
     (forall p, p ∈ playlists -> name (heap s p) <> VStr (strip text)) ->
     exists s',
       create_playlist folder text s = (Ok tt, s') /\
       dialogs s' = dialogs s /\
       folders s' = dict_set folder (playlists ++ [next_ref s]) (folders s) /\
       heap s' = upd (next_ref s) (mkPlaylist (VStr (strip text)) []) (heap s) /\
       exists entries,
         dict_get folder (tree s') = Some (entries ++ [(VStr (strip text), O)])).
Proof.
  split; [|split; [|split; [|split]]].
  - intros Hfs. unfold create_playlist, bind, gets. by rewrite Hfs.
  - intros Hfs Hnm. rewrite create_playlist_some_folder by done.
    unfold create. rewrite Hnm. reflexivity.
  - intros Hfs Hnm%String.eqb_neq Hfolder.
    rewrite create_playlist_some_folder by done.
    unfold create. rewrite Hnm. unfold bind, gets.
    destruct Hfolder as [->|Hget]; [reflexivity|].
    unfold dict_mem. rewrite Hget. by rewrite andb_false_r.
  - intros playlists Hfs Hnm%String.eqb_neq Hfolder%String.eqb_neq Hget Htaken.
    rewrite create_playlist_some_folder by done.
    unfold create. rewrite Hnm. unfold bind, gets. rewrite Hfolder.
    unfold dict_mem. rewrite Hget. cbn [negb andb default from_option id].
    apply name_taken_true in Htaken. rewrite Htaken. reflexivity.
  - intros playlists Hfs Hnm%String.eqb_neq Hfolder%String.eqb_neq Hget Hfree.
    rewrite create_playlist_some_folder by done.
    unfold create. rewrite Hnm.
    unfold bind at 1. unfold bind at 1. unfold gets at 1. rewrite Hfolder.
    unfold dict_mem. rewrite Hget. cbn [negb andb default from_option id].
    unfold bind at 1. unfold gets at 1.
    destruct (existsb _ _) eqn:Hex.
    { apply name_taken_true in Hex as (p & Hp & Hn). by destruct (Hfree p Hp). }
    unfold update_tree, save_data, Playlist_init, alloc. run.
    eexists. split; [reflexivity|].
    cbn [dialogs folders heap tree set_data_file set_tree set_folders
         set_next_ref set_heap].
    split; [done|]. split; [done|]. split; [done|].
    rewrite dict_get_map, dict_get_set_eq. cbn [fmap option_fmap option_map].
    rewrite map_app. cbn [map]. unfold upd at 3 4. rewrite Nat.eqb_refl.
    cbn [name tracks length]. eauto.
Qed.

Lemma create_playlist_spec_witness :
  create_playlist "A" "x" (init (fun _ => O) Absent)
    = (Ok tt, warned CreateFolderFirst (init (fun _ => O) Absent)) /\
  create_playlist "A" "  " one_folder
    = (Ok tt, warned TypePlaylistName one_folder) /\
  create_playlist "B" "x" one_folder = (Ok tt, one_folder) /\
  create_playlist "A" " x " one_playlist
    = (Ok tt, warned PlaylistExists one_playlist) /\
  (exists s',
     create_playlist "A" " x " one_folder = (Ok tt, s') /\
     dialogs s' = dialogs one_folder /\
     folders s' = dict_set "A" ([] ++ [next_ref one_folder]) (folders one_folder) /\
     heap s' = upd (next_ref one_folder) (mkPlaylist (VStr (strip " x ")) [])
                 (heap one_folder) /\
     exists entries,
       dict_get "A" (tree s') = Some (entries ++ [(VStr (strip " x "), O)])).
Proof.
  split; [|split; [|split; [|split]]].
  - apply (proj1 (create_playlist_spec (init (fun _ => O) Absent) "A" "x")).
    reflexivity.
  - apply (proj1 (proj2 (create_playlist_spec one_folder "A" "  "))).
    + vm_compute. discriminate.
    + reflexivity.
  - apply (proj1 (proj2 (proj2 (create_playlist_spec one_folder "B" "x")))).
    + vm_compute. discriminate.
    + vm_compute. discriminate.
    + right. reflexivity.
  - apply (proj1 (proj2 (proj2 (proj2
             (create_playlist_spec one_playlist "A" " x ")))) [O]).
    + vm_compute. discriminate.
    + vm_compute. discriminate.
    + discriminate.
    + reflexivity.
    + exists O. split; [apply list_elem_of_here|reflexivity].
  - apply (proj2 (proj2 (proj2 (proj2
             (create_playlist_spec one_folder "A" " x ")))) []).
    + vm_compute. discriminate.
    + vm_compute. discriminate.
    + discriminate.
    + reflexivity.
    + intros p Hp. by apply elem_of_nil in Hp.
Defined.

(** C7 as stated fails.  With the single folder ["A"], asking for a
    playlist in the unknown folder ["B"] changes nothing and shows no
    message box at all; and the name made of one space, which is not
    empty and not taken, is refused with a warning. *)
Lemma create_playlist_silent_or_blank :
  folders one_folder = [("A", [])] /\
  create_playlist "B" "x" one_folder = (Ok tt, one_folder) /\
  dialogs (snd (create_playlist "B" "x" one_folder)) = [] /\
  create_playlist "A" " " one_folder = (Ok tt, warned TypePlaylistName one_folder) /\
  folders (snd (create_playlist "A" " " one_folder)) = [("A", [])].
Proof. vm_compute. repeat split. Qed.

(** ** Saving and loading the library *)

Lemma Tracks_round_trip (ts : list Track) :
  rmap_list Track_from_dict (map Track_to_dict ts) = Ok ts.
Proof.
  induction ts as [|t ts IH]; [done|].
  cbn [map rmap_list]. by rewrite Track_round_trip, IH.
Qed.

Lemma Playlist_round_trip (p : Playlist) :
  Playlist_from_dict (Playlist_to_dict p) = Ok p.
Proof.
  destruct p as [nm ts]. unfold Playlist_from_dict, Playlist_to_dict.
  cbn [get dict_get String.eqb Ascii.eqb Bool.eqb rbind iter name tracks].
  rewrite Tracks_round_trip. cbn. by destruct ts.
Qed.

Lemma dict_set_fresh {V} (k : string) (v : V) (d : dict V) :
  k ∉ dict_keys d -> dict_set k v d = d ++ [(k, v)].
Proof.
  induction d as [|[k' v'] d IH]; intros Hk; [done|].
  cbn in Hk. apply not_elem_of_cons in Hk as [Hne Hk].
  cbn. apply String.eqb_neq in Hne. rewrite Hne. by rewrite IH.
Qed.

Lemma dict_of_items_from {V} (l : list (string * V)) (acc : dict V) :
  NoDup (map fst l) ->
  (forall k, k ∈ map fst l -> k ∉ dict_keys acc) ->
  fold_left (fun d '(k, v) => dict_set k v d) l acc = acc ++ l.
Proof.
  revert acc. induction l as [|[k v] l IH]; intros acc Hnd Hdisj.
  - by rewrite app_nil_r.
  - cbn in Hnd. apply NoDup_cons in Hnd as [Hk Hnd].
    cbn [fold_left]. rewrite dict_set_fresh by (apply Hdisj; cbn; left).
    rewrite IH; [by rewrite <- app_assoc|done|].
    intros k' Hk'. unfold dict_keys. rewrite map_app. cbn.
    rewrite elem_of_app, list_elem_of_singleton. intros [Hin | ->]; [|done].
    by apply (Hdisj k'); [right|].
Qed.

Lemma dict_of_items_wf {V} (d : dict V) : dict_wf d -> dict_of_items d = d.
Proof.
  intros H. unfold dict_of_items. rewrite dict_of_items_from; try done.
  intros k _. apply not_elem_of_nil.
Qed.

(** Reading back the playlists of one folder allocates them one after
    the other from [next_ref] on, and touches no older object. *)
Lemma map_m_alloc (pls : list Playlist) (s : App) :
  exists h,
    map_m (fun p => pl ← lift (Playlist_from_dict p); alloc pl)
      (map Playlist_to_dict pls) s
    = (Ok (seq (next_ref s) (length pls)),
       set_next_ref (next_ref s + length pls)%nat (set_heap (fun _ => h) s)) /\
    (forall r, (r < next_ref s)%nat -> h r = heap s r) /\
    map h (seq (next_ref s) (length pls)) = pls.
Proof.
  revert s. induction pls as [|p pls IH]; intros s.
  - exists (heap s). cbn. rewrite Nat.add_0_r. split; [by destruct s|done].
  - cbn [map map_m]. unfold bind at 1. unfold bind at 1. unfold lift at 1.
    rewrite Playlist_round_trip. unfold alloc at 1.
    set (s1 := set_next_ref _ _).
    destruct (IH s1) as (h & Hrun & Hold & Hnew).
    unfold bind at 1. rewrite Hrun. unfold bind, ret.
    exists h. subst s1. cbn [next_ref heap set_next_ref set_heap] in *.
    split; [|split].
    + cbn [length seq]. rewrite Nat.add_succ_r. reflexivity.
    + intros r Hr. rewrite Hold by lia. unfold upd.
      destruct (Nat.eqb_spec r (next_ref s)); [lia|done].
    + cbn [length seq map]. rewrite Hnew. f_equal.
      rewrite Hold by lia. unfold upd. by rewrite Nat.eqb_refl.
Qed.

Lemma load_playlists_ok (pls : list Playlist) (s : App) :
  exists h,
    load_playlists (VList (map Playlist_to_dict pls)) s
    = (Ok (seq (next_ref s) (length pls)),
       set_next_ref (next_ref s + length pls)%nat (set_heap (fun _ => h) s)) /\
    (forall r, (r < next_ref s)%nat -> h r = heap s r) /\
    map h (seq (next_ref s) (length pls)) = pls.
Proof. apply map_m_alloc. Qed.

(** The document of a library. *)
Lemma dict_comp_ok (lib : list (string * list Playlist)) (acc : dict (list ref))
    (s : App) :
  NoDup (map fst lib) ->
  (forall k, k ∈ map fst lib -> k ∉ dict_keys acc) ->
  exists new h n,
    dict_comp
      (map (fun '(k, pls) => (k, VList (map Playlist_to_dict pls))) lib)
      load_playlists acc s
    = (Ok (acc ++ new), set_next_ref n (set_heap (fun _ => h) s)) /\
    (next_ref s <= n)%nat /\
    (forall r, (r < next_ref s)%nat -> h r = heap s r) /\
    map (fun '(k, refs) => (k, map h refs)) new = lib.
Proof.
  revert acc s. induction lib as [|[k pls] lib IH]; intros acc s Hnd Hdisj.
  - exists [], (heap s), (next_ref s). cbn. rewrite app_nil_r.
    split; [by destruct s|done].
  - cbn in Hnd. apply NoDup_cons in Hnd as [Hk Hnd].
    cbn [map dict_comp]. unfold bind at 1.
    destruct (load_playlists_ok pls s) as (h1 & -> & Hold1 & Hnew1).
    cbv beta iota. set (s1 := set_next_ref _ _).
    rewrite dict_set_fresh by (apply Hdisj; cbn; left).
    destruct (IH (acc ++ [(k, seq (next_ref s) (length pls))]) s1 Hnd)
      as (new & h & n & Hrun & Hle & Hold & Hnew).
    { intros k' Hk'. unfold dict_keys. rewrite map_app. cbn.
      rewrite elem_of_app, list_elem_of_singleton. intros [Hin | ->]; [|done].
      by apply (Hdisj k'); [right|]. }
    exists ((k, seq (next_ref s) (length pls)) :: new), h, n.
    split; [etrans; [exact Hrun|by rewrite <- app_assoc]|].
    subst s1. cbn [next_ref heap set_next_ref set_heap] in *.
    split; [lia|]. split.
    + intros r Hr. rewrite Hold by lia. by apply Hold1.
    + cbn [map]. rewrite Hnew. do 2 f_equal.
      etrans; [|exact Hnew1].
      apply map_ext_in. intros r Hr%in_seq. apply Hold. lia.
Qed.

Lemma library_keys (s : App) : map fst (library s) = dict_keys (folders s).
Proof.
  unfold library, dict_keys. rewrite map_map. apply map_ext. by intros [k refs].
Qed.

Lemma document_keys (lib : list (string * list Playlist)) :
  map fst (map (fun '(k, pls) => (k, VList (map Playlist_to_dict pls))) lib)
  = map fst lib.
Proof. rewrite map_map. apply map_ext. by intros [k pls]. Qed.

(** [save_data] never fails in the model, and writes the document of
    the library. *)
Lemma save_data_doc (s : App) :
  save_data s
  = (Ok tt,
     set_data_file
       (Json (VDict (dict_of_items
          (map (fun '(k, pls) => (k, VList (map Playlist_to_dict pls)))
             (library s)))))
       s).
Proof.
  unfold save_data, library, try_except. run. do 5 f_equal.
  rewrite map_map. apply map_ext. intros [k refs]. by rewrite map_map.
Qed.

(** C2: saving a library and loading the saved document gives back the
    same structure: the same folders in the same order, in each folder
    the same playlists in the same order, and in each playlist the same
    name and the same tracks in the same order, with equal title, url,
    video_id and start_time.  The library being saved is a Python
    dictionary, so no folder name occurs twice in it. *)
Theorem save_load_round_trip (s s0 : App) :
  dict_wf (folders s) ->
  data_file s0 = data_file (snd (save_data s)) ->
  fst (save_data s) = Ok tt /\
  exists s', load_data s0 = (Ok tt, s') /\ library s' = library s.
Proof.
  intros Hwf Hfile. rewrite save_data_doc in *. split; [done|].
  cbn [snd data_file set_data_file] in Hfile.
  rewrite dict_of_items_wf in Hfile
    by (unfold dict_wf, dict_keys; by rewrite document_keys, library_keys).
  unfold load_data. unfold bind at 1. unfold gets at 1. rewrite Hfile.
  unfold try_except. unfold bind at 1. unfold ret at 1.
  unfold bind at 1. unfold lift at 1. cbn [items].
  destruct (dict_comp_ok (library s) [] s0) as (new & h & n & Hrun & _ & _ & Hnew).
  { rewrite library_keys. exact Hwf. }
  { intros k _. apply not_elem_of_nil. }
  unfold bind at 1. rewrite Hrun. unfold modify.
  eexists. split; [reflexivity|].
  unfold library. cbn [folders heap set_folders set_next_ref set_heap app].
  exact Hnew.
Qed.

Lemma save_load_round_trip_witness :
  fst (save_data (loaded [track_a; track_b; track_c] draws_201)) = Ok tt /\
  exists s',
    load_data
      (set_data_file
         (data_file (snd (save_data (loaded [track_a; track_b; track_c] draws_201))))
         (init draws_201 Absent))
    = (Ok tt, s') /\
    library s' = library (loaded [track_a; track_b; track_c] draws_201).
Proof.
  apply (save_load_round_trip (loaded [track_a; track_b; track_c] draws_201)
           (set_data_file
              (data_file (snd (save_data (loaded [track_a; track_b; track_c] draws_201))))
              (init draws_201 Absent))).
  - vm_compute. apply NoDup_singleton.
  - reflexivity.
Defined.

(** * Further properties *)

(** ** Playlists *)

(** X1: a track added to a playlist goes to the end, and removing the
    track at that last position gives back the playlist as it was. *)
Theorem Playlist_add_then_remove_last (p : Playlist) (t : Track) :
  tracks (Playlist_add_track p t) = tracks p ++ [t] /\
  Playlist_remove_track (Playlist_add_track p t) (Z.of_nat (length (tracks p)))
    = Ok p.
Proof.
  split; [done|]. destruct p as [nm ts].
  unfold Playlist_remove_track, Playlist_add_track. cbn [tracks name].
  rewrite length_app. cbn [length].
  destruct (Z.leb_spec 0 (Z.of_nat (length ts))); [|lia].
  destruct (Z.ltb_spec (Z.of_nat (length ts)) (Z.of_nat (length ts + 1))); [|lia].
  cbn [andb].
  destruct (pop_in_range (ts ++ [t]) (Z.of_nat (length ts))) as (x & _ & ->).
  { rewrite length_app. cbn [length]. lia. }
  cbn [rbind]. rewrite Nat2Z.id.
  rewrite take_app_length, drop_ge by (rewrite length_app; cbn; lia).
  by rewrite app_nil_r.
Qed.

(** ** Folders *)

Lemma dict_get_None_keys {V} (k : string) (d : dict V) :
  dict_get k d = None <-> k ∉ dict_keys d.
Proof.
  induction d as [|[k' v] d IH]; cbn.
  - split; [intros _; apply not_elem_of_nil|done].
  - rewrite not_elem_of_cons. destruct (String.eqb_spec k k') as [->|Hne].
    + split; [done|]. by intros [? _].
    + rewrite IH. split; [done|]. by intros [_ ?].
Qed.

Lemma dict_mem_false {V} (k : string) (d : dict V) :
  dict_mem k d = false <-> dict_get k d = None.
Proof. unfold dict_mem. by destruct (dict_get k d). Qed.

(** X2: [create_folder] strips the name it is given.  A cancelled or
    empty answer changes nothing; a blank name and a name already in use
    are refused with a warning and no other change; any other name
    becomes a new folder, placed after the existing ones, with no
    playlist, and the tree and the file are brought up to date. *)
Theorem create_folder_spec (s : App) (answer : string) :
  create_folder None s = (Ok tt, s) /\
  create_folder (Some "") s = (Ok tt, s) /\
  (answer <> "" -> strip answer = "" ->
   create_folder (Some answer) s = (Ok tt, warned InvalidFolderName s)) /\
  (strip answer <> "" -> dict_get (strip answer) (folders s) <> None ->
   create_folder (Some answer) s = (Ok tt, warned FolderExists s)) /\
  (strip answer <> "" -> dict_get (strip answer) (folders s) = None ->
   exists s',
     create_folder (Some answer) s = (Ok tt, s') /\
     folders s' = folders s ++ [(strip answer, [])] /\
     heap s' = heap s /\
     dialogs s' = dialogs s /\
     tree s' = tree (snd (update_tree s')) /\
     data_file s' = Json (document s')).
Proof.
  split; [done|]. split; [done|]. split; [|split].
  - intros Ha%String.eqb_neq Hs. unfold create_folder. by rewrite Ha, Hs.
  - intros Hs Hget.
    assert (answer <> "") as Ha%String.eqb_neq by (by intros ->).
    apply String.eqb_neq in Hs. unfold create_folder. rewrite Ha, Hs.
    unfold bind, gets.
    destruct (dict_mem (strip answer) (folders s)) eqn:E; [done|].
    by apply dict_mem_false in E.
  - intros Hs Hget.
    assert (answer <> "") as Ha%String.eqb_neq by (by intros ->).
    apply String.eqb_neq in Hs. unfold create_folder. rewrite Ha, Hs.
    unfold bind at 1. unfold gets at 1.
    assert (dict_mem (strip answer) (folders s) = false) as ->
      by (by apply dict_mem_false).
    cbn [negb]. rewrite dict_set_fresh by (by apply dict_get_None_keys).
    unfold update_tree, save_data, try_except. run.
    eexists. split; [reflexivity|]. done.
Qed.

Lemma create_folder_spec_witness :
  create_folder None one_folder = (Ok tt, one_folder) /\
  create_folder (Some "") one_folder = (Ok tt, one_folder) /\
  create_folder (Some "  ") one_folder
    = (Ok tt, warned InvalidFolderName one_folder) /\
  create_folder (Some " A ") one_folder = (Ok tt, warned FolderExists one_folder) /\
  (exists s',
     create_folder (Some " B ") one_folder = (Ok tt, s') /\
     folders s' = folders one_folder ++ [(strip " B ", [])] /\
     heap s' = heap one_folder /\
     dialogs s' = dialogs one_folder /\
     tree s' = tree (snd (update_tree s')) /\
     data_file s' = Json (document s')).
Proof.
  split; [apply (proj1 (create_folder_spec one_folder ""))|].
  split; [apply (proj1 (proj2 (create_folder_spec one_folder "")))|].
  split; [|split].
  - apply (proj1 (proj2 (proj2 (create_folder_spec one_folder "  "))));
      [discriminate|reflexivity].
  - apply (proj1 (proj2 (proj2 (proj2 (create_folder_spec one_folder " A ")))));
      vm_compute; discriminate.
  - apply (proj2 (proj2 (proj2 (proj2 (create_folder_spec one_folder " B ")))));
      [vm_compute; discriminate|reflexivity].
Defined.


(** ** What creating folders and playlists keeps true *)

Lemma set_dialogs_id (s : App) : set_dialogs (dialogs s) s = s.
Proof. by destruct s. Qed.

Lemma dict_get_Some_elem {V} (k : string) (v : V) (d : dict V) :
  dict_get k d = Some v -> (k, v) ∈ d.
Proof.
  induction d as [|[k' v'] d IH]; cbn; [done|].
  destruct (String.eqb_spec k k') as [->|Hne].
  - intros [= ->]. apply list_elem_of_here.
  - intros H. apply list_elem_of_further. by apply IH.
Qed.

Lemma Forall_dict_set {V} (P : string * V -> Prop) (k : string) (v : V) (d : dict V) :
  Forall P d -> P (k, v) -> Forall P (dict_set k v d).
Proof.
  intros Hd Hkv. induction Hd as [|[k' v'] d Hx Hd IH]; cbn.
  - by constructor.
  - destruct (String.eqb k k'); by constructor.
Qed.

(** The two ways [create_playlist] can end: with nothing changed but,
    possibly, a message box; or with the new playlist allocated, appended
    to its folder, and the file rewritten. *)
Lemma create_playlist_cases (s : App) (folder text : string) :
  (exists d, create_playlist folder text s = (Ok tt, set_dialogs d s)) \/
  (exists playlists s',
     dict_get folder (folders s) = Some playlists /\
     (forall p, p ∈ playlists -> name (heap s p) <> VStr (strip text)) /\
     create_playlist folder text s = (Ok tt, s') /\
     folders s' = dict_set folder (playlists ++ [next_ref s]) (folders s) /\
     heap s' = upd (next_ref s) (mkPlaylist (VStr (strip text)) []) (heap s) /\
     next_ref s' = S (next_ref s) /\
     data_file s' = Json (document s')).
Proof.
  remember (create_playlist folder text s) as res eqn:Hres.
  assert (folders s = [] \/ folders s <> []) as [Hempty|Hfs]
    by (destruct (folders s); [left|right]; done).
  { left. eexists. subst res. unfold create_playlist, bind, gets.
    rewrite Hempty. reflexivity. }
  rewrite create_playlist_some_folder in Hres by done.
  unfold create in Hres. destruct (String.eqb (strip text) "") eqn:Hnm.
  { left. eexists. subst res. reflexivity. }
  unfold bind at 1 in Hres. unfold bind at 1 in Hres. unfold gets at 1 in Hres.
  destruct (negb (String.eqb folder "") && dict_mem folder (folders s)) eqn:Hf.
  2:{ left. exists (dialogs s). subst res. by rewrite set_dialogs_id. }
  apply andb_true_iff in Hf as [_ Hmem]. unfold dict_mem in Hmem.
  destruct (dict_get folder (folders s)) as [playlists|] eqn:Hget; [|done].
  cbn [default from_option id] in Hres.
  unfold bind at 1 in Hres. unfold gets at 1 in Hres.
  destruct (existsb _ _) eqn:Hex.
  { left. eexists. subst res. reflexivity. }
  right. exists playlists.
  unfold update_tree, save_data, try_except, Playlist_init, alloc in Hres.
  cbv beta iota zeta delta
    [bind ret pass lift raise gets modify deref store show] in Hres.
  eexists. split; [done|]. split.
  { intros p Hp Hn. assert (existsb (str_eq (strip text))
      (map (fun p => name (heap s p)) playlists) = true) as Hex'
      by (apply name_taken_true; eauto). congruence. }
  split; [exact Hres|]. done.
Qed.

(** X3: if every playlist of the library is an allocated object and no
    folder holds two playlists of the same name, the same is true after
    [create_playlist], whatever folder and name it is given; and
    [create_playlist] never raises. *)
Theorem create_playlist_keeps_names_unique (s : App) (folder text : string) :
  store_ok s -> names_unique s ->
  exists s',
    create_playlist folder text s = (Ok tt, s') /\
    store_ok s' /\ names_unique s'.
Proof.
  intros Hok Hun.
  destruct (create_playlist_cases s folder text)
    as [[d ->]|(playlists & s' & Hget & Hfree & -> & Hfs & Hheap & Hnext & _)].
  { eexists. split; [reflexivity|]. done. }
  exists s'. split; [done|].
  pose proof (dict_get_Some_elem _ _ _ Hget) as Hin.
  unfold store_ok, names_unique in *. rewrite Hfs, Hheap, Hnext.
  rewrite Forall_forall in Hok, Hun.
  pose proof (Hok _ Hin) as Hrefs. pose proof (Hun _ Hin) as Hnames.
  cbn [snd] in Hrefs, Hnames. rewrite Forall_forall in Hrefs.
  assert (forall refs : list ref,
            Forall (fun r => (r < next_ref s)%nat) refs ->
            map (fun r => name (upd (next_ref s)
                   (mkPlaylist (VStr (strip text)) []) (heap s) r)) refs
            = map (fun r => name (heap s r)) refs) as Hsame.
  { intros refs Hr. apply map_ext_in. intros r Hr'%list_elem_of_In.
    rewrite Forall_forall in Hr. specialize (Hr r Hr'). unfold upd.
    destruct (Nat.eqb_spec r (next_ref s)); [lia|done]. }
  split.
  - apply Forall_dict_set.
    + apply Forall_forall. intros kv Hkv. specialize (Hok kv Hkv).
      eapply Forall_impl; [exact Hok|]. cbn. lia.
    + cbn [snd]. apply Forall_app. split.
      * apply Forall_forall. intros r Hr. specialize (Hrefs r Hr). lia.
      * repeat constructor.
  - apply Forall_dict_set.
    + apply Forall_forall. intros kv Hkv.
      rewrite Hsame by (apply Hok, Hkv). by apply Hun.
    + cbn [snd]. rewrite map_app. cbn [map]. unfold upd at 2.
      rewrite Nat.eqb_refl. cbn [name].
      rewrite Hsame by (by apply Forall_forall).
      apply NoDup_app. split; [done|]. split; [|apply NoDup_singleton].
      intros v Hv Hv'%list_elem_of_singleton. subst v.
      apply list_elem_of_fmap in Hv as (p & Hp & Hin').
      by apply (Hfree p Hin').
Qed.

Lemma create_playlist_keeps_names_unique_witness :
  exists s',
    create_playlist "A" "x" one_playlist = (Ok tt, s') /\
    store_ok s' /\ names_unique s'.
Proof.
  apply (create_playlist_keeps_names_unique one_playlist "A" "x").
  - repeat constructor.
  - repeat constructor. intros H. by apply not_elem_of_nil in H.
Defined.


(** X4: creating a folder or a playlist never leaves an unsaved change.
    Either the library and the file are exactly as before, or the file
    holds the document of the library as it now is. *)
Theorem creation_is_saved (s : App) :
  (forall answer,
     let s' := snd (create_folder answer s) in
     (folders s' = folders s /\ heap s' = heap s /\ data_file s' = data_file s)
     \/ data_file s' = Json (document s')) /\
  (forall folder text,
     let s' := snd (create_playlist folder text s) in
     (folders s' = folders s /\ heap s' = heap s /\ data_file s' = data_file s)
     \/ data_file s' = Json (document s')).
Proof.
  split.
  - intros answer. cbv zeta.
    remember (create_folder answer s) as res eqn:Hres.
    destruct answer as [answer|]; [|subst res; by left].
    unfold create_folder in Hres.
    destruct (String.eqb answer ""); [subst res; by left|].
    destruct (String.eqb (strip answer) ""); [subst res; left; by cbn|].
    unfold bind at 1 in Hres. unfold gets at 1 in Hres.
    destruct (dict_mem (strip answer) (folders s)); [subst res; left; by cbn|].
    right. cbn [negb] in Hres.
    unfold update_tree, save_data, try_except in Hres.
    cbv beta iota zeta delta
      [bind ret pass lift raise gets modify deref store show] in Hres.
    by subst res.
  - intros folder text. cbv zeta.
    destruct (create_playlist_cases s folder text)
      as [[d ->]|(playlists & s' & _ & _ & -> & _ & _ & _ & Hfile)].
    + left. by cbn.
    + by right.
Qed.


(** ** Loading a document that cannot be read *)

Lemma rmap_list_raise {A B} (f : A -> result B) (l : list A) (x : A) (e : exn) :
  x ∈ l -> f x = Raise e -> exists e', rmap_list f l = Raise e'.
Proof.
  intros Hin Hx. induction l as [|y l IH]; [by apply elem_of_nil in Hin|].
  cbn [rmap_list]. apply elem_of_cons in Hin as [<-|Hin].
  - rewrite Hx. by eexists.
  - destruct (f y) as [b|e0]; [|by eexists]. cbn [rbind].
    destruct (IH Hin) as [e' ->]. by eexists.
Qed.

Lemma map_m_alloc_raise (ps : list value) (e : exn) (s : App) :
  rmap_list Playlist_from_dict ps = Raise e ->
  exists e' s',
    map_m (fun p => pl ← lift (Playlist_from_dict p); alloc pl) ps s
    = (Raise e', s').
Proof.
  revert s. induction ps as [|p ps IH]; intros s H; [done|].
  cbn [rmap_list] in H. cbn [map_m]. unfold bind at 1. unfold bind at 1.
  unfold lift at 1. destruct (Playlist_from_dict p) as [pl|e0]; [|by eexists _, _].
  cbn [rbind] in H. unfold alloc at 1.
  destruct (rmap_list Playlist_from_dict ps) as [pls|e1] eqn:E; [done|].
  cbn [rbind] in H. injection H as ->.
  destruct (IH (set_next_ref (S (next_ref s))
                  (set_heap (upd (next_ref s) pl) s)) eq_refl) as (e' & s' & Hrun).
  unfold bind at 1. rewrite Hrun. by eexists _, _.
Qed.

Lemma load_playlists_raise (v : value) (s : App) :
  readable v = false -> exists e s', load_playlists v s = (Raise e, s').
Proof.
  unfold readable, load_playlists. intros H. unfold bind, lift.
  destruct (iter v) as [ps|e]; [|by eexists _, _]. cbn [rbind] in H.
  destruct (rmap_list Playlist_from_dict ps) as [pls|e] eqn:E; [done|].
  by apply (map_m_alloc_raise ps e).
Qed.

Lemma dict_comp_raise (its : list (string * value)) (k : string) (v : value)
    (acc : dict (list ref)) (s : App) :
  (k, v) ∈ its -> readable v = false ->
  exists e s', dict_comp its load_playlists acc s = (Raise e, s').
Proof.
  intros Hin Hv. revert acc s.
  induction its as [|[k0 v0] its IH]; intros acc s; [by apply elem_of_nil in Hin|].
  cbn [dict_comp]. unfold bind.
  apply elem_of_cons in Hin as [[= <- <-]|Hin].
  - destruct (load_playlists_raise v s Hv) as (e & s' & ->). by eexists _, _.
  - destruct (load_playlists v0 s) as [[refs|e] s1]; [|by eexists _, _].
    apply (IH Hin).
Qed.

Lemma unreadable_track (ps ts : list value) (pd td : dict value) :
  VDict pd ∈ ps ->
  dict_get "tracks" pd = Some (VList ts) ->
  VDict td ∈ ts ->
  dict_get "title" td = None \/ dict_get "url" td = None ->
  readable (VList ps) = false.
Proof.
  intros Hp Hts Ht Hmiss. unfold readable. cbn [iter rbind].
  assert (exists e, Track_from_dict (VDict td) = Raise e) as [e He].
  { unfold Track_from_dict. cbn [subscript].
    destruct Hmiss as [-> | Hu]; [by eexists|].
    destruct (dict_get "title" td); [|by eexists]. cbn [rbind].
    rewrite Hu. by eexists. }
  destruct (rmap_list_raise Track_from_dict ts _ e Ht He) as [e' He'].
  assert (exists e2, Playlist_from_dict (VDict pd) = Raise e2) as [e2 He2].
  { unfold Playlist_from_dict. cbn [get]. rewrite Hts. cbn [rbind iter].
    rewrite He'. by eexists. }
  destruct (rmap_list_raise Playlist_from_dict ps _ e2 Hp He2) as [e3 ->]. done.
Qed.

(** X5: [load_data] never raises.  Without a file it changes nothing.
    With a file that is not JSON, or whose document is not an object,
    or in which some folder cannot be read in full, the library ends
    empty: one playlist without a name, or one track without a title or
    a url, discards every folder of the document. *)
Theorem load_data_failures (s : App) :
  (exists s', load_data s = (Ok tt, s')) /\
  (data_file s = Absent -> load_data s = (Ok tt, s)) /\
  (data_file s = Garbage -> load_data s = (Ok tt, set_folders [] s)) /\
  (forall doc,
     data_file s = Json doc -> (forall d, doc <> VDict d) ->
     load_data s = (Ok tt, set_folders [] s)) /\
  (forall its k v,
     data_file s = Json (VDict its) -> (k, v) ∈ its -> readable v = false ->
     folders (snd (load_data s)) = []) /\
  (forall its k ps pd,
     data_file s = Json (VDict its) -> (k, VList ps) ∈ its -> VDict pd ∈ ps ->
     dict_get "name" pd = None ->
     folders (snd (load_data s)) = []) /\
  (forall its k ps pd ts td,
     data_file s = Json (VDict its) -> (k, VList ps) ∈ its -> VDict pd ∈ ps ->
     dict_get "tracks" pd = Some (VList ts) -> VDict td ∈ ts ->
     dict_get "title" td = None \/ dict_get "url" td = None ->
     folders (snd (load_data s)) = []).
Proof.
  assert (forall its k v,
     data_file s = Json (VDict its) -> (k, v) ∈ its -> readable v = false ->
     folders (snd (load_data s)) = []) as Hbad.
  { intros its k v Hf Hin Hv. unfold load_data. unfold bind at 1. unfold gets at 1.
    rewrite Hf. unfold try_except. unfold bind at 1. unfold ret at 1.
    unfold bind at 1. unfold lift at 1. cbn [items]. unfold bind at 1.
    destruct (dict_comp_raise its k v [] s Hin Hv) as (e & s' & ->). done. }
  split; [|split; [|split; [|split; [|split; [|split]]]]].
  - unfold load_data. unfold bind at 1. unfold gets at 1.
    destruct (data_file s); [by eexists|..]; unfold try_except;
      match goal with |- context [bind ?m ?k s] =>
        destruct (bind m k s) as [[[]|e] s1] end; by eexists.
  - intros Hf. unfold load_data, bind, gets. by rewrite Hf.
  - intros Hf. unfold load_data, bind, gets. by rewrite Hf.
  - intros doc Hf Hdoc. unfold load_data. unfold bind at 1. unfold gets at 1.
    rewrite Hf. unfold try_except, bind, ret, lift.
    destruct doc; try done. by destruct (Hdoc d).
  - exact Hbad.
  - intros its k ps pd Hf Hin Hp Hname. apply (Hbad its k (VList ps) Hf Hin).
    unfold readable. cbn [iter rbind].
    assert (exists e, Playlist_from_dict (VDict pd) = Raise e) as [e He].
    { unfold Playlist_from_dict. cbn [get subscript rbind]. rewrite Hname.
      destruct (iter (match dict_get "tracks" pd with
                      | Some v => v
                      | None => VList []
                      end)) as [ts|]; [|by eexists]. cbn [rbind].
      destruct (rmap_list Track_from_dict ts); by eexists. }
    by destruct (rmap_list_raise Playlist_from_dict ps _ e Hp He) as [e' ->].
  - intros its k ps pd ts td Hf Hin Hp Hts Ht Hmiss.
    apply (Hbad its k (VList ps) Hf Hin). by eapply unreadable_track.
Qed.


Lemma load_data_failures_witness :
  (exists s', load_data (init draws_201 Garbage) = (Ok tt, s')) /\
  load_data (init draws_201 Absent) = (Ok tt, init draws_201 Absent) /\
  load_data (init draws_201 Garbage)
    = (Ok tt, set_folders [] (init draws_201 Garbage)) /\
  load_data (init draws_201 (Json (VList [])))
    = (Ok tt, set_folders [] (init draws_201 (Json (VList [])))) /\
  folders (snd (load_data (init draws_201 (Json (VDict [("F", VInt 1)]))))) = [] /\
  folders (snd (load_data (init draws_201 (Json doc_no_name)))) = [] /\
  folders (snd (load_data (init draws_201 (Json doc_no_title)))) = [].
Proof.
  split; [apply (proj1 (load_data_failures (init draws_201 Garbage)))|].
  split; [apply (proj1 (proj2 (load_data_failures (init draws_201 Absent))));
          reflexivity|].
  split; [apply (proj1 (proj2 (proj2 (load_data_failures (init draws_201 Garbage)))));
          reflexivity|].
  split.
  { apply (proj1 (proj2 (proj2 (proj2
             (load_data_failures (init draws_201 (Json (VList [])))))))
             (VList []));
      [reflexivity|discriminate]. }
  split.
  { apply (proj1 (proj2 (proj2 (proj2 (proj2
             (load_data_failures (init draws_201 (Json (VDict [("F", VInt 1)]))))))))
             [("F", VInt 1)] "F" (VInt 1));
      [reflexivity|apply list_elem_of_here|reflexivity]. }
  split.
  { apply (proj1 (proj2 (proj2 (proj2 (proj2 (proj2
             (load_data_failures (init draws_201 (Json doc_no_name))))))))
             [("F", VList [VDict [("tracks", VList [])]])] "F"
             [VDict [("tracks", VList [])]] [("tracks", VList [])]);
      [reflexivity|apply list_elem_of_here|apply list_elem_of_here|reflexivity]. }
  apply (proj2 (proj2 (proj2 (proj2 (proj2 (proj2
           (load_data_failures (init draws_201 (Json doc_no_title))))))))
           [("F", VList [VDict [("name", VStr "P");
                                ("tracks", VList [VDict [("url", VStr "u")]])]])]
           "F"
           [VDict [("name", VStr "P"); ("tracks", VList [VDict [("url", VStr "u")]])]]
           [("name", VStr "P"); ("tracks", VList [VDict [("url", VStr "u")]])]
           [VDict [("url", VStr "u")]] [("url", VStr "u")]);
    [reflexivity|apply list_elem_of_here|apply list_elem_of_here|reflexivity
    |apply list_elem_of_here|left; reflexivity].
Defined.


(** ** Loading a playlist, again *)

Lemma save_data_document (s : App) :
  save_data s = (Ok tt, set_data_file (Json (document s)) s).
Proof. reflexivity. Qed.

Lemma insert_row_raise (ts : list Track) (t : Track) (s : App) :
  t ∈ ts -> gt0 (start_time t) = Raise TypeError ->
  exists s', for_each ts insert_row s = (Raise TypeError, s').
Proof.
  intros Hin Ht. revert s.
  induction ts as [|t0 ts IH]; intros s; [by apply elem_of_nil in Hin|].
  cbn [for_each]. unfold bind at 1. unfold insert_row at 1.
  unfold bind at 1. unfold lift at 1.
  apply elem_of_cons in Hin as [<-|Hin].
  - rewrite Ht. by eexists.
  - destruct (gt0 (start_time t0)) as [b|e] eqn:E.
    + unfold modify at 1. apply (IH Hin).
    + exists s. destruct (start_time t0); try discriminate E; by injection E as <-.
Qed.

(** X6: [load_playlist] makes the playlist current and fills the list
    box with one unselected row per track.  With shuffle on it draws a
    new queue, a permutation of the track indices, and puts the cursor
    at 0; with shuffle off it leaves queue and index alone.  This is for
    start times that are integers: if some start time cannot be compared
    with 0, [load_playlist] raises [TypeError], the playlists themselves
    being untouched. *)
Theorem load_playlist_spec (r : ref) (s : App) :
  (Forall int_start (tracks (heap s r)) ->
   exists s',
     load_playlist r s = (Ok tt, s') /\
     heap s' = heap s /\
     folders s' = folders s /\
     current_playlist s' = Some r /\
     length (tracks_list s') = length (tracks (heap s r)) /\
     selected_from 0 (tracks_list s') = [] /\
     (shuffle_mode s = true ->
      shuffle_queue s' ≡ₚ range (length (tracks (heap s r))) /\
      current_track_index s' = 0) /\
     (shuffle_mode s = false ->
      shuffle_queue s' = shuffle_queue s /\
      current_track_index s' = current_track_index s)) /\
  (forall t,
     t ∈ tracks (heap s r) -> gt0 (start_time t) = Raise TypeError ->
     exists s',
       load_playlist r s = (Raise TypeError, s') /\ heap s' = heap s).
Proof.
  split.
  - intros H. unfold load_playlist.
    unfold bind at 1. unfold modify at 1.
    unfold bind at 1. unfold modify at 1.
    unfold bind at 1. unfold deref at 1. unfold gets at 1.
    cbn [heap set_tracks_list set_current_playlist].
    unfold bind at 1.
    match goal with |- context [for_each _ _ ?s0] => set (s1 := s0) end.
    destruct (load_rows (tracks (heap s r)) s1 H) as (rows & -> & Hlen).
    subst s1. unfold bind at 1. unfold gets at 1.
    cbn [tracks_list shuffle_mode set_tracks_list set_current_playlist app].
    destruct (shuffle_mode s) eqn:Hsm.
    + match goal with |- context [generate_shuffle_queue ?s0] => set (s2 := s0) end.
      destruct (generate_shuffle_queue_ok s2 r eq_refl) as (q & g & -> & Hq).
      eexists. split; [reflexivity|]. subst s2. cbn in *.
      rewrite length_map.
      rewrite selected_from_unselected by apply unselected_fresh.
      repeat split; try done.
    + eexists. split; [reflexivity|]. cbn.
      rewrite length_map.
      rewrite selected_from_unselected by apply unselected_fresh.
      repeat split; try done.
  - intros t Hin Ht.
    pose proof (load_playlist_preserves_heap r s) as Hheap.
    unfold load_playlist in *.
    unfold bind at 1 in Hheap. unfold modify at 1 in Hheap.
    unfold bind at 1 in Hheap. unfold modify at 1 in Hheap.
    unfold bind at 1 in Hheap. unfold deref at 1 in Hheap. unfold gets at 1 in Hheap.
    unfold bind at 1 in Hheap.
    unfold bind at 1. unfold modify at 1.
    unfold bind at 1. unfold modify at 1.
    unfold bind at 1. unfold deref at 1. unfold gets at 1.
    unfold bind at 1.
    cbn [heap set_tracks_list set_current_playlist] in *.
    match goal with |- context [for_each _ _ ?s0] =>
      destruct (insert_row_raise (tracks (heap s r)) t s0 Hin Ht) as [s' Hrun] end.
    rewrite Hrun in *. eexists. split; [reflexivity|exact Hheap].
Qed.


Lemma load_playlist_spec_witness :
  (exists s',
     load_playlist O (unopened [track_a; track_b]) = (Ok tt, s') /\
     heap s' = heap (unopened [track_a; track_b]) /\
     folders s' = folders (unopened [track_a; track_b]) /\
     current_playlist s' = Some O /\
     length (tracks_list s') = 2%nat /\
     selected_from 0 (tracks_list s') = [] /\
     (shuffle_mode (unopened [track_a; track_b]) = true ->
      shuffle_queue s' ≡ₚ range 2 /\ current_track_index s' = 0) /\
     (shuffle_mode (unopened [track_a; track_b]) = false ->
      shuffle_queue s' = [] /\ current_track_index s' = 0)) /\
  (exists s',
     load_playlist O (unopened [track_a; track_bad]) = (Raise TypeError, s') /\
     heap s' = heap (unopened [track_a; track_bad])).
Proof.
  split.
  - apply (proj1 (load_playlist_spec O (unopened [track_a; track_b]))).
    repeat constructor; eexists; reflexivity.
  - apply (proj2 (load_playlist_spec O (unopened [track_a; track_bad])) track_bad).
    + apply list_elem_of_further, list_elem_of_here.
    + reflexivity.
Defined.


(** ** Moving and removing tracks at any position *)

Lemma reload_save (s : App) (r : ref) :
  Forall int_start (tracks (heap s r)) ->
  exists s',
    (load_playlist r;; save_data) s = (Ok tt, s') /\
    heap s' = heap s /\
    folders s' = folders s /\
    current_playlist s' = Some r /\
    selected_from 0 (tracks_list s') = [] /\
    data_file s' = Json (document s').
Proof.
  intros Hty.
  destruct (load_playlist_ok r s Hty) as (rows & q & g & i & Hload & Hlen).
  unfold bind at 1. rewrite Hload. rewrite save_data_document.
  eexists. split; [reflexivity|]. cbn.
  rewrite selected_from_unselected by apply unselected_fresh. done.
Qed.

Lemma reload_select_save_file (s : App) (r : ref) (k : Z) :
  Forall int_start (tracks (heap s r)) ->
  0 <= k < Z.of_nat (length (tracks (heap s r))) ->
  exists s',
    (load_playlist r;; selection_set k;; save_data) s = (Ok tt, s') /\
    heap s' = heap s /\
    folders s' = folders s /\
    current_playlist s' = Some r /\
    selected_from 0 (tracks_list s') = [k] /\
    data_file s' = Json (document s').
Proof.
  intros Hty Hk.
  destruct (load_playlist_ok r s Hty) as (rows & q & g & i & Hload & Hlen).
  unfold bind at 1. rewrite Hload.
  unfold bind at 1. unfold selection_set, modify.
  destruct (Z.leb_spec 0 k); [|lia].
  rewrite save_data_document.
  eexists. split; [reflexivity|]. cbn.
  split; [done|]. split; [done|]. split; [done|]. split; [|done].
  rewrite selected_from_alter by apply unselected_fresh.
  rewrite length_map, decide_True by lia. f_equal. lia.
Qed.

Lemma move_track_down_at (s : App) (r : ref) (k : nat) (a b : Track)
    (sel : list Z) :
  current_playlist s = Some r ->
  Forall int_start (tracks (heap s r)) ->
  tracks (heap s r) !! k = Some a ->
  tracks (heap s r) !! S k = Some b ->
  selected_from 0 (tracks_list s) = Z.of_nat k :: sel ->
  exists s1,
    move_track_down s = (Ok tt, s1) /\
    current_playlist s1 = Some r /\
    folders s1 = folders s /\
    name (heap s1 r) = name (heap s r) /\
    tracks (heap s1 r) = <[S k:=a]> (<[k:=b]> (tracks (heap s r))) /\
    selected_from 0 (tracks_list s1) = [Z.of_nat (S k)] /\
    data_file s1 = Json (document s1).
Proof.
  intros Hcp Hty Ha Hb Hsel.
  pose proof (lookup_lt_Some _ _ _ Hb) as Hlt.
  unfold move_track_down.
  unfold bind at 1. unfold curselection at 1. unfold gets at 1. rewrite Hsel.
  unfold bind at 1. unfold the_current_playlist at 1. rewrite Hcp.
  unfold bind at 1. unfold deref at 1. unfold gets at 1.
  destruct (Z.leb_spec (Z.of_nat (length (tracks (heap s r))) - 1) (Z.of_nat k));
    [lia|].
  unfold bind at 1. unfold lift at 1.
  destruct (swap_in_range (tracks (heap s r)) (Z.of_nat k) (Z.of_nat k + 1))
    as (x & y & Hx & Hy & ->); [lia..|].
  replace (Z.to_nat (Z.of_nat k + 1)) with (S k) in * by lia.
  rewrite Nat2Z.id in *. simplify_eq.
  unfold bind at 1. unfold store at 1. unfold modify at 1.
  set (s0 := set_heap _ s).
  assert (heap s0 r = mkPlaylist (name (heap s r))
            (<[S k:=a]> (<[k:=b]> (tracks (heap s r))))) as Hr.
  { subst s0. cbn [heap set_heap]. unfold upd. by rewrite Nat.eqb_refl. }
  destruct (reload_select_save_file s0 r (Z.of_nat k + 1))
    as (s1 & Hrun & Hheap & Hfs & Hcp1 & Hsel1 & Hfile).
  { rewrite Hr. cbn [tracks]. apply Forall_insert; [apply Forall_insert|].
    - done.
    - by eapply (Forall_lookup_1 _ _ _ _ Hty).
    - by eapply (Forall_lookup_1 _ _ _ _ Hty). }
  { rewrite Hr. cbn [tracks]. rewrite !length_insert. lia. }
  exists s1. split; [exact Hrun|]. rewrite Hheap, Hr, Hfs.
  replace (Z.of_nat (S k)) with (Z.of_nat k + 1) by lia. done.
Qed.

Lemma move_track_up_at (s : App) (r : ref) (k : nat) (a b : Track)
    (sel : list Z) :
  current_playlist s = Some r ->
  Forall int_start (tracks (heap s r)) ->
  tracks (heap s r) !! k = Some b ->
  tracks (heap s r) !! S k = Some a ->
  selected_from 0 (tracks_list s) = Z.of_nat (S k) :: sel ->
  exists s2,
    move_track_up s = (Ok tt, s2) /\
    current_playlist s2 = Some r /\
    folders s2 = folders s /\
    name (heap s2 r) = name (heap s r) /\
    tracks (heap s2 r) = <[k:=a]> (<[S k:=b]> (tracks (heap s r))) /\
    selected_from 0 (tracks_list s2) = [Z.of_nat k] /\
    data_file s2 = Json (document s2).
Proof.
  intros Hcp Hty Hb Ha Hsel.
  pose proof (lookup_lt_Some _ _ _ Ha) as Hlt.
  unfold move_track_up.
  unfold bind at 1. unfold curselection at 1. unfold gets at 1. rewrite Hsel.
  destruct (Z.eqb_spec (Z.of_nat (S k)) 0); [lia|].
  unfold bind at 1. unfold the_current_playlist at 1. rewrite Hcp.
  unfold bind at 1. unfold deref at 1. unfold gets at 1.
  unfold bind at 1. unfold lift at 1.
  destruct (swap_in_range (tracks (heap s r)) (Z.of_nat (S k)) (Z.of_nat (S k) - 1))
    as (x & y & Hx & Hy & ->); [lia..|].
  replace (Z.to_nat (Z.of_nat (S k) - 1)) with k in * by lia.
  rewrite Nat2Z.id in *. simplify_eq.
  unfold bind at 1. unfold store at 1. unfold modify at 1.
  set (s0 := set_heap _ s).
  assert (heap s0 r = mkPlaylist (name (heap s r))
            (<[k:=a]> (<[S k:=b]> (tracks (heap s r))))) as Hr.
  { subst s0. cbn [heap set_heap]. unfold upd. by rewrite Nat.eqb_refl. }
  destruct (reload_select_save_file s0 r (Z.of_nat (S k) - 1))
    as (s1 & Hrun & Hheap & Hfs & Hcp1 & Hsel1 & Hfile).
  { rewrite Hr. cbn [tracks]. apply Forall_insert; [apply Forall_insert|].
    - done.
    - by eapply (Forall_lookup_1 _ _ _ _ Hty).
    - by eapply (Forall_lookup_1 _ _ _ _ Hty). }
  { rewrite Hr. cbn [tracks]. rewrite !length_insert. lia. }
  exists s1. split; [exact Hrun|]. rewrite Hheap, Hr, Hfs.
  replace (Z.of_nat k) with (Z.of_nat (S k) - 1) by lia. done.
Qed.

Lemma swap_back {A} (l : list A) (k : nat) (a b : A) :
  l !! k = Some a -> l !! S k = Some b ->
  <[k:=a]> (<[S k:=b]> (<[S k:=a]> (<[k:=b]> l))) = l.
Proof.
  intros Ha Hb.
  pose proof (lookup_lt_Some _ _ _ Ha). pose proof (lookup_lt_Some _ _ _ Hb).
  apply list_eq. intros i. rewrite !list_lookup_insert, !length_insert.
  repeat destruct (decide _); try done; try lia; destruct_and?; congruence.
Qed.

(** X7: moving the selected track down exchanges it with its successor
    and nothing else, the selection following the track; moving it up
    again gives back the original order, at any position of a playlist
    whose start times are integers.  After each move the file holds the
    document of the library. *)
Theorem move_down_then_up (s : App) (r : ref) (k : nat) (sel : list Z) :
  current_playlist s = Some r ->
  Forall int_start (tracks (heap s r)) ->
  (S k < length (tracks (heap s r)))%nat ->
  selected_from 0 (tracks_list s) = Z.of_nat k :: sel ->
  exists s1 s2 a b,
    tracks (heap s r) !! k = Some a /\
    tracks (heap s r) !! S k = Some b /\
    move_track_down s = (Ok tt, s1) /\
    tracks (heap s1 r) = <[S k:=a]> (<[k:=b]> (tracks (heap s r))) /\
    tracks (heap s1 r) ≡ₚ tracks (heap s r) /\
    selected_from 0 (tracks_list s1) = [Z.of_nat (S k)] /\
    data_file s1 = Json (document s1) /\
    move_track_up s1 = (Ok tt, s2) /\
    tracks (heap s2 r) = tracks (heap s r) /\
    selected_from 0 (tracks_list s2) = [Z.of_nat k] /\
    data_file s2 = Json (document s2).
Proof.
  intros Hcp Hty Hlen Hsel.
  destruct (lookup_lt_is_Some_2 (tracks (heap s r)) k) as [a Ha]; [lia|].
  destruct (lookup_lt_is_Some_2 (tracks (heap s r)) (S k)) as [b Hb]; [lia|].
  destruct (move_track_down_at s r k a b sel Hcp Hty Ha Hb Hsel)
    as (s1 & Hdown & Hcp1 & _ & _ & Htr1 & Hsel1 & Hfile1).
  destruct (move_track_up_at s1 r k a b [] Hcp1) as
    (s2 & Hup & _ & _ & _ & Htr2 & Hsel2 & Hfile2).
  { rewrite Htr1. apply Forall_insert; [apply Forall_insert|].
    - done.
    - by eapply (Forall_lookup_1 _ _ _ _ Hty).
    - by eapply (Forall_lookup_1 _ _ _ _ Hty). }
  { rewrite Htr1. rewrite list_lookup_insert_ne by lia.
    apply list_lookup_insert_eq. by eapply lookup_lt_Some. }
  { rewrite Htr1. apply list_lookup_insert_eq. rewrite length_insert. lia. }
  { done. }
  exists s1, s2, a, b. repeat split; try done.
  - rewrite Htr1. by apply insert_insert_swap_perm.
  - rewrite Htr2, Htr1. by apply swap_back.
Qed.

Lemma move_down_then_up_witness :
  exists s1 s2 a b,
    tracks (heap last_selected O) !! 1%nat = Some a /\
    tracks (heap last_selected O) !! 2%nat = Some b /\
    move_track_down (snd (selection_set 1 (loaded [track_a; track_b; track_c] draws_201)))
      = (Ok tt, s1) /\
    tracks (heap s1 O) = <[2%nat:=a]> (<[1%nat:=b]> [track_a; track_b; track_c]) /\
    tracks (heap s1 O) ≡ₚ [track_a; track_b; track_c] /\
    selected_from 0 (tracks_list s1) = [2] /\
    data_file s1 = Json (document s1) /\
    move_track_up s1 = (Ok tt, s2) /\
    tracks (heap s2 O) = [track_a; track_b; track_c] /\
    selected_from 0 (tracks_list s2) = [1] /\
    data_file s2 = Json (document s2).
Proof.
  apply (move_down_then_up
           (snd (selection_set 1 (loaded [track_a; track_b; track_c] draws_201)))
           O 1 []).
  - reflexivity.
  - repeat constructor; eexists; reflexivity.
  - simpl. lia.
  - reflexivity.
Defined.


Lemma Playlist_remove_track_cases (self : Playlist) (index : Z) :
  (0 <= index < Z.of_nat (length (tracks self)) ->
   Playlist_remove_track self index =
     Ok (mkPlaylist (name self)
           (take (Z.to_nat index) (tracks self)
            ++ drop (S (Z.to_nat index)) (tracks self)))) /\
  (~ (0 <= index < Z.of_nat (length (tracks self))) ->
   Playlist_remove_track self index = Ok self).
Proof.
  unfold Playlist_remove_track. split; intros H.
  - destruct (Z.leb_spec 0 index); [|lia].
    destruct (Z.ltb_spec index (Z.of_nat (length (tracks self)))); [|lia].
    cbn [andb]. destruct (pop_in_range (tracks self) index H) as (x & _ & ->).
    reflexivity.
  - destruct (Z.leb_spec 0 index); [|reflexivity].
    destruct (Z.ltb_spec index (Z.of_nat (length (tracks self)))); [lia|].
    reflexivity.
Qed.

(** X8: [remove_track] on the selected row [k].  When the answer to the
    confirmation is no, nothing changes.  When it is yes, exactly the
    track at position [k] leaves the playlist, the others keeping their
    order, the list box is reloaded with no row selected and the file
    holds the new library.  A selected row beyond the end of the
    playlist raises [IndexError] before anything is asked or removed,
    and with no row selected there is only a warning. *)
Theorem remove_track_spec (s : App) (r : ref) (confirm : bool) :
  (selected_from 0 (tracks_list s) = [] ->
   remove_track confirm s = (Ok tt, warned SelectATrack s)) /\
  (forall k sel t,
     current_playlist s = Some r ->
     selected_from 0 (tracks_list s) = Z.of_nat k :: sel ->
     tracks (heap s r) !! k = Some t ->
     remove_track false s = (Ok tt, s) /\
     (Forall int_start (tracks (heap s r)) ->
      exists s',
        remove_track true s = (Ok tt, s') /\
        name (heap s' r) = name (heap s r) /\
        tracks (heap s' r)
          = take k (tracks (heap s r)) ++ drop (S k) (tracks (heap s r)) /\
        folders s' = folders s /\
        selected_from 0 (tracks_list s') = [] /\
        data_file s' = Json (document s'))) /\
  (forall k sel,
     current_playlist s = Some r ->
     selected_from 0 (tracks_list s) = Z.of_nat k :: sel ->
     tracks (heap s r) !! k = None ->
     remove_track confirm s = (Raise IndexError, s)).
Proof.
  split; [|split].
  - intros Hsel. unfold remove_track, bind, curselection, gets. by rewrite Hsel.
  - intros k sel t Hcp Hsel Ht.
    pose proof (lookup_lt_Some _ _ _ Ht) as Hlt.
    assert (getitem (tracks (heap s r)) (Z.of_nat k) = Ok t) as Hget.
    { destruct (getitem_in_range (tracks (heap s r)) (Z.of_nat k)) as (x & Hx & ->);
        [lia|]. rewrite Nat2Z.id in Hx. congruence. }
    split.
    + unfold remove_track, bind, curselection, gets, the_current_playlist, deref, lift.
      rewrite Hsel, Hcp. unfold gets. by rewrite Hget.
    + intros Hty. unfold remove_track.
      unfold bind at 1. unfold curselection at 1. unfold gets at 1. rewrite Hsel.
      unfold bind at 1. unfold the_current_playlist at 1. rewrite Hcp.
      unfold bind at 1. unfold deref at 1. unfold gets at 1.
      unfold bind at 1. unfold lift at 1. rewrite Hget.
      unfold bind at 1. unfold lift at 1.
      rewrite (proj1 (Playlist_remove_track_cases (heap s r) (Z.of_nat k))) by lia.
      rewrite Nat2Z.id.
      unfold bind at 1. unfold store at 1. unfold modify at 1.
      set (s0 := set_heap _ s).
      assert (heap s0 r = mkPlaylist (name (heap s r))
                (take k (tracks (heap s r)) ++ drop (S k) (tracks (heap s r))))
        as Hr.
      { subst s0. cbn [heap set_heap]. unfold upd. by rewrite Nat.eqb_refl. }
      destruct (reload_save s0 r) as (s' & Hrun & Hheap & Hfs & _ & Hsel' & Hfile).
      { rewrite Hr. cbn [tracks]. apply Forall_app. split.
        - by apply Forall_take.
        - by apply Forall_drop. }
      exists s'. split; [exact Hrun|]. rewrite Hheap, Hr, Hfs. done.
  - intros k sel Hcp Hsel Hnone.
    pose proof (lookup_ge_None_1 _ _ Hnone) as Hge.
    unfold remove_track, bind, curselection, gets, the_current_playlist, deref, lift.
    rewrite Hsel, Hcp. unfold gets, getitem, norm_index.
    destruct (Z.leb_spec 0 (Z.of_nat k)); [|lia].
    destruct (Z.ltb_spec (Z.of_nat k) (Z.of_nat (length (tracks (heap s r)))));
      [lia|].
    cbn [andb].
    destruct (Z.leb_spec (- Z.of_nat (length (tracks (heap s r)))) (Z.of_nat k));
      destruct (Z.ltb_spec (Z.of_nat k) 0); try lia; done.
Qed.


Lemma remove_track_spec_witness :
  remove_track true (loaded [track_a; track_b; track_c] draws_201)
    = (Ok tt, warned SelectATrack (loaded [track_a; track_b; track_c] draws_201)) /\
  (remove_track false last_selected = (Ok tt, last_selected) /\
   (Forall int_start (tracks (heap last_selected O)) ->
    exists s',
      remove_track true last_selected = (Ok tt, s') /\
      name (heap s' O) = name (heap last_selected O) /\
      tracks (heap s' O)
        = take 2 (tracks (heap last_selected O))
          ++ drop 3 (tracks (heap last_selected O)) /\
      folders s' = folders last_selected /\
      selected_from 0 (tracks_list s') = [] /\
      data_file s' = Json (document s'))) /\
  remove_track true stale_selection = (Raise IndexError, stale_selection).
Proof.
  split; [|split].
  - apply (proj1 (remove_track_spec
                    (loaded [track_a; track_b; track_c] draws_201) O true)).
    reflexivity.
  - apply (proj1 (proj2 (remove_track_spec last_selected O true))
             2%nat [] track_c); reflexivity.
  - apply (proj2 (proj2 (remove_track_spec stale_selection O true)) 2%nat []);
      reflexivity.
Defined.

(** ** Next track, in sequential mode *)

Lemma next_track_advances_aux (s : App) :
  (nothing_to_play s = true -> next_track s = (Ok tt, s)) /\
  (forall r,
     shuffle_mode s = false ->
     current_playlist s = Some r ->
     tracks (heap s r) <> [] ->
     exists s',
       next_track s = (Ok tt, s') /\
       heap s' = heap s /\
       folders s' = folders s /\
       current_playlist s' = Some r /\
       shuffle_mode s' = false /\
       current_track_index s'
         = (current_track_index s + 1) mod Z.of_nat (length (tracks (heap s r))) /\
       0 <= current_track_index s' < Z.of_nat (length (tracks (heap s r))) /\
       (length (tracks (heap s r)) <= length (tracks_list s) ->
        selected_from 0 (tracks_list s') = [current_track_index s'])%nat).
Proof.
  split.
  - intros H. unfold next_track, bind, gets. by rewrite H.
  - intros r Hsm Hcp Hne. unfold next_track, play_track, nothing_to_play. run.
    rewrite Hcp, bool_decide_eq_false_2 by done. cbv beta iota.
    rewrite Hcp, Hsm. unfold mod_.
    destruct (Z.eqb_spec (Z.of_nat (length (tracks (heap s r)))) 0) as [E|E].
    { destruct (tracks (heap s r)); [done|simpl in E; lia]. }
    set (i := (current_track_index s + 1) mod _).
    assert (0 <= i < Z.of_nat (length (tracks (heap s r)))) as Hi
      by (apply Z.mod_pos_bound; lia).
    destruct (Z.leb_spec 0 i); [|lia]. cbn.
    rewrite Hcp, bool_decide_eq_false_2 by done.
    cbn [tracks_list set_tracks_list].
    rewrite selected_from_alter by apply unselected_cleared.
    rewrite length_map.
    destruct (decide _) as [Hlt|Hge]; eexists; (split; [reflexivity|]); cbn.
    + rewrite selected_from_alter by apply unselected_cleared.
      rewrite length_map, decide_True by done.
      assert (Z.of_nat (Z.to_nat i) = i) as -> by lia.
      assert (Z.of_nat (0 + Z.to_nat i) = i) as -> by lia.
      by repeat (split; [done|]).
    + repeat (split; [done|]). intros Hle. lia.
Qed.

(** X9: with shuffle off and a playlist that is not empty, [next_track]
    moves the index one step forward modulo the number of tracks, so the
    new index is a valid position; it changes neither the playlists nor
    the mode, and when the list box shows the playlist the row of the
    new index is the one selected.  With no playlist, or an empty one,
    [next_track] does nothing. *)
Theorem next_track_advances (s : App) :
  (nothing_to_play s = true -> next_track s = (Ok tt, s)) /\
  (forall r,
     shuffle_mode s = false ->
     current_playlist s = Some r ->
     tracks (heap s r) <> [] ->
     exists s',
       next_track s = (Ok tt, s') /\
       heap s' = heap s /\
       folders s' = folders s /\
       current_playlist s' = Some r /\
       shuffle_mode s' = false /\
       current_track_index s'
         = (current_track_index s + 1) mod Z.of_nat (length (tracks (heap s r))) /\
       0 <= current_track_index s' < Z.of_nat (length (tracks (heap s r))) /\
       (length (tracks (heap s r)) <= length (tracks_list s) ->
        selected_from 0 (tracks_list s') = [current_track_index s'])%nat).
Proof. apply next_track_advances_aux. Qed.

Lemma next_track_advances_witness :
  next_track (unopened [track_a]) = (Ok tt, unopened [track_a]) /\
  exists s',
    next_track (set_current_track_index 2 (loaded [track_a; track_b; track_c] draws_201))
      = (Ok tt, s') /\
    heap s' = heap (loaded [track_a; track_b; track_c] draws_201) /\
    folders s' = folders (loaded [track_a; track_b; track_c] draws_201) /\
    current_playlist s' = Some O /\
    shuffle_mode s' = false /\
    current_track_index s' = (2 + 1) mod 3 /\
    0 <= current_track_index s' < 3 /\
    (3 <= 3 -> selected_from 0 (tracks_list s') = [current_track_index s'])%nat.
Proof.
  split.
  - apply (proj1 (next_track_advances (unopened [track_a]))). reflexivity.
  - apply (proj2 (next_track_advances
       (set_current_track_index 2 (loaded [track_a; track_b; track_c] draws_201))) O).
    + reflexivity.
    + reflexivity.
    + discriminate.
Defined.





(** ** Adding a track by URL, for any URL *)

Lemma no_question_mark_before_split (u : string) :
  contains "?" (fst (split "?"%char u)) = false.
Proof.
  induction u as [|c u IH]; [done|].
  cbn [split]. destruct (split "?"%char u) as [h t]. cbn [fst] in IH.
  destruct (Ascii.eqb c "?"%char) eqn:E; [done|].
  cbn [fst contains starts_with]. rewrite IH.
  rewrite Ascii.eqb_sym, E. done.
Qed.

Lemma cleaned_no_question_mark (u : string) : contains "?" (cleaned u) = false.
Proof.
  unfold cleaned. destruct (contains "?" u) eqn:E; [|done].
  apply no_question_mark_before_split.
Qed.

Lemma generate_shuffle_queue_preserves_folders : preserves folders generate_shuffle_queue.
Proof.
  unfold generate_shuffle_queue, deref, random_shuffle.
  apply preserves_bind; [apply preserves_gets|intros [r|]]; [|apply preserves_ret].
  eauto 20 using shuffle_loop_preserves with preserves.
Qed.

(** X11: [add_from_url], for any text in the URL entry.  The text is
    stripped.  No playlist selected, an empty text, a text that names
    neither youtube.com nor youtu.be, a missing yt_dlp and a lookup that
    raises each end in a message box with nothing stored.  Otherwise the
    lookup is made on the text cut at its first question mark, and a
    track with that cut text as url, the title and id of the lookup and
    start time 0 is appended to the current playlist; the stored url
    never contains a question mark, the entry is emptied and the file
    holds the new library. *)
Theorem add_from_url_spec (env : Env) (s : App) :
  (current_playlist s = None ->
   add_from_url env s = (Ok tt, warned SelectPlaylistFirst s)) /\
  (forall r,
     current_playlist s = Some r ->
     (strip (url_entry s) = "" ->
      add_from_url env s = (Ok tt, warned TypeAUrl s)) /\
     (strip (url_entry s) <> "" ->
      contains "youtube.com" (strip (url_entry s)) = false ->
      contains "youtu.be" (strip (url_entry s)) = false ->
      add_from_url env s = (Ok tt, failed UrlNotYouTube s)) /\
     (strip (url_entry s) <> "" ->
      contains "youtube.com" (strip (url_entry s)) = true \/
      contains "youtu.be" (strip (url_entry s)) = true ->
      (yt_dlp env = false ->
       add_from_url env s = (Ok tt, failed YtDlpMissing s)) /\
      (forall e,
         yt_dlp env = true ->
         extract_info env (cleaned (strip (url_entry s))) = Raise e ->
         add_from_url env s = (Ok tt, failed (AddUrlFailed e) s)) /\
      (forall info,
         yt_dlp env = true ->
         extract_info env (cleaned (strip (url_entry s))) = Ok (VDict info) ->
         exists s',
           add_from_url env s = (Ok tt, s') /\
           tracks (heap s' r)
             = tracks (heap s r)
               ++ [mkTrack (default (VStr "Sem título") (dict_get "title" info))
                     (VStr (cleaned (strip (url_entry s))))
                     (default (VStr "") (dict_get "id" info))
                     (VInt 0)] /\
           contains "?" (cleaned (strip (url_entry s))) = false /\
           folders s' = folders s /\
           url_entry s' = "" /\
           data_file s' = Json (document s')))).
Proof.
  split.
  - intros Hcp. unfold add_from_url, bind, gets. by rewrite Hcp.
  - intros r Hcp. split; [|split].
    + intros Hu. unfold add_from_url, bind, gets. by rewrite Hcp, Hu.
    + intros Hu%String.eqb_neq Hy1 Hy2.
      unfold add_from_url, bind, gets. by rewrite Hcp, Hu, Hy1, Hy2.
    + intros Hu%String.eqb_neq Hhost.
      assert (negb (contains "youtube.com" (strip (url_entry s)))
              && negb (contains "youtu.be" (strip (url_entry s))) = false) as Hh.
      { destruct Hhost as [-> | ->]; [done|]. by rewrite andb_false_r. }
      assert (add_from_url env s = _add_url_thread env (strip (url_entry s)) s)
        as ->.
      { unfold add_from_url, bind, gets. by rewrite Hcp, Hu, Hh. }
      unfold _add_url_thread. fold (cleaned (strip (url_entry s))).
      split; [|split].
      * intros Hyt. unfold try_except. by rewrite Hyt.
      * intros e Hyt He. unfold try_except, bind, lift. by rewrite Hyt, He.
      * intros info Hyt Hinfo. unfold try_except, bind. rewrite Hyt. cbn [negb].
        unfold lift. rewrite Hinfo. cbn [get].
        unfold the_current_playlist. rewrite Hcp.
        unfold deref, gets, store, modify.
        set (tr := mkTrack _ _ _ _).
        set (s1 := set_heap _ s).
        rewrite (tk_callback_run (load_playlist r) s1).
        set (s2 := snd (tk_callback (load_playlist r) s1)).
        assert (tk_callback save_data s2
                = (Ok tt, set_data_file (Json (document s2)) s2)) as -> by done.
        assert (heap s2 = heap s1) as Hheap
          by (apply (tk_callback_preserves heap), load_playlist_preserves_heap).
        assert (folders s2 = folders s1) as Hfs.
        { apply (tk_callback_preserves folders). unfold load_playlist, deref, insert_row.
          eauto 20 using generate_shuffle_queue_preserves_folders with preserves. }
        eexists. split; [reflexivity|]. cbn.
        rewrite Hheap, Hfs. subst s1. cbn. unfold upd. rewrite Nat.eqb_refl.
        split; [done|]. split; [apply cleaned_no_question_mark|]. done.
Qed.


Lemma add_from_url_spec_witness :
  add_from_url env_ok (init draws_201 Absent)
    = (Ok tt, warned SelectPlaylistFirst (init draws_201 Absent)) /\
  add_from_url env_ok (typed "  ") = (Ok tt, warned TypeAUrl (typed "  ")) /\
  add_from_url env_ok (typed "https://example.com/a")
    = (Ok tt, failed UrlNotYouTube (typed "https://example.com/a")) /\
  add_from_url env_bare (typed " https://youtu.be/abc?t=3 ")
    = (Ok tt, failed YtDlpMissing (typed " https://youtu.be/abc?t=3 ")) /\
  add_from_url env_many (typed " https://youtu.be/abc?t=3 ")
    = (Ok tt, failed (AddUrlFailed LibraryError) (typed " https://youtu.be/abc?t=3 ")) /\
  (exists s',
     add_from_url env_ok (typed " https://youtu.be/abc?t=3 ") = (Ok tt, s') /\
     tracks (heap s' O)
       = tracks (heap (typed " https://youtu.be/abc?t=3 ") O)
         ++ [mkTrack (VStr "Song")
               (VStr (cleaned (strip (url_entry (typed " https://youtu.be/abc?t=3 ")))))
               (VStr "abc123") (VInt 0)] /\
     contains "?" (cleaned (strip (url_entry (typed " https://youtu.be/abc?t=3 "))))
       = false /\
     folders s' = folders (typed " https://youtu.be/abc?t=3 ") /\
     url_entry s' = "" /\
     data_file s' = Json (document s')).
Proof.
  split; [apply (proj1 (add_from_url_spec env_ok (init draws_201 Absent)));
          reflexivity|].
  split; [apply (proj1 (proj2 (add_from_url_spec env_ok (typed "  ")) O eq_refl));
          reflexivity|].
  split.
  { apply (proj1 (proj2 (proj2 (add_from_url_spec env_ok
             (typed "https://example.com/a")) O eq_refl)));
      [vm_compute; discriminate|reflexivity|reflexivity]. }
  split.
  { apply (proj1 (proj2 (proj2 (proj2 (add_from_url_spec env_bare
             (typed " https://youtu.be/abc?t=3 ")) O eq_refl))
             ltac:(vm_compute; discriminate) ltac:(right; reflexivity))).
    reflexivity. }
  split.
  { apply (proj1 (proj2 (proj2 (proj2 (proj2 (add_from_url_spec env_many
             (typed " https://youtu.be/abc?t=3 ")) O eq_refl))
             ltac:(vm_compute; discriminate) ltac:(right; reflexivity))));
      reflexivity. }
  apply (proj2 (proj2 (proj2 (proj2 (proj2 (add_from_url_spec env_ok
           (typed " https://youtu.be/abc?t=3 ")) O eq_refl))
           ltac:(vm_compute; discriminate) ltac:(right; reflexivity)))
           [("title", VStr "Song"); ("id", VStr "abc123")]);
    reflexivity.
Defined.


(** ** The embed-page scrape: duplicates *)

Lemma unique_from_spec (seen : gset string) (l : list (string * string)) :
  unique_from seen l `sublist_of` l /\
  NoDup (map track_key (unique_from seen l)) /\
  (forall x, x ∈ unique_from seen l -> track_key x ∉ seen) /\
  (forall x, x ∈ l ->
     track_key x ∈ seen \/ track_key x ∈ map track_key (unique_from seen l)).
Proof.
  revert seen. induction l as [|[nm artist] l IH]; intros seen.
  - cbn. split; [constructor|]. split; [constructor|].
    split; intros x Hx; by apply elem_of_nil in Hx.
  - cbn [unique_from]. change (nm +:+ "|" +:+ artist) with (track_key (nm, artist)).
    destruct (decide (track_key (nm, artist) ∈ seen)) as [Hin|Hnin].
    + destruct (IH seen) as (Hsub & Hnd & Hfresh & Hcov).
      split; [by apply sublist_cons_r; left|]. split; [done|]. split; [done|].
      intros x [->|Hx]%elem_of_cons; [by left|by apply Hcov].
    + destruct (IH ({[track_key (nm, artist)]} ∪ seen)) as (Hsub & Hnd & Hfresh & Hcov).
      split; [by apply sublist_skip|]. split.
      { cbn [map]. apply NoDup_cons. split; [|done].
        intros (y & Hy & Hy')%list_elem_of_fmap. apply (Hfresh y Hy').
        rewrite <- Hy. apply elem_of_union. left. by apply elem_of_singleton. }
      split.
      { intros x [->|Hx]%elem_of_cons; [done|].
        specialize (Hfresh x Hx). apply not_elem_of_union in Hfresh. tauto. }
      intros x [->|Hx]%elem_of_cons.
      * right. cbn [map]. apply list_elem_of_here.
      * destruct (Hcov x Hx) as [Hs|Hr].
        -- apply elem_of_union in Hs as [Hs|Hs]; [|by left].
           apply elem_of_singleton in Hs. right. cbn [map]. rewrite Hs.
           apply list_elem_of_here.
        -- right. cbn [map]. by apply list_elem_of_further.
Qed.

(** X12: the tracks returned by the embed scrape are matches of the
    page, in the order of the page, and no two of them have the same
    "name|artist" key; as long as fewer than 50 are returned, every
    match of the page has its key among them.  When [requests] is
    missing or the request raises, the result is empty. *)
Theorem embed_scrape_unique (env : Env) (playlist_id : string) :
  NoDup (map track_key (_get_spotify_tracks_embed env playlist_id)) /\
  (forall text,
     requests env = true ->
     requests_get env ("https://open.spotify.com/embed/playlist/" +:+ playlist_id)
       = Ok text ->
     _get_spotify_tracks_embed env playlist_id
       `sublist_of` re_finditer env embed_pattern text /\
     ((length (_get_spotify_tracks_embed env playlist_id) < 50)%nat ->
      forall m, m ∈ re_finditer env embed_pattern text ->
        track_key m ∈ map track_key (_get_spotify_tracks_embed env playlist_id))) /\
  (requests env = false \/
   (exists e,
      requests_get env ("https://open.spotify.com/embed/playlist/" +:+ playlist_id)
        = Raise e) ->
   _get_spotify_tracks_embed env playlist_id = []).
Proof.
  unfold _get_spotify_tracks_embed. split; [|split].
  - destruct (if requests env then _ else _) as [text|e]; [|constructor].
    destruct (unique_from_spec ∅ (re_finditer env embed_pattern text))
      as (_ & Hnd & _ & _).
    eapply sublist_NoDup; [exact Hnd|]. apply (fmap_sublist _), sublist_take.
  - intros text Hreq Hget. rewrite Hreq, Hget.
    destruct (unique_from_spec ∅ (re_finditer env embed_pattern text))
      as (Hsub & _ & _ & Hcov).
    split; [by etrans; [apply sublist_take|]|].
    intros Hlen m Hm. rewrite take_ge.
    + destruct (Hcov m Hm) as [Hs|Hr]; [by apply elem_of_empty in Hs|done].
    + rewrite length_take in Hlen. lia.
  - intros [Hreq|[e He]]; [by rewrite Hreq|].
    rewrite He. by destruct (requests env).
Qed.

Lemma embed_scrape_unique_witness :
  NoDup (map track_key (_get_spotify_tracks_embed env_many "p")) /\
  (_get_spotify_tracks_embed env_many "p"
     `sublist_of` re_finditer env_many embed_pattern "" /\
   ((length (_get_spotify_tracks_embed env_many "p") < 50)%nat ->
    forall m, m ∈ re_finditer env_many embed_pattern "" ->
      track_key m ∈ map track_key (_get_spotify_tracks_embed env_many "p"))) /\
  _get_spotify_tracks_embed env_bare "p" = [].
Proof.
  split; [apply (proj1 (embed_scrape_unique env_many "p"))|]. split.
  - apply (proj1 (proj2 (embed_scrape_unique env_many "p")) ""); reflexivity.
  - apply (proj2 (proj2 (embed_scrape_unique env_bare "p"))). left. reflexivity.
Defined.

(** ** The player *)

Lemma MusicPlayer_play_cases (vlc_raises : vlc_call -> option exn)
    (u start : value) (p : MusicPlayer) :
  has_player p = true ->
  let full := [media_new u; set_media; vlc_play] ++ seek_calls start in
  (MusicPlayer_play vlc_raises u start p =
     (Ok true, mkPlayer true (Some u) true (volume p) (vlc_calls p ++ full)
                 (reported p))
   /\ (forall c, c ∈ full -> vlc_raises c = None)
   /\ (exists b, gt0 start = Ok b))
  \/
  (exists e calls,
     MusicPlayer_play vlc_raises u start p =
       (Ok false, mkPlayer true (Some u) (is_playing p) (volume p)
                    (vlc_calls p ++ calls) (reported p ++ [PlayFailed e]))
     /\ ((exists c rest, full = calls ++ c :: rest /\ vlc_raises c = Some e)
         \/ (calls = [media_new u; set_media; vlc_play]
             /\ gt0 start = Raise e))).
Proof.
  destruct p as [hp cu ip v cs rp]. intros Hp full. cbn [has_player] in Hp. subst hp.
  run_player. cbn [negb].
  destruct (vlc_raises (media_new u)) as [e|] eqn:H1.
  { right. exists e, []. rewrite app_nil_r. split; [done|].
    left. by exists (media_new u), ([set_media; vlc_play] ++ seek_calls start). }
  destruct (vlc_raises set_media) as [e|] eqn:H2.
  { right. exists e, [media_new u]. split; [done|].
    left. by exists set_media, ([vlc_play] ++ seek_calls start). }
  destruct (vlc_raises vlc_play) as [e|] eqn:H3.
  { right. exists e, [media_new u; set_media]. rewrite <- !app_assoc.
    split; [done|]. left. by exists vlc_play, (seek_calls start). }
  assert (Hsucc : forall calls, (forall c, c ∈ calls -> vlc_raises c = None) ->
            forall c, c ∈ [media_new u; set_media; vlc_play] ++ calls ->
              vlc_raises c = None).
  { intros calls Hcalls c [Hc|Hc]%elem_of_app; [|by apply Hcalls].
    apply elem_of_cons in Hc as [->|Hc]; [done|].
    apply elem_of_cons in Hc as [->|Hc]; [done|].
    by apply list_elem_of_singleton in Hc as ->. }
  rewrite <- !app_assoc. cbn [app].
  destruct start as [ | [|] | z | s | l | d]; cbn [gt0 to_ms seek_calls] in *.
  - right. exists TypeError, [media_new u; set_media; vlc_play]. split; [done|].
    by right.
  - destruct (vlc_raises (set_time 1000)) as [e|] eqn:H4.
    + right. exists e, [media_new u; set_media; vlc_play]. split; [done|].
      left. by exists (set_time 1000), [].
    + left. rewrite <- !app_assoc. split; [done|]. split; [|by eexists].
      apply Hsucc. by intros c ->%list_elem_of_singleton.
  - left. subst full. rewrite app_nil_r. split; [done|]. split; [|by eexists].
    rewrite <- (app_nil_r [_; _; _]). apply Hsucc. by intros c ?%elem_of_nil.
  - subst full. destruct (0 <? z) eqn:Hz.
    + destruct (vlc_raises (set_time (z * 1000))) as [e|] eqn:H4.
      * right. exists e, [media_new u; set_media; vlc_play]. split; [done|].
        left. by exists (set_time (z * 1000)), [].
      * left. rewrite <- !app_assoc. split; [done|]. split; [|by eexists].
        apply Hsucc. by intros c ->%list_elem_of_singleton.
    + left. rewrite app_nil_r. split; [done|]. split; [|by eexists].
      rewrite <- (app_nil_r [_; _; _]). apply Hsucc. by intros c ?%elem_of_nil.
  - right. exists TypeError, [media_new u; set_media; vlc_play]. split; [done|].
    by right.
  - right. exists TypeError, [media_new u; set_media; vlc_play]. split; [done|].
    by right.
  - right. exists TypeError, [media_new u; set_media; vlc_play]. split; [done|].
    by right.
Qed.

Lemma seek_calls_ok (start : value) : Forall volume_call_ok (seek_calls start).
Proof.
  destruct start as [ | [|] | z | s | l | d]; cbn; try done.
  - by repeat constructor.
  - destruct (0 <? z); by repeat constructor.
Qed.

Lemma play_calls_ok (u start : value) (calls : list vlc_call) :
  (exists c rest,
     [media_new u; set_media; vlc_play] ++ seek_calls start = calls ++ c :: rest)
  \/ calls = [media_new u; set_media; vlc_play] ->
  Forall volume_call_ok calls.
Proof.
  intros [(c & rest & Heq)| ->]; [|by repeat constructor].
  assert (H : Forall volume_call_ok (calls ++ c :: rest)).
  { rewrite <- Heq. apply Forall_app. split; [by repeat constructor|].
    apply seek_calls_ok. }
  by apply Forall_app in H as [H _].
Qed.

Lemma player_step_ok (vlc_raises : vlc_call -> option exn) (b : bool)
    (p : MusicPlayer) (o : player_op) :
  player_ok b p -> player_ok b (player_step vlc_raises p o).
Proof.
  intros (Hp & Hv & Hc & Hn).
  destruct o as [u start | | | z]; unfold player_step.
  - destruct b.
    + destruct (MusicPlayer_play_cases vlc_raises u start p Hp)
        as [(-> & _ & _)|(e & calls & -> & Hwhy)]; player_ok_split.
      * apply Forall_app. split; [done|].
        apply Forall_app. split; [by repeat constructor|apply seek_calls_ok].
      * apply Forall_app. split; [done|].
        apply (play_calls_ok u start).
        destruct Hwhy as [(c & rest & Heq & _)|[-> _]]; [left|by right].
        by exists c, rest.
    + destruct p as [hp cu ip v cs rp]. cbn in Hp, Hv, Hc, Hn. subst hp.
      run_player. cbn. by player_ok_split.
  - destruct p as [hp cu ip v cs rp]. cbn in Hp, Hv, Hc, Hn. subst hp.
    run_player. destruct b; [|by player_ok_split].
    destruct (vlc_raises vlc_pause); player_ok_split; [done|].
    apply Forall_app. split; [done|by repeat constructor].
  - destruct p as [hp cu ip v cs rp]. cbn in Hp, Hv, Hc, Hn. subst hp.
    run_player. destruct b; [|by player_ok_split].
    destruct (vlc_raises vlc_stop); player_ok_split; [done|].
    apply Forall_app. split; [done|by repeat constructor].
  - destruct p as [hp cu ip v cs rp]. cbn in Hp, Hv, Hc, Hn. subst hp.
    run_player. destruct b.
    + destruct (vlc_raises _); player_ok_split; [done|].
      apply Forall_app. split; [done|]. repeat constructor; cbn; lia.
    + by player_ok_split.
Qed.

(** X13 (class MusicPlayer).  Whatever the backend does and whatever
    calls are made on a player, in any order: the player has a VLC player
    exactly when VLC was installed; its volume is within 0..100, and so is
    every volume it ever sent to VLC; and without VLC it never calls the
    backend, is never playing and never holds a url. *)
Theorem player_invariant (vlc_raises : vlc_call -> option exn)
    (vlc_installed : bool) (ops : list player_op) :
  player_ok vlc_installed (player_after vlc_raises vlc_installed ops).
Proof.
  unfold player_after.
  assert (H0 : player_ok vlc_installed
                 (snd (MusicPlayer_init vlc_raises vlc_installed))).
  { run_player. destruct vlc_installed.
    - destruct (vlc_raises _); player_ok_split; [done|].
      repeat constructor; cbn; lia.
    - by player_ok_split. }
  revert H0. generalize (snd (MusicPlayer_init vlc_raises vlc_installed)).
  induction ops as [|o ops IH]; intros p Hp; [done|].
  cbn [fold_left]. apply IH. by apply player_step_ok.
Qed.

(** X14 (MusicPlayer.play).  [play] never raises.  Without a VLC player it
    returns [False], reports that the player is unavailable and changes
    nothing else.  With one, it returns [True] exactly when VLC carries out
    the four calls (new media, set media, play, and the seek to
    [start_time * 1000] ms that is made only for a positive start time) and
    the start time can be compared with 0; the player is then playing the
    url.  Otherwise it returns [False] and reports the exception, the calls
    made before it stay made, [current_url] is already the new url and
    [is_playing] is left as it was: so for a start time that is not a number
    VLC has started the media when [play] fails. *)
Theorem MusicPlayer_play_spec (vlc_raises : vlc_call -> option exn)
    (u start : value) (p : MusicPlayer) :
  let full := [media_new u; set_media; vlc_play] ++ seek_calls start in
  (has_player p = false ->
   MusicPlayer_play vlc_raises u start p =
     (Ok false, set_reported (reported p ++ [PlayerUnavailable]) p)) /\
  (has_player p = true ->
   (MusicPlayer_play vlc_raises u start p =
      (Ok true, mkPlayer true (Some u) true (volume p) (vlc_calls p ++ full)
                  (reported p))
    /\ (forall c, c ∈ full -> vlc_raises c = None)
    /\ (exists b, gt0 start = Ok b))
   \/
   (exists e calls,
      MusicPlayer_play vlc_raises u start p =
        (Ok false, mkPlayer true (Some u) (is_playing p) (volume p)
                     (vlc_calls p ++ calls) (reported p ++ [PlayFailed e]))
      /\ ((exists c rest, full = calls ++ c :: rest /\ vlc_raises c = Some e)
          \/ (calls = [media_new u; set_media; vlc_play]
              /\ gt0 start = Raise e)))).
Proof.
  intros full. split.
  - intros Hp. unfold MusicPlayer_play, sbind at 1, sgets. rewrite Hp. done.
  - apply MusicPlayer_play_cases.
Qed.

Lemma MusicPlayer_play_spec_witness :
  MusicPlayer_play vlc_fine (VStr "s") (VInt 5) fresh_player =
    (Ok true,
     mkPlayer true (Some (VStr "s")) true 70
       [audio_set_volume 70; media_new (VStr "s"); set_media; vlc_play;
        set_time 5000] []) /\
  MusicPlayer_play vlc_fine (VStr "s") (VStr "soon") fresh_player =
    (Ok false,
     mkPlayer true (Some (VStr "s")) false 70
       [audio_set_volume 70; media_new (VStr "s"); set_media; vlc_play]
       [PlayFailed TypeError]) /\
  MusicPlayer_play vlc_fine (VStr "s") (VInt 5) (set_has_player false fresh_player) =
    (Ok false,
     set_reported [PlayerUnavailable] (set_has_player false fresh_player)).
Proof.
  split; [|split].
  - destruct (proj2 (MusicPlayer_play_spec vlc_fine (VStr "s") (VInt 5)
                       fresh_player) eq_refl)
      as [[H _]|(e & calls & H & _)]; [exact H|discriminate H].
  - destruct (proj2 (MusicPlayer_play_spec vlc_fine (VStr "s") (VStr "soon")
                       fresh_player) eq_refl)
      as [[H _]|(e & calls & H & _)]; [discriminate H|reflexivity].
  - apply (proj1 (MusicPlayer_play_spec vlc_fine (VStr "s") (VInt 5)
                    (set_has_player false fresh_player))). reflexivity.
Defined.

(** X15 (MusicPlayer.pause, MusicPlayer.stop).  With a VLC player that
    carries out the calls: two calls of [pause] send two pause calls to VLC
    and leave the player as it was; and [pause] after [stop] leaves the
    player marked as playing although it holds no url. *)
Theorem MusicPlayer_pause_toggles (vlc_raises : vlc_call -> option exn)
    (p : MusicPlayer) :
  has_player p = true ->
  vlc_raises vlc_pause = None ->
  sbind (MusicPlayer_pause vlc_raises) (fun _ => MusicPlayer_pause vlc_raises) p =
    (Ok tt, set_vlc_calls (vlc_calls p ++ [vlc_pause; vlc_pause]) p) /\
  (vlc_raises vlc_stop = None ->
   sbind (MusicPlayer_stop vlc_raises) (fun _ => MusicPlayer_pause vlc_raises) p =
     (Ok tt, mkPlayer true None true (volume p)
               (vlc_calls p ++ [vlc_stop; vlc_pause]) (reported p))).
Proof.
  destruct p as [hp cu ip v cs rp]. cbn [has_player]. intros -> Hpause.
  split.
  - run_player. rewrite Hpause. rewrite <- app_assoc, negb_involutive. done.
  - intros Hstop. run_player. rewrite Hstop, Hpause, <- app_assoc. done.
Qed.

Lemma MusicPlayer_pause_toggles_witness :
  sbind (MusicPlayer_pause vlc_fine) (fun _ => MusicPlayer_pause vlc_fine)
    fresh_player =
    (Ok tt,
     mkPlayer true None false 70 [audio_set_volume 70; vlc_pause; vlc_pause] []) /\
  sbind (MusicPlayer_stop vlc_fine) (fun _ => MusicPlayer_pause vlc_fine)
    fresh_player =
    (Ok tt,
     mkPlayer true None true 70 [audio_set_volume 70; vlc_stop; vlc_pause] []).
Proof.
  split.
  - apply (proj1 (MusicPlayer_pause_toggles vlc_fine fresh_player eq_refl eq_refl)).
  - apply (proj2 (MusicPlayer_pause_toggles vlc_fine fresh_player eq_refl eq_refl)).
    reflexivity.
Defined.

(** ** Search *)

Lemma rmap_list_Forall2 {A B} (f : A -> result B) (l : list A) (l' : list B) :
  rmap_list f l = Ok l' -> Forall2 (fun x y => f x = Ok y) l l'.
Proof.
  revert l'. induction l as [|x l IH]; intros l' H; cbn [rmap_list] in H.
  - injection H as <-. constructor.
  - destruct (f x) as [y|e] eqn:Hx; [|done]. cbn [rbind] in H.
    destruct (rmap_list f l) as [ys|e]; [|done]. cbn [rbind] in H.
    injection H as <-. constructor; [done|]. by apply IH.
Qed.

Lemma rmap_list_all_ok {A B} (f : A -> result B) (g : A -> B) (l : list A) :
  (forall x, x ∈ l -> f x = Ok (g x)) -> rmap_list f l = Ok (map g l).
Proof.
  induction l as [|x l IH]; intros H; [done|]. cbn [rmap_list map].
  rewrite (H x) by apply list_elem_of_here. cbn [rbind].
  rewrite IH; [done|]. intros y Hy. apply H. by apply list_elem_of_further.
Qed.

Lemma search_result_shape (repr : value -> string)
    (int_of_str : string -> result Z) (x y : value) :
  search_result repr int_of_str x = Ok y ->
  exists t i n,
    y = VDict [("title", t); ("url", VStr (watch_url repr i));
               ("video_id", i); ("duration", VInt n)].
Proof.
  unfold search_result. destruct x as [ | b | z | s | l | d]; try done.
  cbn [get rbind]. destruct (int_ _ _) as [n|e]; [|done]. cbn [rbind].
  intros [= <-]. by eexists _, _, _.
Qed.

Lemma search_result_not_dict (repr : value -> string)
    (int_of_str : string -> result Z) (x : value) :
  (forall d, x <> VDict d) ->
  search_result repr int_of_str x = Raise AttributeError.
Proof. intros H. destruct x; try done. by destruct (H d). Qed.

(** The result made from a plain entry. *)
Lemma search_result_plain (repr : value -> string)
    (int_of_str : string -> result Z) (x : value) :
  plain_entry x = true ->
  search_result repr int_of_str x =
    Ok (match x with
        | VDict d =>
            VDict [("title", default (VStr "Sem título") (dict_get "title" d));
                   ("url", VStr (watch_url repr (default (VStr "") (dict_get "id" d))));
                   ("video_id", default (VStr "") (dict_get "id" d));
                   ("duration", VInt (entry_duration d))]
        | _ => VNone
        end).
Proof.
  destruct x as [ | b | z | s | l | d]; try done.
  unfold plain_entry, search_result, entry_duration. cbn [get rbind].
  destruct (dict_get "title" d), (dict_get "id" d);
    destruct (dict_get "duration" d) as [[ | b | z | s | l | d']|]; try done;
    cbn; try done; unfold or_; cbn; by destruct (z =? 0) eqn:Hz;
    cbn; rewrite ?(proj1 (Z.eqb_eq _ _) Hz).
Qed.

(** X16 (search_youtube).  [search_youtube] never raises and returns at
    most 15 results, each a dictionary with exactly the keys [title],
    [url], [video_id] and [duration], the duration an integer and the url
    the watch address of the video id.  The results are made from the first
    15 entries of the search, in order; entries after the fifteenth are
    never looked at.  It is all or nothing: if one of the first 15 entries
    is not a dictionary, or has a duration that [int] refuses, no result is
    returned at all, and so it is when [yt_dlp] is missing or the search
    raises. *)
Theorem search_youtube_spec (repr : value -> string)
    (int_of_str : string -> result Z) (env : Env)
    (extract_flat : string -> result value) (query : string) :
  let rs := search_youtube repr int_of_str env extract_flat query in
  (length rs <= 15)%nat /\
  (forall r, r ∈ rs ->
     exists t i n,
       r = VDict [("title", t); ("url", VStr (watch_url repr i));
                  ("video_id", i); ("duration", VInt n)]) /\
  (yt_dlp env = false \/
   (exists e, extract_flat ("ytsearch15:" +:+ query) = Raise e) ->
   rs = []) /\
  (forall info es,
     yt_dlp env = true ->
     extract_flat ("ytsearch15:" +:+ query) = Ok (VDict info) ->
     dict_get "entries" info = Some (VList es) ->
     (forall x e,
        x ∈ take 15 es -> search_result repr int_of_str x = Raise e ->
        rs = []) /\
     (forall x, x ∈ take 15 es -> (forall d, x <> VDict d) -> rs = []) /\
     (Forall (fun x => plain_entry x = true) (take 15 es) ->
      length rs = Nat.min 15 (length es) /\
      forall k d,
        (k < 15)%nat -> es !! k = Some (VDict d) ->
        rs !! k =
          Some (VDict
                  [("title", default (VStr "Sem título") (dict_get "title" d));
                   ("url", VStr (watch_url repr
                                   (default (VStr "") (dict_get "id" d))));
                   ("video_id", default (VStr "") (dict_get "id" d));
                   ("duration", VInt (entry_duration d))]))).
Proof.
  intros rs.
  assert (Hshape : forall l,
            (if yt_dlp env then
               rbind (extract_flat ("ytsearch15:" +:+ query)) (fun result =>
               rbind (get result "entries" (VList [])) (fun entries =>
               rbind (first_15 entries) (fun entries =>
               rmap_list (search_result repr int_of_str) entries)))
             else Raise AttributeError) = Ok l ->
            exists es, (length es <= 15)%nat /\
              rmap_list (search_result repr int_of_str) es = Ok l).
  { intros l H. destruct (yt_dlp env); [|done].
    destruct (extract_flat _) as [result|e]; [|done]. cbn [rbind] in H.
    destruct (get result "entries" (VList [])) as [entries|e]; [|done].
    cbn [rbind] in H.
    destruct (first_15 entries) as [es|e] eqn:Hes; [|done]. cbn [rbind] in H.
    exists es. split; [|done].
    destruct entries; try done; injection Hes as <-; rewrite length_take; lia. }
  assert (Hrs : rs = [] \/ exists es, (length es <= 15)%nat /\
                  rmap_list (search_result repr int_of_str) es = Ok rs).
  { subst rs. unfold search_youtube.
    destruct (if yt_dlp env then _ else _) as [l|e] eqn:H; [|by left].
    right. by apply Hshape. }
  split; [|split; [|split]].
  - destruct Hrs as [->|(es & Hlen & Hes)]; [cbn; lia|].
    apply rmap_list_Forall2, Forall2_length in Hes. lia.
  - intros r Hr. destruct Hrs as [Hnil|(es & _ & Hes)].
    { rewrite Hnil in Hr. by apply elem_of_nil in Hr. }
    apply rmap_list_Forall2 in Hes.
    apply list_elem_of_lookup in Hr as [k Hk].
    destruct (Forall2_lookup_r _ _ _ _ _ Hes Hk) as (x & _ & Hx).
    by apply search_result_shape in Hx.
  - subst rs. unfold search_youtube. intros [->|[e ->]]; [done|].
    by destruct (yt_dlp env).
  - intros info es Hyt Hinfo Hentries.
    assert (Hrun : rs = match rmap_list (search_result repr int_of_str)
                                (take 15 es) with
                        | Ok results => results
                        | Raise _ => []
                        end).
    { subst rs. unfold search_youtube. rewrite Hyt, Hinfo. cbn [rbind get].
      rewrite Hentries. done. }
    assert (Hfail : forall x e,
              x ∈ take 15 es -> search_result repr int_of_str x = Raise e ->
              rs = []).
    { intros x e Hx He. rewrite Hrun.
      by destruct (rmap_list_raise _ _ _ _ Hx He) as [e' ->]. }
    split; [exact Hfail|]. split.
    { intros x Hx Hnd. apply (Hfail x AttributeError Hx).
      by apply search_result_not_dict. }
    intros Hplain.
    rewrite (rmap_list_all_ok _
               (fun x => match x with
                         | VDict d =>
                             VDict [("title", default (VStr "Sem título") (dict_get "title" d));
                                    ("url", VStr (watch_url repr (default (VStr "") (dict_get "id" d))));
                                    ("video_id", default (VStr "") (dict_get "id" d));
                                    ("duration", VInt (entry_duration d))]
                         | _ => VNone
                         end)) in Hrun.
    2:{ intros x Hx. apply search_result_plain.
        by apply (proj1 (Forall_forall _ _) Hplain). }
    rewrite Hrun. split.
    + by rewrite length_map, length_take.
    + intros k d Hk Hd. rewrite list_lookup_fmap, lookup_take_lt by done.
      by rewrite Hd.
Qed.

Lemma search_youtube_spec_witness :
  length (search_youtube no_repr no_int env_ok two_hits "q") = 2%nat /\
  search_youtube no_repr no_int env_ok two_hits "q" !! 1%nat =
    Some (VDict [("title", VStr "Sem título");
                 ("url", VStr "https://www.youtube.com/watch?v=ib");
                 ("video_id", VStr "ib");
                 ("duration", VInt 0)]) /\
  search_youtube no_repr no_int env_ok odd_hit "q" = [] /\
  search_youtube no_repr no_int env_bare two_hits "q" = [].
Proof.
  pose proof (search_youtube_spec no_repr no_int env_ok two_hits "q") as H.
  pose proof (search_youtube_spec no_repr no_int env_ok odd_hit "q") as H'.
  pose proof (search_youtube_spec no_repr no_int env_bare two_hits "q") as H''.
  cbv zeta in H, H', H''.
  destruct H as (_ & _ & _ & H). destruct H' as (_ & _ & _ & H').
  destruct H'' as (_ & _ & H'' & _).
  specialize (H _ _ eq_refl eq_refl eq_refl) as (_ & _ & H).
  specialize (H' _ _ eq_refl eq_refl eq_refl) as (_ & H' & _).
  split; [|split; [|split]].
  - apply H. by repeat constructor.
  - apply (proj2 (H ltac:(by repeat constructor)) 1%nat [("id", VStr "ib")]);
      [lia|reflexivity].
  - apply (H' VNone); [|done]. cbn. apply list_elem_of_further, list_elem_of_here.
  - apply H''. by left.
Defined.

(** ** Durations *)

Lemma length_append (s t : string) :
  String.length (s +:+ t) = (String.length s + String.length t)%nat.
Proof.
  induction s as [|c s IH]; [done|].
  change (S (String.length (s +:+ t)) = S (String.length s + String.length t)).
  by rewrite IH.
Qed.

Lemma append_inj_suffix (s1 s2 t1 t2 : string) :
  String.length t1 = String.length t2 ->
  s1 +:+ t1 = s2 +:+ t2 -> s1 = s2 /\ t1 = t2.
Proof.
  revert s2. induction s1 as [|c s1 IH]; intros [|c' s2] Hlen H.
  - done.
  - change (t1 = String c' (s2 +:+ t2)) in H. rewrite H in Hlen.
    change (S (String.length (s2 +:+ t2)) = String.length t2) in Hlen.
    rewrite length_append in Hlen. lia.
  - change (String c (s1 +:+ t1) = t2) in H. rewrite <- H in Hlen.
    change (String.length t1 = S (String.length (s1 +:+ t1))) in Hlen.
    rewrite length_append in Hlen. lia.
  - change (String c (s1 +:+ t1) = String c' (s2 +:+ t2)) in H.
    injection H as -> H. by destruct (IH s2 Hlen H) as [-> ->].
Qed.

(** The seconds part for each of the sixty values of [seconds % 60]: it has
    two characters, and different values give different texts. *)
Lemma fmt_02d_table :
  forallb (fun a =>
    (String.length (fmt_02d (Z.of_nat a)) =? 2)%nat &&
    forallb (fun b =>
      implb (String.eqb (fmt_02d (Z.of_nat a)) (fmt_02d (Z.of_nat b)))
            (a =? b)%nat) (seq 0 60)) (seq 0 60) = true.
Proof. vm_compute. reflexivity. Qed.

Lemma fmt_02d_length (z : Z) :
  0 <= z < 60 -> String.length (fmt_02d z) = 2%nat.
Proof.
  intros Hz. pose proof fmt_02d_table as H.
  rewrite forallb_forall in H. specialize (H (Z.to_nat z)).
  rewrite Z2Nat.id in H by lia.
  apply andb_prop in H as [H _]; [by apply Nat.eqb_eq in H|].
  apply in_seq. lia.
Qed.

Lemma fmt_02d_inj (a b : Z) :
  0 <= a < 60 -> 0 <= b < 60 -> fmt_02d a = fmt_02d b -> a = b.
Proof.
  intros Ha Hb Heq. pose proof fmt_02d_table as H.
  rewrite forallb_forall in H. specialize (H (Z.to_nat a)).
  rewrite Z2Nat.id in H by lia.
  apply andb_prop in H as [_ H]; [|apply in_seq; lia].
  rewrite forallb_forall in H. specialize (H (Z.to_nat b)).
  rewrite Z2Nat.id in H by lia.
  rewrite Heq, String.eqb_refl in H. cbn [implb] in H.
  assert (Hin : In (Z.to_nat b) (seq 0 60)) by (apply in_seq; lia).
  apply H, Nat.eqb_eq in Hin. lia.
Qed.

(** X17 (format_duration).  [format_duration] never raises.  It shows
    [?] for 0, for [None] and for anything [int] refuses.  For an integer
    other than 0 it shows the minutes, a colon and the seconds modulo 60 on
    exactly two characters; the text is never [?], and two different
    durations are never shown as the same text. *)
Theorem format_duration_spec (int_of_str : string -> result Z) :
  (forall v,
     eq0 v = true \/ v = VNone \/ (exists e, int_ int_of_str v = Raise e) ->
     format_duration int_of_str v = "?") /\
  (forall n,
     n <> 0 ->
     format_duration int_of_str (VInt n)
       = pretty (n / 60) +:+ ":" +:+ fmt_02d (n mod 60) /\
     String.length (fmt_02d (n mod 60)) = 2%nat /\
     format_duration int_of_str (VInt n) <> "?") /\
  (forall a b,
     a <> 0 -> b <> 0 ->
     format_duration int_of_str (VInt a) = format_duration int_of_str (VInt b) ->
     a = b).
Proof.
  assert (Hrun : forall n, n <> 0 ->
            format_duration int_of_str (VInt n)
              = pretty (n / 60) +:+ ":" +:+ fmt_02d (n mod 60)).
  { intros n Hn. unfold format_duration. cbn [eq0 is_None int_ orb].
    by rewrite (proj2 (Z.eqb_neq n 0) Hn). }
  assert (Hmod : forall n, 0 <= n mod 60 < 60) by (intros n; apply Z.mod_pos_bound; lia).
  split; [|split].
  - intros v [H|[->|[e H]]]; unfold format_duration.
    + by rewrite H.
    + done.
    + rewrite H. by destruct (eq0 v || is_None v).
  - intros n Hn. split; [by apply Hrun|]. split; [by apply fmt_02d_length|].
    rewrite (Hrun n Hn). intros H.
    apply (f_equal String.length) in H. rewrite !length_append in H.
    rewrite fmt_02d_length in H by done. cbn in H. lia.
  - intros a b Ha Hb H. rewrite (Hrun a Ha), (Hrun b Hb) in H.
    apply append_inj_suffix in H as [Hm Hs].
    2:{ change (S (String.length (fmt_02d (a mod 60)))
                = S (String.length (fmt_02d (b mod 60)))).
        by rewrite !fmt_02d_length. }
    apply (inj pretty) in Hm.
    change (String ":" (fmt_02d (a mod 60)) = String ":" (fmt_02d (b mod 60))) in Hs.
    injection Hs as Hs. apply fmt_02d_inj in Hs; [|done..].
    rewrite (Z.div_mod a 60), (Z.div_mod b 60) by lia. by rewrite Hm, Hs.
Qed.

Lemma format_duration_spec_witness :
  format_duration no_int (VInt 125) = "2:05" /\
  format_duration no_int (VStr "abc") = "?" /\
  format_duration no_int (VBool false) = "?".
Proof.
  split; [|split].
  - etrans.
    + apply (proj1 (proj2 (format_duration_spec no_int)) 125). lia.
    + reflexivity.
  - apply (proj1 (format_duration_spec no_int)). right. right.
    exists LibraryError. reflexivity.
  - apply (proj1 (format_duration_spec no_int)). left. reflexivity.
Defined.

(** ** Playback *)

Lemma MusicPlayer_play_total (vlc_raises : vlc_call -> option exn)
    (u start : value) (p : MusicPlayer) :
  exists ok p', MusicPlayer_play vlc_raises u start p = (Ok ok, p').
Proof.
  destruct (has_player p) eqn:Hp.
  - destruct (MusicPlayer_play_cases vlc_raises u start p Hp)
      as [(-> & _)|(e & calls & -> & _)]; by eexists _, _.
  - unfold MusicPlayer_play, sbind at 1, sgets. rewrite Hp. by eexists _, _.
Qed.

Lemma watch_url_truthy (repr : value -> string) (video_id : value) :
  truthy (VStr (watch_url repr video_id)) = true.
Proof. done. Qed.

Section PlaybackProperties.

Variable repr : value -> string.
Variable env : Env.
Variable extract_stream : string -> result value.
Variable vlc_raises : vlc_call -> option exn.

Lemma play_track_thread_run (d : Soundboard) (r : ref) (i : Z) (t : Track) :
  current_playlist (app d) = Some r ->
  actual_index (app d) = Ok i ->
  getitem (tracks (heap (app d) r)) i = Ok t ->
  let stream := get_youtube_stream_url repr env extract_stream (video_id t) in
  exists ok p',
    MusicPlayer_play vlc_raises stream (start_time t) (player d) = (Ok ok, p') /\
    _play_track_thread repr env extract_stream vlc_raises d =
      (Ok tt,
       if truthy stream
       then mkSoundboard (app d) p'
              (status_label d ++ [Loading (title t); NowPlaying (title t)]
               ++ if ok then [] else [PlayError (title t)])
       else mkSoundboard (app d) (player d)
              (status_label d ++ [Loading (title t); LoadFailed (title t)])).
Proof.
  intros Hr Hi Ht stream.
  destruct (MusicPlayer_play_total vlc_raises stream (start_time t) (player d))
    as (ok & p' & Hplay).
  exists ok, p'. split; [done|].
  destruct d as [s p st]. cbn [app player status_label] in *.
  unfold _play_track_thread.
  cbv [sbind sgets slift on_app on_player update_status smodify sret
       the_current_playlist app player status_label].
  rewrite Hi, Hr, Ht. fold stream.
  destruct (truthy stream); cbn [negb].
  - rewrite Hplay. destruct ok; cbn [negb]; by rewrite <- ?app_assoc.
  - by rewrite <- app_assoc.
Qed.

End PlaybackProperties.

(** X18 (_play_track_thread, get_youtube_stream_url).  The worker thread
    of [play_track], for a track at the index to play, a VLC player that
    carries out its calls and a start time that is a number.  Without
    [yt_dlp] VLC is given the watch page of the video id itself.  With it,
    VLC is given the [url] of the stream lookup made on that page; when the
    lookup raises, or gives no url or an empty one, the status shows that
    loading failed and VLC is not called at all.  When VLC is called it gets
    new media, set media, play and, only for a positive start time, the
    seek to [start_time * 1000] ms; the status shows loading, then playing.
    The library, the index and the queue are never changed. *)
Theorem play_track_thread_spec (repr : value -> string) (env : Env)
    (extract_stream : string -> result value)
    (vlc_raises : vlc_call -> option exn)
    (d : Soundboard) (r : ref) (i : Z) (t : Track) :
  current_playlist (app d) = Some r ->
  actual_index (app d) = Ok i ->
  getitem (tracks (heap (app d) r)) i = Ok t ->
  has_player (player d) = true ->
  (forall c, vlc_raises c = None) ->
  (exists b, gt0 (start_time t) = Ok b) ->
  let page := watch_url repr (video_id t) in
  let played u :=
    (Ok tt,
     mkSoundboard (app d)
       (mkPlayer true (Some u) true (volume (player d))
          (vlc_calls (player d)
           ++ [media_new u; set_media; vlc_play] ++ seek_calls (start_time t))
          (reported (player d)))
       (status_label d ++ [Loading (title t); NowPlaying (title t)])) in
  let failed :=
    (Ok tt,
     mkSoundboard (app d) (player d)
       (status_label d ++ [Loading (title t); LoadFailed (title t)])) in
  (yt_dlp env = false ->
   _play_track_thread repr env extract_stream vlc_raises d = played (VStr page)) /\
  (forall e,
     yt_dlp env = true -> extract_stream page = Raise e ->
     _play_track_thread repr env extract_stream vlc_raises d = failed) /\
  (forall info,
     yt_dlp env = true -> extract_stream page = Ok (VDict info) ->
     _play_track_thread repr env extract_stream vlc_raises d =
       if truthy (default (VStr "") (dict_get "url" info))
       then played (default (VStr "") (dict_get "url" info))
       else failed).
Proof.
  intros Hr Hi Ht Hp Hvlc [b Hb] page played failed.
  destruct (play_track_thread_run repr env extract_stream vlc_raises d r i t
              Hr Hi Ht) as (ok & p' & Hplay & Hrun).
  assert (Hplayed : forall u,
            get_youtube_stream_url repr env extract_stream (video_id t) = u ->
            truthy u = true ->
            _play_track_thread repr env extract_stream vlc_raises d = played u).
  { intros u Hu Htr. rewrite Hu in Hrun, Hplay. rewrite Htr in Hrun.
    destruct (MusicPlayer_play_cases vlc_raises u (start_time t) (player d) Hp)
      as [(H & _)|(e & calls & _ & [(c & rest & _ & Hc)|[_ Hgt]])].
    - rewrite H in Hplay. injection Hplay as <- <-. rewrite Hrun.
      by rewrite app_nil_r.
    - by rewrite Hvlc in Hc.
    - by rewrite Hb in Hgt. }
  assert (Hfailed : forall u,
            get_youtube_stream_url repr env extract_stream (video_id t) = u ->
            truthy u = false ->
            _play_track_thread repr env extract_stream vlc_raises d = failed).
  { intros u Hu Htr. rewrite Hu in Hrun. by rewrite Htr in Hrun. }
  split; [|split].
  - intros Hyt. apply Hplayed; [|done].
    unfold get_youtube_stream_url. by rewrite Hyt.
  - intros e Hyt He. apply (Hfailed (VStr "")); [|done].
    unfold get_youtube_stream_url. fold page. by rewrite Hyt, He.
  - intros info Hyt Hinfo.
    assert (Hu : get_youtube_stream_url repr env extract_stream (video_id t)
                 = default (VStr "") (dict_get "url" info)).
    { unfold get_youtube_stream_url. fold page. rewrite Hyt, Hinfo.
      cbn [negb rbind get]. by destruct (dict_get "url" info). }
    destruct (truthy (default (VStr "") (dict_get "url" info))) eqn:Htr.
    + by apply Hplayed.
    + by apply (Hfailed _ Hu).
Qed.

Lemma play_track_thread_spec_witness :
  _play_track_thread no_repr env_bare no_info vlc_fine (desk [track_a; track_b]) =
    (Ok tt,
     mkSoundboard (loaded [track_a; track_b] draws_201)
       (mkPlayer true (Some (VStr "https://www.youtube.com/watch?v=ia")) true 70
          [audio_set_volume 70;
           media_new (VStr "https://www.youtube.com/watch?v=ia");
           set_media; vlc_play] [])
       [Loading (VStr "a"); NowPlaying (VStr "a")]) /\
  _play_track_thread no_repr env_ok no_info vlc_fine (desk [track_a; track_b]) =
    (Ok tt,
     mkSoundboard (loaded [track_a; track_b] draws_201) fresh_player
       [Loading (VStr "a"); LoadFailed (VStr "a")]).
Proof.
  assert (Hb : exists b, gt0 (start_time track_a) = Ok b) by (by exists false).
  split.
  - apply (proj1 (play_track_thread_spec no_repr env_bare no_info vlc_fine
                    (desk [track_a; track_b]) O 0 track_a
                    eq_refl eq_refl eq_refl eq_refl (fun _ => eq_refl) Hb)).
    reflexivity.
  - apply (proj1 (proj2 (play_track_thread_spec no_repr env_ok no_info vlc_fine
                    (desk [track_a; track_b]) O 0 track_a
                    eq_refl eq_refl eq_refl eq_refl (fun _ => eq_refl) Hb))
             LibraryError); reflexivity.
Defined.

Lemma play_track_thread_app (repr : value -> string) (env : Env)
    (extract_stream : string -> result value)
    (vlc_raises : vlc_call -> option exn) (d : Soundboard) :
  app (snd (_play_track_thread repr env extract_stream vlc_raises d)) = app d.
Proof.
  destruct (actual_index (app d)) as [i|e] eqn:Hi.
  2:{ destruct d as [s p st]. unfold _play_track_thread.
      cbv [sbind sgets slift app]. cbn [app] in Hi. by rewrite Hi. }
  destruct (current_playlist (app d)) as [r|] eqn:Hr.
  2:{ destruct d as [s p st]. unfold _play_track_thread.
      cbv [sbind sgets slift on_app the_current_playlist app player status_label].
      cbn [app] in Hi, Hr. by rewrite Hi, Hr. }
  destruct (getitem (tracks (heap (app d) r)) i) as [t|e] eqn:Ht.
  2:{ destruct d as [s p st]. unfold _play_track_thread.
      cbv [sbind sgets slift on_app the_current_playlist app player status_label].
      cbn [app] in Hi, Hr, Ht. by rewrite Hi, Hr, Ht. }
  destruct (play_track_thread_run repr env extract_stream vlc_raises d r i t
              Hr Hi Ht) as (ok & p' & _ & ->).
  cbn [snd]. by destruct (truthy _).
Qed.

Lemma play_track_thread_loading (repr : value -> string) (env : Env)
    (extract_stream : string -> result value)
    (vlc_raises : vlc_call -> option exn)
    (d : Soundboard) (r : ref) (i : Z) (t : Track) :
  current_playlist (app d) = Some r ->
  actual_index (app d) = Ok i ->
  getitem (tracks (heap (app d) r)) i = Ok t ->
  exists rest,
    status_label (snd (_play_track_thread repr env extract_stream vlc_raises d))
    = status_label d ++ Loading (title t) :: rest.
Proof.
  intros Hr Hi Ht.
  destruct (play_track_thread_run repr env extract_stream vlc_raises d r i t
              Hr Hi Ht) as (ok & p' & _ & ->).
  cbn [snd]. destruct (truthy _); cbn [status_label]; by eexists.
Qed.

Lemma getitem_nil {A} (i : Z) : getitem (@nil A) i = Raise IndexError.
Proof.
  unfold getitem. destruct (norm_index _ _) as [k|]; [|done].
  by rewrite lookup_nil.
Qed.

(** X19 (play_track, _play_track_thread).  [play_track] with a playlist
    that is not empty and row [k] the first selected row: the index becomes
    [k] and nothing else of the library changes.  In sequential mode, or
    with an empty queue, the track loaded is the one of row [k].  In
    shuffle mode it is not: the track loaded is the one whose index is the
    [k]-th element of the shuffle queue; and when the queue has no [k]-th
    element the thread ends with [IndexError], the status and the player
    being left alone. *)
Theorem play_track_selected (repr : value -> string) (env : Env)
    (extract_stream : string -> result value)
    (vlc_raises : vlc_call -> option exn)
    (d : Soundboard) (r : ref) (k : Z) (sel : list Z) :
  current_playlist (app d) = Some r ->
  tracks (heap (app d) r) <> [] ->
  selected_from 0 (tracks_list (app d)) = k :: sel ->
  let d' := snd (play_track_thread repr env extract_stream vlc_raises d) in
  app d' = set_current_track_index k (app d) /\
  (shuffle_mode (app d) = false \/ shuffle_queue (app d) = [] ->
   forall t,
     getitem (tracks (heap (app d) r)) k = Ok t ->
     exists rest, status_label d' = status_label d ++ Loading (title t) :: rest) /\
  (shuffle_mode (app d) = true ->
   forall j t,
     getitem (shuffle_queue (app d)) k = Ok j ->
     getitem (tracks (heap (app d) r)) j = Ok t ->
     exists rest, status_label d' = status_label d ++ Loading (title t) :: rest) /\
  (shuffle_mode (app d) = true ->
   shuffle_queue (app d) <> [] ->
   getitem (shuffle_queue (app d)) k = Raise IndexError ->
   play_track_thread repr env extract_stream vlc_raises d =
     (Raise IndexError,
      mkSoundboard (set_current_track_index k (app d)) (player d)
        (status_label d))).
Proof.
  intros Hr Hne Hsel d'.
  set (d1 := mkSoundboard (set_current_track_index k (app d)) (player d)
               (status_label d)).
  assert (Hrun : play_track_thread repr env extract_stream vlc_raises d
                 = _play_track_thread repr env extract_stream vlc_raises d1).
  { destruct d as [s p st]. cbn [app player status_label] in *.
    unfold play_track_thread.
    cbv [sbind sgets on_app app player status_label].
    assert (Hn : nothing_to_play s = false).
    { unfold nothing_to_play. rewrite Hr. by apply bool_decide_eq_false. }
    rewrite Hn. unfold play_track.
    cbv [bind gets curselection modify]. by rewrite Hn, Hsel. }
  assert (Hr1 : current_playlist (app d1) = Some r) by done.
  subst d'. rewrite Hrun.
  split; [apply play_track_thread_app|]. split; [|split].
  - intros Hseq t Ht.
    apply (play_track_thread_loading _ _ _ _ d1 r k t Hr1); [|done].
    unfold actual_index. cbn.
    destruct Hseq as [->| ->]; [done|]. by rewrite andb_false_r.
  - intros Hsh j t Hj Ht.
    apply (play_track_thread_loading _ _ _ _ d1 r j t Hr1); [|done].
    unfold actual_index. cbn. rewrite Hsh.
    destruct (shuffle_queue (app d)) as [|q qs] eqn:Hq; [|done].
    by rewrite getitem_nil in Hj.
  - intros Hsh Hq Hk. unfold _play_track_thread.
    cbv [sbind sgets slift]. unfold actual_index. cbn.
    rewrite Hsh, Hk. by rewrite bool_decide_eq_false_2.
Qed.

Lemma play_track_selected_witness :
  shuffle_queue (app shuffled_first) = [2; 0; 1] /\
  exists rest,
    status_label
      (snd (play_track_thread no_repr env_bare no_info vlc_fine shuffled_first))
    = status_label shuffled_first ++ Loading (VStr "c") :: rest.
Proof.
  split; [reflexivity|].
  assert (Hne : tracks (heap (app shuffled_first) O) <> []).
  { vm_compute. discriminate. }
  apply (proj1 (proj2 (proj2 (play_track_selected no_repr env_bare no_info
                                vlc_fine shuffled_first O 0 []
                                eq_refl Hne eq_refl)))
           eq_refl 2 track_c); reflexivity.
Defined.

Lemma rmap_list_Forall2_raise {A B} (f : A -> result B) (l : list A) (e : exn) :
  rmap_list f l = Raise e -> exists x, x ∈ l /\ exists e', f x = Raise e'.
Proof.
  induction l as [|x l IH]; [done|]. cbn [rmap_list].
  destruct (f x) as [y|e0] eqn:Hx.
  - cbn [rbind]. destruct (rmap_list f l) as [ys|e1]; [done|].
    cbn [rbind]. intros [= ->]. destruct (IH eq_refl) as (x' & Hx' & He').
    exists x'. split; [by apply list_elem_of_further|done].
  - intros _. exists x. split; [apply list_elem_of_here|by eexists].
Qed.

(** ** The tracks of a Spotify playlist *)

Lemma spotify_item_name (item nm : value) (artist : string) :
  spotify_item item = Ok (Some (nm, artist)) -> truthy nm = true.
Proof.
  unfold spotify_item. destruct item as [ | b | z | s | l | d]; try done.
  cbn [get rbind].
  destruct (match dict_get "track" d with Some v => v | None => VDict [] end)
    as [ | b | z | s | l | td]; cbn [truthy get rbind]; try done;
    try (by repeat case_match).
  destruct (negb (bool_decide (td = []))); [|done].
  destruct (dict_get "name" td) as [v|]; [|done].
  destruct (truthy v) eqn:Hv; [|done].
  destruct (iter _) as [arts|e]; [|done]. cbn [rbind].
  destruct (rmap_list _ arts) as [names|e]; [|done]. cbn [rbind].
  destruct (join_comma names) as [a|e]; [|done]. cbn [rbind].
  by intros [= <- _].
Qed.

Lemma omap_id_Forall2 {A B} (P : A -> option B -> Prop) (l : list A)
    (l' : list (option B)) :
  Forall2 P l l' ->
  (length (omap id l') <= length l)%nat /\
  (forall y, y ∈ omap id l' -> exists x, x ∈ l /\ P x (Some y)) /\
  (forall x y, x ∈ l -> (forall o, P x o -> o = Some y) -> y ∈ omap id l').
Proof.
  induction 1 as [|x o l l' Hxo _ (IH1 & IH2 & IH3)].
  - split; [done|]. split; [by intros y ?%elem_of_nil|by intros x y ?%elem_of_nil].
  - split; [|split].
    + destruct o; cbn; lia.
    + intros y Hy. destruct o as [b|]; cbn in Hy.
      * apply elem_of_cons in Hy as [->|Hy].
        { exists x. split; [apply list_elem_of_here|done]. }
        destruct (IH2 y Hy) as (x' & Hx' & HP). exists x'.
        split; [by apply list_elem_of_further|done].
      * destruct (IH2 y Hy) as (x' & Hx' & HP). exists x'.
        split; [by apply list_elem_of_further|done].
    + intros x' y [->|Hx']%elem_of_cons Hy.
      * rewrite (Hy o Hxo). cbn. apply list_elem_of_here.
      * destruct o; cbn; [apply list_elem_of_further|]; by apply (IH3 x').
Qed.

(** X20 (get_spotify_tracks).  [get_spotify_tracks] never raises.  It
    returns no track when [requests] is missing, when the request raises,
    when the status is not 200 and when the embedded JSON cannot be parsed.
    When the page has no embedded JSON it returns what the embed scrape
    gives, so at most 50 tracks.  Otherwise it goes through the items of the
    playlist entity: every track returned comes from an item and has a name
    that is not empty, items without a track or without a name are skipped,
    so there are at most as many tracks as items; and it is all or nothing:
    one item that raises, such as an item that is not a dictionary, makes
    the result empty. *)
Theorem get_spotify_tracks_spec (env : Env) (status_code : string -> Z)
    (next_data : string -> option string)
    (json_loads : string -> result value) (playlist_id : string) :
  let u := "https://open.spotify.com/playlist/" +:+ playlist_id in
  let rs := get_spotify_tracks env status_code next_data json_loads playlist_id in
  (requests env = false \/ (exists e, requests_get env u = Raise e)
   \/ status_code u <> 200 ->
   rs = []) /\
  (forall text,
     requests env = true -> requests_get env u = Ok text ->
     status_code u = 200 ->
     (next_data text = None ->
      rs = map (fun '(nm, artist) => (VStr nm, artist))
               (_get_spotify_tracks_embed env playlist_id) /\
      (length rs <= 50)%nat) /\
     (forall js e,
        next_data text = Some js -> json_loads js = Raise e -> rs = []) /\
     (forall js data playlist_data items,
        next_data text = Some js -> json_loads js = Ok data ->
        playlist_entity data = Ok playlist_data ->
        playlist_items playlist_data = Ok items ->
        (forall item e, item ∈ items -> spotify_item item = Raise e -> rs = []) /\
        (forall item, item ∈ items -> (forall d, item <> VDict d) -> rs = []) /\
        (length rs <= length items)%nat /\
        (forall nm artist,
           (nm, artist) ∈ rs ->
           truthy nm = true /\
           exists item, item ∈ items /\ spotify_item item = Ok (Some (nm, artist))) /\
        ((forall item, item ∈ items -> exists o, spotify_item item = Ok o) ->
         forall item t,
           item ∈ items -> spotify_item item = Ok (Some t) -> t ∈ rs))).
Proof.
  intros u rs. split.
  - subst rs. unfold get_spotify_tracks. fold u.
    intros [->|[[e ->]|Hs]]; [done| by destruct (requests env) |].
    destruct (if requests env then _ else _); [|done].
    by rewrite (proj2 (Z.eqb_neq _ _) Hs).
  - intros text Hreq Hget Hs.
    assert (Hrun : rs = match next_data text with
                        | None =>
                            map (fun '(nm, artist) => (VStr nm, artist))
                              (_get_spotify_tracks_embed env playlist_id)
                        | Some js =>
                            match json_loads js with
                            | Raise _ => []
                            | Ok data =>
                                match
                                  rbind (playlist_entity data) (fun playlist_data =>
                                  rbind (playlist_items playlist_data) (fun items =>
                                  rbind (rmap_list spotify_item items) (fun tracks =>
                                  Ok (omap id tracks))))
                                with
                                | Ok tracks => tracks
                                | Raise _ => []
                                end
                            end
                        end).
    { subst rs. unfold get_spotify_tracks. fold u.
      by rewrite Hreq, Hget, Hs. }
    split; [|split].
    + intros Hnd. rewrite Hnd in Hrun. split; [done|].
      rewrite Hrun, length_map. unfold _get_spotify_tracks_embed.
      destruct (if requests env then _ else _); [|cbn; lia].
      rewrite length_take. lia.
    + intros js e Hnd He. by rewrite Hnd, He in Hrun.
    + intros js data pd items Hnd Hdata Hpd Hitems.
      rewrite Hnd, Hdata, Hpd in Hrun. cbn [rbind] in Hrun.
      rewrite Hitems in Hrun. cbn [rbind] in Hrun.
      assert (Hfail : forall item e,
                item ∈ items -> spotify_item item = Raise e -> rs = []).
      { intros item e Hin He.
        destruct (rmap_list_raise _ _ _ _ Hin He) as [e' He'].
        by rewrite He' in Hrun. }
      split; [done|]. split.
      { intros item Hin Hnd'. apply (Hfail item AttributeError Hin).
        destruct item; try done. by destruct (Hnd' d). }
      destruct (rmap_list spotify_item items) as [os|e] eqn:Hos.
      2:{ cbn [rbind] in Hrun. rewrite Hrun. split; [cbn; lia|].
          split; [by intros nm a ?%elem_of_nil|].
          intros Hall. apply rmap_list_Forall2_raise in Hos as (x & Hx & e' & He').
          destruct (Hall x Hx) as [o Ho]. by rewrite Ho in He'. }
      cbn [rbind] in Hrun. apply rmap_list_Forall2 in Hos.
      destruct (omap_id_Forall2 _ _ _ Hos) as (H1 & H2 & H3).
      rewrite Hrun. split; [done|]. split.
      * intros nm a Hin. destruct (H2 _ Hin) as (item & Hitem & Hres).
        split; [by apply (spotify_item_name item nm a)|]. by exists item.
      * intros _ item t Hin Ht. apply (H3 item t Hin).
        intros o Ho. rewrite Ht in Ho. by injection Ho as <-.
Qed.

Lemma get_spotify_tracks_spec_witness :
  (VStr "Song", "A, B")
    ∈ get_spotify_tracks env_page is_200 (found "j")
        (loads [item_song; item_nameless]) "p" /\
  (length (get_spotify_tracks env_page is_200 (found "j")
             (loads [item_song; item_nameless]) "p") <= 2)%nat /\
  get_spotify_tracks env_page is_200 (found "j")
    (loads [item_song; item_odd]) "p" = [] /\
  get_spotify_tracks env_bare is_200 (found "j")
    (loads [item_song]) "p" = [].
Proof.
  pose proof (proj2 (get_spotify_tracks_spec env_page is_200 (found "j")
                       (loads [item_song; item_nameless]) "p")
                "page" eq_refl eq_refl eq_refl) as (_ & _ & H).
  specialize (H "j" _ _ [item_song; item_nameless] eq_refl eq_refl eq_refl eq_refl)
    as (_ & _ & Hlen & _ & Hin).
  pose proof (proj2 (get_spotify_tracks_spec env_page is_200 (found "j")
                       (loads [item_song; item_odd]) "p")
                "page" eq_refl eq_refl eq_refl) as (_ & _ & H').
  specialize (H' "j" _ _ [item_song; item_odd] eq_refl eq_refl eq_refl eq_refl)
    as (_ & Hodd & _).
  split; [|split; [|split]].
  - apply (Hin ltac:(intros item [->|[->|[]%elem_of_nil]%elem_of_cons]%elem_of_cons;
                     by eexists) item_song).
    + apply list_elem_of_here.
    + reflexivity.
  - exact Hlen.
  - apply (Hodd item_odd); [|done].
    apply list_elem_of_further, list_elem_of_here.
  - apply (proj1 (get_spotify_tracks_spec env_bare is_200 (found "j")
                    (loads [item_song]) "p")). by left.
Defined.
